(** * rxjs-sqs-consumer: the two SQS consumer engines, [Manager] and [SQSManager]

    The classes of [src/Manager.ts] and [src/SQSManager.ts] are asynchronous:
    every [await] is a point where the method is suspended until the
    transport, the handler or a timer answers.  Each method is embedded as a
    transition function.  A state records at which [await] every task is
    suspended; an input is what the environment delivers next (a transport
    call settles, the handler settles, a timer fires, the user calls
    [start] or [stop]); the transition runs the code up to the next [await]
    and appends what it did to an event log.  Inputs that the environment
    cannot deliver in a state (a tick of a cleared interval, the answer of a
    call that was never sent) make the transition return [None].

    What the model takes from the environment: the outcome of every call of
    the transport and of the handler, the moments at which timers fire, the
    values of [Math.random()] (rationals, with [Math.floor] exact), and the
    calls of the user.  A handler may also throw before it returns a
    promise.  In [SQSManager] which messages make it do so is a parameter of
    the model; in [Manager] the exception reaches the [catch] block that also
    receives a rejected promise, and is the input of a rejection.  A callback
    of the user is an event: it is called, not awaited, and is taken to
    return.  Times are not measured; a delay is
    recorded with its length.  For [SQSManager] the operators of rxjs
    ([retry], [finalize], [mergeMap], [from]) act as rxjs 7 implements
    them. *)

From Stdlib Require Import ZArith QArith Qround List String Bool Arith Lia Permutation.
Local Close Scope Q_scope.
Import ListNotations.

Set Implicit Arguments.

(** ** Values of [@aws-sdk/client-sqs] the code inspects *)

Module Sqs.

(** [Message]: every field is optional in the SDK's type. *)
Record Message := {
  MessageId : option string;
  ReceiptHandle : option string;
  Body : option string
}.

(** JavaScript truthiness of an optional string: [undefined] and the empty
    string are falsy. *)
Definition truthy (o : option string) : bool :=
  match o with
  | Some s => negb (String.eqb s EmptyString)
  | None => false
  end.

(** The fields of a rejected [send] that [receiveMessage] reads:
    [error.Code] and [error.__type]. *)
Record Error := {
  Code : option string;
  __type : option string;
  message : string
}.

(** [error.Code === c] *)
Definition field_is (o : option string) (c : string) : bool :=
  match o with
  | Some s => String.eqb s c
  | None => false
  end.

End Sqs.
Import Sqs.

(** [if cb then [ev] else []]: an optional callback, [this.cb?.(...)]. *)
Definition opt_call {E : Type} (present : bool) (ev : E) : list E :=
  if present then [ev] else [].

(** [list[n] = x]; out of range nothing changes (never used out of range). *)
Fixpoint upd_nth {A : Type} (n : nat) (x : A) (l : list A) : list A :=
  match l, n with
  | [], _ => []
  | _ :: t, 0 => x :: t
  | h :: t, S k => h :: upd_nth k x t
  end.

(** * Strategy A: [Manager] (src/Manager.ts) *)

Module Manager.

(** [Options] (src/types/Options.ts).  A callback is modelled by whether it
    was supplied; calling it is an event of the log.  [config] and
    [handler] are the environment. *)
Record Options := {
  queueUrl : string;
  opt_MaxNumberOfMessages : option Z;
  opt_WaitTimeSeconds : option Z;
  opt_VisibilityTimeout : option Z;
  opt_heartbeatInterval : option Z;
  opt_timeoutTemporaryError : option Z;
  onErrorReceivingMessage : bool;
  onErrorVisibilityTimeout : bool;
  onErrorProccessMessage : bool;
  onErrorConfiguration : bool;
  onErrorTemporary : bool
}.

(** [x || d] on an optional number: [undefined] and [0] are falsy. *)
Definition or_default (x : option Z) (d : Z) : Z :=
  match x with
  | Some 0%Z | None => d
  | Some v => v
  end.

(** The numeric fields the constructor computes (lines 27-31). *)
Definition MaxNumberOfMessages (o : Options) : Z := or_default (opt_MaxNumberOfMessages o) 10.
Definition WaitTimeSeconds (o : Options) : Z := or_default (opt_WaitTimeSeconds o) 20.
Definition VisibilityTimeout (o : Options) : Z := or_default (opt_VisibilityTimeout o) 30.
Definition heartbeatInterval (o : Options) : Z :=
  or_default (opt_heartbeatInterval o)
    (match opt_VisibilityTimeout o with
     | Some 0%Z | None => 15
     | Some v => v / 2
     end)%Z.
Definition timeoutTemporaryError (o : Options) : Z := or_default (opt_timeoutTemporaryError o) 5000.

(** What the engine does that an observer can see. *)
Inductive Event :=
| EvReceive                                     (* send(ReceiveMessageCommand) *)
| EvSetInterval (m : Message) (ms : Z)          (* heartbeatTimer = setInterval(..) *)
| EvClearInterval (m : Message)                 (* clearInterval(heartbeatTimer) *)
| EvHandler (m : Message)                       (* this.handler(msg) *)
| EvExtend (m : Message) (vt : Z)               (* send(ChangeMessageVisibilityCommand) *)
| EvDelete (m : Message)                        (* send(DeleteMessageCommand) *)
| EvSleep (ms : Z)                              (* setTimeout(resolve, timeoutTemporaryError) *)
| EvOnErrorReceivingMessage (e : Error)
| EvOnErrorVisibilityTimeout (m : Message) (e : Error)
| EvOnErrorProccessMessage (m : Message) (e : Error)
| EvOnErrorConfiguration (e : Error)
| EvOnErrorTemporary (e : Error).

(** *** One message: [processMessageWithVisibilityHeartbeat] (lines 109-147) *)

(** Where the async function is suspended. *)
Inductive Phase :=
| Handling     (* line 136: await this.handler(msg) *)
| Deleting     (* line 138 -> 154: await this.client.send(DeleteMessageCommand) *)
| Settled.     (* the function has returned; its promise is fulfilled *)

Record Proc := {
  msg : Message;
  phase : Phase;
  armed : bool;        (* the interval exists and was not cleared *)
  inflight : nat       (* extendVisibility calls suspended at line 125 *)
}.

(** The local variable [heartbeatTimer] is non-null from line 134 until the
    [finally] block nulls it at line 144. *)
Definition heartbeatTimer (p : Proc) : bool :=
  match phase p with Settled => false | _ => true end.

Inductive ProcInput :=
| Tick                             (* the interval fires: void extendVisibility() *)
| ExtendDone (r : option Error)    (* a ChangeMessageVisibility send settles *)
| HandlerDone (r : option Error)   (* the handler's promise settles *)
| DeleteDone (r : option Error).   (* the DeleteMessage send settles *)

Section OneMessage.
Variable o : Options.

(** Lines 109-136, up to the first [await]. *)
Definition processMessageWithVisibilityHeartbeat (m : Message) : Proc * list Event :=
  if negb (truthy (ReceiptHandle m)) then
    ({| msg := m; phase := Settled; armed := false; inflight := 0 |}, [])
  else
    ({| msg := m; phase := Handling; armed := true; inflight := 0 |},
     [EvSetInterval m (heartbeatInterval o * 1000); EvHandler m]).

(** The [finally] block, lines 141-146. *)
Definition finally_block (p : Proc) : Proc * list Event :=
  if heartbeatTimer p then
    ({| msg := msg p; phase := Settled; armed := false; inflight := inflight p |},
     [EvClearInterval (msg p)])
  else
    ({| msg := msg p; phase := Settled; armed := armed p; inflight := inflight p |}, []).

(** The [catch] block of line 139 followed by [finally]. *)
Definition catch_block (p : Proc) (e : Error) : Proc * list Event :=
  let '(p', evs) := finally_block p in
  (p', opt_call (onErrorProccessMessage o) (EvOnErrorProccessMessage (msg p) e) ++ evs).

(** [extendVisibility], lines 114-131, up to its [await]. *)
Definition extendVisibility (p : Proc) : Proc * list Event :=
  if negb (truthy (ReceiptHandle (msg p))) then (p, [])
  else
    ({| msg := msg p; phase := phase p; armed := armed p; inflight := S (inflight p) |},
     [EvExtend (msg p) (VisibilityTimeout o)]).

(** The [catch] block of [extendVisibility], lines 126-130. *)
Definition extendVisibility_catch (p : Proc) (e : Error) : Proc * list Event :=
  let cb := opt_call (onErrorVisibilityTimeout o) (EvOnErrorVisibilityTimeout (msg p) e) in
  if heartbeatTimer p then
    ({| msg := msg p; phase := phase p; armed := false; inflight := inflight p |},
     EvClearInterval (msg p) :: cb)
  else (p, cb).

(** [deleteMessage], lines 149-155, up to its [await]: the delete is sent. *)
Definition deleteMessage (p : Proc) : Proc * list Event :=
  ({| msg := msg p; phase := Deleting; armed := armed p; inflight := inflight p |},
   [EvDelete (msg p)]).

Definition step_proc (p : Proc) (i : ProcInput) : option (Proc * list Event) :=
  match i with
  | Tick =>
      if armed p then Some (extendVisibility p) else None
  | ExtendDone r =>
      match inflight p with
      | 0 => None
      | S n =>
          let p' := {| msg := msg p; phase := phase p; armed := armed p; inflight := n |} in
          match r with
          | None => Some (p', [])
          | Some e => Some (extendVisibility_catch p' e)
          end
      end
  | HandlerDone r =>
      match phase p with
      | Handling =>
          match r with
          | None => Some (deleteMessage p)     (* line 138 *)
          | Some e => Some (catch_block p e)
          end
      | _ => None
      end
  | DeleteDone r =>
      match phase p with
      | Deleting =>
          match r with
          | None => Some (finally_block p)
          | Some e => Some (catch_block p e)
          end
      | _ => None
      end
  end.

(** A lifecycle driven by a script of inputs; the log accumulates. *)
Fixpoint run_proc (p : Proc) (log : list Event) (script : list ProcInput)
  : option (Proc * list Event) :=
  match script with
  | [] => Some (p, log)
  | i :: rest =>
      match step_proc p i with
      | Some (p', evs) => run_proc p' (log ++ evs) rest
      | None => None
      end
  end.

(** The whole lifecycle of one message from dispatch. *)
Definition lifecycle (m : Message) (script : list ProcInput) : option (Proc * list Event) :=
  let '(p, evs) := processMessageWithVisibilityHeartbeat m in
  run_proc p evs script.

End OneMessage.

(** *** The engine: [start], [stop], [loop], [receiveMessage] (lines 44-107) *)

(** Where a call of [loop()] is suspended. *)
Inductive LoopPc :=
| AwaitReceive                (* line 77: await this.client.send(command) *)
| AwaitBatch                  (* line 83: await Promise.allSettled(proccessingPromises) *)
| AwaitStop (p : option nat)  (* line 97 -> line 57: await this.shutdownPromise *)
| AwaitTimeout                (* line 103: await new Promise(r => setTimeout(r, ..)) *)
| Returned.                   (* loop() has returned *)

(** The fields of the class that change, the tasks in flight and the log.
    A promise is named by a number; [resolveShutdown] holds the promise its
    closure resolves. *)
Record Engine := {
  running : bool;
  shutdownPromise : option nat;
  resolveShutdown : option nat;
  resolved : list nat;                  (* promises that have been resolved *)
  promises : nat;                       (* how many promises [start] created *)
  loops : list LoopPc;                  (* one entry per call of loop() *)
  procs : list (nat * Proc);            (* every lifecycle, with the loop that awaits it *)
  stops : list (option (option nat));   (* stop() calls of the user: [None] returned at
                                           line 53, [Some p] awaits promise p at line 57 *)
  log : list Event
}.

(** A freshly constructed [Manager] (lines 19-21). *)
Definition init : Engine :=
  {| running := false; shutdownPromise := None; resolveShutdown := None;
     resolved := []; promises := 0; loops := []; procs := []; stops := []; log := [] |}.

Definition set_running (b : bool) (e : Engine) : Engine :=
  {| running := b; shutdownPromise := shutdownPromise e;
     resolveShutdown := resolveShutdown e; resolved := resolved e;
     promises := promises e; loops := loops e; procs := procs e;
     stops := stops e; log := log e |}.

Definition set_loops (ls : list LoopPc) (e : Engine) : Engine :=
  {| running := running e; shutdownPromise := shutdownPromise e;
     resolveShutdown := resolveShutdown e; resolved := resolved e;
     promises := promises e; loops := ls; procs := procs e;
     stops := stops e; log := log e |}.

Definition set_procs (ps : list (nat * Proc)) (e : Engine) : Engine :=
  {| running := running e; shutdownPromise := shutdownPromise e;
     resolveShutdown := resolveShutdown e; resolved := resolved e;
     promises := promises e; loops := loops e; procs := ps;
     stops := stops e; log := log e |}.

Definition add_log (evs : list Event) (e : Engine) : Engine :=
  {| running := running e; shutdownPromise := shutdownPromise e;
     resolveShutdown := resolveShutdown e; resolved := resolved e;
     promises := promises e; loops := loops e; procs := procs e;
     stops := stops e; log := log e ++ evs |}.

Definition add_stop (s : option (option nat)) (e : Engine) : Engine :=
  {| running := running e; shutdownPromise := shutdownPromise e;
     resolveShutdown := resolveShutdown e; resolved := resolved e;
     promises := promises e; loops := loops e; procs := procs e;
     stops := stops e ++ [s]; log := log e |}.

Definition set_loop (l : nat) (pc : LoopPc) (e : Engine) : Engine :=
  set_loops (upd_nth l pc (loops e)) e.

Definition is_settled (p : Proc) : bool :=
  match phase p with Settled => true | _ => false end.

(** [Promise.allSettled] over the promises loop [l] awaits is fulfilled: all
    its lifecycles have returned. *)
Definition batch_settled (l : nat) (ps : list (nat * Proc)) : bool :=
  forallb (fun lp => negb (Nat.eqb (fst lp) l) || is_settled (snd lp)) ps.

(** A promise is resolved. *)
Definition is_resolved (e : Engine) (p : nat) : bool :=
  existsb (Nat.eqb p) (resolved e).

(** The promise a user's stop() call returned is fulfilled. *)
Definition stop_settled (e : Engine) (s : option (option nat)) : bool :=
  match s with
  | None => true                       (* returned at line 53 *)
  | Some None => true                  (* await null *)
  | Some (Some p) => is_resolved e p
  end.

Definition isQueueNonExistent (err : Error) : bool :=
  field_is (Code err) "AWS.SimpleQueueService.NonExistentQueue"%string
  || field_is (__type err) "com.amazonaws.sqs#QueueDoesNotExist"%string.

Definition isInvalidCredentials (err : Error) : bool :=
  field_is (Code err) "InvalidClientTokenId"%string
  || field_is (__type err) "com.amazon.coral.service#UnrecognizedClientException"%string.

(** What the environment delivers to the engine. *)
Inductive Input :=
| CallStart                                                (* the user calls start() *)
| CallStop                                                 (* the user calls stop() *)
| ReceiveDone (l : nat) (r : Error + option (list Message)) (* loop l's receive settles;
                                                              the payload is response.Messages *)
| ProcIn (i : nat) (x : ProcInput)                         (* an input of lifecycle i *)
| TimeoutFired (l : nat)                                   (* the timer of line 103 fires *)
| Wake (l : nat).                                          (* the promise loop l awaits inside
                                                              stop() has been resolved *)

Section Engine.
Variable o : Options.

(** Lines 64-65: [if (this.resolveShutdown) this.resolveShutdown()]. *)
Definition call_resolveShutdown (e : Engine) : Engine :=
  match resolveShutdown e with
  | Some p =>
      {| running := running e; shutdownPromise := shutdownPromise e;
         resolveShutdown := resolveShutdown e; resolved := p :: resolved e;
         promises := promises e; loops := loops e; procs := procs e;
         stops := stops e; log := log e |}
  | None => e
  end.

(** [receiveMessage], lines 68-77, up to its [await]: the receive call is
    sent. *)
Definition receiveMessage (l : nat) (e : Engine) : Engine :=
  set_loop l AwaitReceive (add_log [EvReceive] e).

(** [loop], lines 60-66, from the test of the [while]: either the next
    [receiveMessage] is called, or the loop is left and the shutdown promise
    resolved. *)
Definition loop (l : nat) (e : Engine) : Engine :=
  if running e then receiveMessage l e
  else set_loop l Returned (call_resolveShutdown e).

(** [start], lines 44-49. *)
Definition start (e : Engine) : Engine :=
  if running e then e
  else
    let p := promises e in
    let l := List.length (loops e) in
    loop l
      {| running := true; shutdownPromise := Some p; resolveShutdown := Some p;
         resolved := resolved e; promises := S p; loops := loops e ++ [Returned];
         procs := procs e; stops := stops e; log := log e |}.

(** [stop] called by the user, lines 51-58. *)
Definition stop (e : Engine) : Engine :=
  if negb (running e) then add_stop None e
  else add_stop (Some (shutdownPromise e)) (set_running false e).

(** [await this.stop()] at line 97, inside loop [l]. *)
Definition stop_in_receiveMessage (l : nat) (e : Engine) : Engine :=
  if negb (running e) then loop l e
  else set_loop l (AwaitStop (shutdownPromise e)) (set_running false e).

(** Line 81: [messages.map(msg => this.processMessageWithVisibilityHeartbeat(msg))]. *)
Fixpoint dispatch (l : nat) (messages : list Message) : list (nat * Proc) * list Event :=
  match messages with
  | [] => ([], [])
  | m :: rest =>
      let '(p, evs) := processMessageWithVisibilityHeartbeat o m in
      let '(ps, evs') := dispatch l rest in
      ((l, p) :: ps, evs ++ evs')
  end.

(** [allSettled] is fulfilled: [receiveMessage] returns and the loop goes on. *)
Definition after_batch (l : nat) (e : Engine) : Engine :=
  if batch_settled l (procs e) then loop l e else set_loop l AwaitBatch e.

(** Lines 79-83: the receive call was fulfilled. *)
Definition receive_try (l : nat) (Messages : option (list Message)) (e : Engine) : Engine :=
  let messages := match Messages with Some ms => ms | None => [] end in
  let '(ps, evs) := dispatch l messages in
  after_batch l (add_log evs (set_procs (procs e ++ ps) e)).

(** Lines 84-106: the [catch] block of [receiveMessage]. *)
Definition receive_catch (l : nat) (error : Error) (e : Engine) : Engine :=
  let e1 := add_log (opt_call (onErrorReceivingMessage o) (EvOnErrorReceivingMessage error)) e in
  if isQueueNonExistent error || isInvalidCredentials error then
    stop_in_receiveMessage l
      (add_log (opt_call (onErrorConfiguration o) (EvOnErrorConfiguration error)) e1)
  else if running e1 then
    set_loop l AwaitTimeout
      (add_log (opt_call (onErrorTemporary o) (EvOnErrorTemporary error)
                ++ [EvSleep (timeoutTemporaryError o)]) e1)
  else loop l e1.

Definition step (e : Engine) (i : Input) : option Engine :=
  match i with
  | CallStart => Some (start e)
  | CallStop => Some (stop e)
  | ReceiveDone l r =>
      match nth_error (loops e) l with
      | Some AwaitReceive =>
          match r with
          | inr Messages => Some (receive_try l Messages e)
          | inl error => Some (receive_catch l error e)
          end
      | _ => None
      end
  | ProcIn i x =>
      match nth_error (procs e) i with
      | Some (l, p) =>
          match step_proc o p x with
          | Some (p', evs) =>
              let e' := add_log evs (set_procs (upd_nth i (l, p') (procs e)) e) in
              match nth_error (loops e) l with
              | Some AwaitBatch => Some (after_batch l e')
              | _ => Some e'
              end
          | None => None
          end
      | None => None
      end
  | TimeoutFired l =>
      match nth_error (loops e) l with
      | Some AwaitTimeout => Some (loop l e)
      | _ => None
      end
  | Wake l =>
      match nth_error (loops e) l with
      | Some (AwaitStop None) => Some (loop l e)
      | Some (AwaitStop (Some p)) => if is_resolved e p then Some (loop l e) else None
      | _ => None
      end
  end.

Fixpoint run (e : Engine) (script : list Input) : option Engine :=
  match script with
  | [] => Some e
  | i :: rest =>
      match step e i with
      | Some e' => run e' rest
      | None => None
      end
  end.

End Engine.

(** Counting events of one kind in a log. *)
Definition is_receive (ev : Event) : bool :=
  match ev with EvReceive => true | _ => false end.
Definition is_onErrorConfiguration (ev : Event) : bool :=
  match ev with EvOnErrorConfiguration _ => true | _ => false end.
Definition is_onErrorVisibilityTimeout (ev : Event) : bool :=
  match ev with EvOnErrorVisibilityTimeout _ _ => true | _ => false end.
Definition is_extend (ev : Event) : bool :=
  match ev with EvExtend _ _ => true | _ => false end.
Definition is_delete (ev : Event) : bool :=
  match ev with EvDelete _ => true | _ => false end.
Definition count (f : Event -> bool) (l : list Event) : nat := List.length (filter f l).

Definition is_onErrorTemporary (ev : Event) : bool :=
  match ev with EvOnErrorTemporary _ => true | _ => false end.
Definition is_onErrorProccessMessage (ev : Event) : bool :=
  match ev with EvOnErrorProccessMessage _ _ => true | _ => false end.

(** [isQueueNonExistent || isInvalidCredentials], the test of line 95. *)
Definition is_configuration_error (err : Error) : bool :=
  isQueueNonExistent err || isInvalidCredentials err.

(** The user does not call start() in the script. *)
Definition no_start (script : list Input) : bool :=
  forallb (fun i => match i with CallStart => false | _ => true end) script.

(** Loop [l] sees its receive call fail with each error in turn, the timer
    of line 103 firing after each failure. *)
Definition temporary_failures (l : nat) (errs : list Error) : list Input :=
  flat_map (fun err => [ReceiveDone l (inl err); TimeoutFired l]) errs.

(** Reading the log of one lifecycle: [fst] tells whether the heartbeat
    interval is set and not cleared, [snd] whether every delete so far was
    sent with the interval cleared. *)
Definition ack_monitor (st : bool * bool) (ev : Event) : bool * bool :=
  match ev with
  | EvSetInterval _ _ => (true, snd st)
  | EvClearInterval _ => (false, snd st)
  | EvDelete _ => (fst st, snd st && negb (fst st))
  | _ => st
  end.

Definition heartbeat_stopped_before_ack (log : list Event) : bool :=
  snd (fold_left ack_monitor log (false, true)).

(** [true] while a delete was sent and no clearInterval followed it. *)
Definition pending_monitor (pending : bool) (ev : Event) : bool :=
  match ev with
  | EvDelete _ => true
  | EvClearInterval _ => false
  | _ => pending
  end.

Definition heartbeat_cleared_after_ack (log : list Event) : bool :=
  negb (fold_left pending_monitor log false).

(** The message an event is about, for the events of a lifecycle. *)
Definition event_message (ev : Event) : option Message :=
  match ev with
  | EvSetInterval m _ | EvClearInterval m | EvHandler m | EvExtend m _ | EvDelete m
  | EvOnErrorVisibilityTimeout m _ | EvOnErrorProccessMessage m _ => Some m
  | _ => None
  end.

End Manager.

(** * Strategy B: [SQSManager] (src/SQSManager.ts) *)

Module SQSManager.

(** An element of [deleteBuffer]. *)
Record Entry := {
  Id : string;
  entry_ReceiptHandle : string
}.

(** The arguments of [processMessage] (lines 123-128).  Of [handler] the
    model keeps what a call does before it returns: [handler_throws m] is the
    error that [handler(m)] throws, [None] when the call returns a promise,
    whose outcome is an input. *)
Record Params := {
  handler_throws : Message -> option Error;
  concurrency : Z;
  maxRetries : Z;
  baseDelay : Z;
  visibilityTimeout : Z;
  visibilityInterval : Z
}.

(** The defaults of lines 124-128, with a handler that returns a promise. *)
Definition default_params : Params :=
  {| handler_throws := fun _ => None;
     concurrency := 10; maxRetries := 5; baseDelay := 1000;
     visibilityTimeout := 30; visibilityInterval := 15000 |}.

Inductive Event :=
| EvReceive                                        (* send(ReceiveMessageCommand) *)
| EvEmit (m : Message)                             (* listen: subscriber.next(msg) *)
| EvSetInterval (m : Message) (ms : Z)             (* setInterval of startVisibilityExtender *)
| EvClearInterval (m : Message)                    (* clearInterval(timer) of stopVisibilityExtender *)
| EvHandler (m : Message)                          (* handler(message) *)
| EvExtend (m : Message) (vt : Z)                  (* send(ChangeMessageVisibilityCommand) *)
| EvRetryTimer (m : Message) (retryCount : nat) (jitter : Z)   (* timer(jitter) *)
| EvNext (m : Message)                             (* inner subscriber.next(v) *)
| EvComplete (m : Message)                         (* inner subscriber.complete() *)
| EvError (m : Message) (e : Error)                (* inner subscriber.error(e) *)
| EvAddToDeleteBatch (m : Message)                 (* this.addToDeleteBatch(message) *)
| EvDeleteBatch (batch : list Entry)               (* send(DeleteMessageBatchCommand) *)
| EvClearDeleteInterval                            (* clearInterval(this.deleteInterval) *)
| EvStreamError (e : Error).                       (* the stream handed to the caller errors *)

(** ** The delete buffer: [addToDeleteBatch], [flushBatchDelete] (lines 74-110) *)

Record Batcher := {
  deleteBuffer : list Entry;
  sending : list (list Entry)     (* DeleteMessageBatch calls awaited at line 98 *)
}.

Definition empty_batcher : Batcher := {| deleteBuffer := []; sending := [] |}.

(** [flushBatchDelete] up to its [await]: [splice(0, 10)] and the send. *)
Definition flushBatchDelete (b : Batcher) : Batcher * list Event :=
  match deleteBuffer b with
  | [] => (b, [])
  | _ :: _ =>
      let batch := firstn 10 (deleteBuffer b) in
      ({| deleteBuffer := skipn 10 (deleteBuffer b); sending := sending b ++ [batch] |},
       [EvDeleteBatch batch])
  end.

(** [addToDeleteBatch] (lines 74-86). *)
Definition addToDeleteBatch (message : Message) (b : Batcher) : Batcher * list Event :=
  match MessageId message, ReceiptHandle message with
  | Some id, Some rh =>
      if negb (truthy (Some id)) || negb (truthy (Some rh)) then (b, [])
      else
        let b' := {| deleteBuffer := deleteBuffer b ++ [{| Id := id; entry_ReceiptHandle := rh |}];
                     sending := sending b |} in
        if 10 <=? List.length (deleteBuffer b') then flushBatchDelete b' else (b', [])
  | _, _ => (b, [])
  end.

(** Removing the [k]-th element of a list. *)
Fixpoint remove_nth {A : Type} (k : nat) (l : list A) : list A :=
  match l, k with
  | [], _ => []
  | _ :: t, 0 => t
  | h :: t, S j => h :: remove_nth j t
  end.

(** The [k]-th send in flight settles (lines 104-109): when it fails the
    batch is put back with [unshift(...batch)]. *)
Definition batch_settles (k : nat) (ok : bool) (b : Batcher) : option Batcher :=
  match nth_error (sending b) k with
  | Some batch =>
      Some {| deleteBuffer := if ok then deleteBuffer b else batch ++ deleteBuffer b;
              sending := remove_nth k (sending b) |}
  | None => None
  end.

Inductive BatcherInput :=
| Add (m : Message)              (* addToDeleteBatch(m) *)
| Flush                          (* flushBatchDelete() from the interval or the teardown *)
| BatchDone (k : nat) (ok : bool).

Definition step_batcher (b : Batcher) (i : BatcherInput) : option (Batcher * list Event) :=
  match i with
  | Add m => Some (addToDeleteBatch m b)
  | Flush => Some (flushBatchDelete b)
  | BatchDone k ok =>
      match batch_settles k ok b with
      | Some b' => Some (b', [])
      | None => None
      end
  end.

Fixpoint run_batcher (b : Batcher) (log : list Event) (script : list BatcherInput)
  : option (Batcher * list Event) :=
  match script with
  | [] => Some (b, log)
  | i :: rest =>
      match step_batcher b i with
      | Some (b', evs) => run_batcher b' (log ++ evs) rest
      | None => None
      end
  end.

(** ** Retry delay (lines 143-150) *)

(** The [delay] callback of [retry]: [u] is what [Math.random()] returns, a
    number with [0 <= u < 1]; [timer(jitter)] waits [jitter] milliseconds. *)
Definition retry_delay (baseDelay : Z) (retryCount : nat) (u : Q) : Z :=
  let backoff := (baseDelay * 2 ^ Z.of_nat retryCount)%Z in
  let jitter := Qfloor (u * inject_Z backoff) in
  jitter.

(** ** One message: the inner observable of [processMessage] (lines 133-164) *)

(** Where the inner observable stands. *)
Inductive Phase :=
| Pending                 (* the promise handler(message) has not settled *)
| Backoff (e : Error)     (* retry waits for timer(jitter) before it resubscribes *)
| Finalized               (* the finalize callback has run *)
| Threw (e : Error).      (* handler(message) threw at line 141: nothing was subscribed,
                             and the subscribe function did not return *)

Record Proc := {
  msg : Message;
  phase : Phase;
  extender : bool;        (* visibilityExtender is a timer that was not cleared *)
  inflight : nat;         (* ChangeMessageVisibility sends awaited at line 180 *)
  soFar : nat             (* the counter of retry *)
}.

Inductive ProcInput :=
| Tick                            (* the extender's interval fires *)
| ExtendDone (r : option Error)   (* a ChangeMessageVisibility send settles *)
| Resolved                        (* the handler's promise is fulfilled *)
| Rejected (e : Error) (u : Q)    (* it is rejected; u is the next Math.random() *)
| TimerFired (u : Q).             (* timer(jitter) fires; u is the next Math.random() *)

Section Inner.
Variable c : Params.

(** [startVisibilityExtender] (lines 171-194): the timer, or null. *)
Definition startVisibilityExtender (message : Message) (intervalMs : Z) : bool * list Event :=
  if negb (truthy (ReceiptHandle message)) then (false, [])
  else (true, [EvSetInterval message intervalMs]).

(** [stopVisibilityExtender] (lines 196-198). *)
Definition stopVisibilityExtender (message : Message) (timer : bool) : list Event :=
  if timer then [EvClearInterval message] else [].

(** Lines 133-141: the inner observable is subscribed; [handler(message)] is
    called once and [from] wraps the promise it returns.  When the call
    throws, [Observable] catches the exception of its subscribe function and
    sends it to the inner subscriber as an error: [retry] and [finalize] were
    never reached, and the extender that line 135 started is not cleared. *)
Definition subscribe_inner (message : Message) : Proc * list Event :=
  let '(visibilityExtender, evs) := startVisibilityExtender message (visibilityInterval c) in
  match handler_throws c message with
  | None =>
      ({| msg := message; phase := Pending; extender := visibilityExtender;
          inflight := 0; soFar := 0 |},
       evs ++ [EvHandler message])
  | Some e =>
      ({| msg := message; phase := Threw e; extender := visibilityExtender;
          inflight := 0; soFar := 0 |},
       evs ++ [EvHandler message; EvError message e])
  end.

(** The callback of [finalize] (lines 151-157) up to its [await]. *)
Definition finalize_callback (p : Proc) : Proc * list Event :=
  ({| msg := msg p; phase := Finalized; extender := false;
      inflight := inflight p; soFar := soFar p |},
   stopVisibilityExtender (msg p) (extender p) ++ [EvAddToDeleteBatch (msg p)]).

(** [retry({ count: maxRetries, delay })] receives an error of its source:
    rxjs tests [soFar++ < count], then calls [delay(err, soFar)] with the
    incremented counter and resubscribes when the notifier emits; otherwise
    the error goes to the subscriber and the finalizer runs. *)
Definition retry_error (p : Proc) (e : Error) (u : Q) : Proc * list Event :=
  if (Z.of_nat (soFar p) <? maxRetries c)%Z then
    let retryCount := S (soFar p) in
    ({| msg := msg p; phase := Backoff e; extender := extender p;
        inflight := inflight p; soFar := retryCount |},
     [EvRetryTimer (msg p) retryCount (retry_delay (baseDelay c) retryCount u)])
  else
    let '(p', evs) := finalize_callback p in
    (p', EvError (msg p) e :: evs).

Definition step_inner (p : Proc) (i : ProcInput) : option (Proc * list Event) :=
  match i with
  | Tick =>
      if extender p then
        Some ({| msg := msg p; phase := phase p; extender := extender p;
                 inflight := S (inflight p); soFar := soFar p |},
              [EvExtend (msg p) (visibilityTimeout c)])
      else None
  | ExtendDone _ =>
      (* lines 187-189: both outcomes only write to the console *)
      match inflight p with
      | 0 => None
      | S n => Some ({| msg := msg p; phase := phase p; extender := extender p;
                        inflight := n; soFar := soFar p |}, [])
      end
  | Resolved =>
      match phase p with
      | Pending =>
          let '(p', evs) := finalize_callback p in
          Some (p', EvNext (msg p) :: EvComplete (msg p) :: evs)
      | _ => None
      end
  | Rejected e u =>
      match phase p with
      | Pending => Some (retry_error p e u)
      | _ => None
      end
  | TimerFired u =>
      (* resubscribing to from(promise) delivers the same rejection again *)
      match phase p with
      | Backoff e => Some (retry_error p e u)
      | _ => None
      end
  end.

Fixpoint run_inner (p : Proc) (log : list Event) (script : list ProcInput)
  : option (Proc * list Event) :=
  match script with
  | [] => Some (p, log)
  | i :: rest =>
      match step_inner p i with
      | Some (p', evs) => run_inner p' (log ++ evs) rest
      | None => None
      end
  end.

End Inner.

(** ** The pipeline: [listen], [mergeMap], the delete interval *)

Record State := {
  isListening : bool;
  deleteInterval : bool;      (* the interval of line 24 was not cleared *)
  batcher : Batcher;
  polling : bool;             (* poll() is suspended at line 44 *)
  closed : bool;              (* the subscriber of listen() is closed *)
  active : nat;               (* mergeMap: inner observables subscribed and not complete *)
  buffer : list Message;      (* mergeMap: messages waiting for a free slot *)
  procs : list Proc;
  log : list Event
}.

(** After the constructor (lines 12-25). *)
Definition constructed : State :=
  {| isListening := false; deleteInterval := true; batcher := empty_batcher;
     polling := false; closed := false; active := 0; buffer := []; procs := [];
     log := [] |}.

Definition add_log (evs : list Event) (s : State) : State :=
  {| isListening := isListening s; deleteInterval := deleteInterval s;
     batcher := batcher s; polling := polling s; closed := closed s;
     active := active s; buffer := buffer s; procs := procs s; log := log s ++ evs |}.

Definition set_batcher (b : Batcher) (s : State) : State :=
  {| isListening := isListening s; deleteInterval := deleteInterval s;
     batcher := b; polling := polling s; closed := closed s;
     active := active s; buffer := buffer s; procs := procs s; log := log s |}.

Definition set_listening (l p : bool) (s : State) : State :=
  {| isListening := l; deleteInterval := deleteInterval s;
     batcher := batcher s; polling := p; closed := closed s;
     active := active s; buffer := buffer s; procs := procs s; log := log s |}.

Definition set_merge (a : nat) (buf : list Message) (ps : list Proc) (s : State) : State :=
  {| isListening := isListening s; deleteInterval := deleteInterval s;
     batcher := batcher s; polling := polling s; closed := closed s;
     active := a; buffer := buf; procs := ps; log := log s |}.

(** A call into the delete buffer from the pipeline. *)
Definition with_batcher (f : Batcher -> Batcher * list Event) (s : State) : State :=
  let '(b, evs) := f (batcher s) in add_log evs (set_batcher b s).

(** The teardown function [listen] returns (lines 61-67). *)
Definition teardown (s : State) : State :=
  with_batcher flushBatchDelete
    (add_log [EvClearDeleteInterval]
       {| isListening := false; deleteInterval := false;
          batcher := batcher s; polling := polling s; closed := true;
          active := active s; buffer := []; procs := procs s; log := log s |}).

(** The subscriber is unsubscribed: once. *)
Definition close_stream (s : State) : State :=
  if closed s then s else teardown s.

(** [subscriber.error(err)] reaching the caller of [processMessage]. *)
Definition stream_error (e : Error) (s : State) : State :=
  if closed s then s else close_stream (add_log [EvStreamError e] s).

Section Pipeline.
Variable c : Params.

(** mergeMap subscribes the inner observable of a message; an error sent
    during the subscription goes on to the stream. *)
Definition doInnerSub (m : Message) (s : State) : State :=
  let '(p, evs) := subscribe_inner c m in
  let s1 := add_log evs (set_merge (S (active s)) (buffer s) (procs s ++ [p]) s) in
  match phase p with
  | Threw e => stream_error e s1
  | _ => s1
  end.

(** mergeMap receives a message from [listen]. *)
Definition outerNext (m : Message) (s : State) : State :=
  if (Z.of_nat (active s) <? concurrency c)%Z then doInnerSub m s
  else set_merge (active s) (buffer s ++ [m]) (procs s) s.

(** mergeMap starts waiting messages while a slot is free. *)
Fixpoint drain (buf : list Message) (s : State) : State :=
  match buf with
  | [] => set_merge (active s) [] (procs s) s
  | m :: rest =>
      if (Z.of_nat (active s) <? concurrency c)%Z then drain rest (doInnerSub m s)
      else set_merge (active s) buf (procs s) s
  end.

(** An inner observable completed. *)
Definition inner_complete (s : State) : State :=
  if closed s then s
  else drain (buffer s) (set_merge (pred (active s)) (buffer s) (procs s) s).

(** What an event of an inner observable does to the pipeline. *)
Definition perform (s : State) (ev : Event) : State :=
  let s1 := add_log [ev] s in
  match ev with
  | EvComplete _ => inner_complete s1
  | EvError _ e => stream_error e s1
  | EvAddToDeleteBatch m => with_batcher (addToDeleteBatch m) s1
  | _ => s1
  end.

(** [poll] at the test of its [while] (lines 35-44). *)
Definition poll (s : State) : State :=
  if isListening s && negb (closed s) then
    add_log [EvReceive] (set_listening (isListening s) true s)
  else set_listening (isListening s) false s.

(** The subscribe function of [listen] (lines 31-59). *)
Definition listen (s : State) : State :=
  poll (set_listening true (polling s) s).

(** Lines 46-50: every received message is handed on, unless the
    subscriber is closed. *)
Definition emit (s : State) (m : Message) : State :=
  if negb (closed s) then outerNext m (add_log [EvEmit m] s) else s.

Inductive Input :=
| ReceiveDone (r : Error + option (list Message))
| ProcIn (i : nat) (x : ProcInput)
| IntervalFlush                       (* the interval of line 24 fires *)
| BatchSettles (k : nat) (ok : bool)
| Unsubscribe.                        (* the caller unsubscribes *)

Definition step (s : State) (i : Input) : option State :=
  match i with
  | ReceiveDone r =>
      if polling s then
        match r with
        | inr Messages =>
            let messages := match Messages with Some ms => ms | None => [] end in
            Some (poll (fold_left emit messages s))
        | inl err =>
            (* lines 51-55 *)
            Some (set_listening false false (stream_error err s))
        end
      else None
  | ProcIn i x =>
      match nth_error (procs s) i with
      | Some p =>
          match step_inner c p x with
          | Some (p', evs) =>
              Some (fold_left perform evs
                      (set_merge (active s) (buffer s) (upd_nth i p' (procs s)) s))
          | None => None
          end
      | None => None
      end
  | IntervalFlush =>
      if deleteInterval s then Some (with_batcher flushBatchDelete s) else None
  | BatchSettles k ok =>
      match batch_settles k ok (batcher s) with
      | Some b => Some (set_batcher b s)
      | None => None
      end
  | Unsubscribe => Some (close_stream s)
  end.

Fixpoint run (s : State) (script : list Input) : option State :=
  match script with
  | [] => Some s
  | i :: rest =>
      match step s i with
      | Some s' => run s' rest
      | None => None
      end
  end.

End Pipeline.

(** [processMessage] (lines 122-168) returns [listen()] piped into
    [mergeMap]: subscribing to it subscribes [mergeMap] to [listen()]. *)
Definition processMessage (s : State) : State := listen s.

(** Reading the log of one inner observable: [fst] tells whether the
    extender's interval is set and not cleared, [snd] whether every hand-off
    to [addToDeleteBatch] so far happened with the interval cleared. *)
Definition ack_monitor (st : bool * bool) (ev : Event) : bool * bool :=
  match ev with
  | EvSetInterval _ _ => (true, snd st)
  | EvClearInterval _ => (false, snd st)
  | EvAddToDeleteBatch _ => (fst st, snd st && negb (fst st))
  | _ => st
  end.

Definition heartbeat_stopped_before_ack (log : list Event) : bool :=
  snd (fold_left ack_monitor log (false, true)).

Definition is_receive (ev : Event) : bool :=
  match ev with EvReceive => true | _ => false end.

(** Events of the visibility extender. *)
Definition is_heartbeat (ev : Event) : bool :=
  match ev with
  | EvSetInterval _ _ | EvClearInterval _ | EvExtend _ _ => true
  | _ => false
  end.

Definition count (f : Event -> bool) (l : list Event) : nat := List.length (filter f l).

(** The input carries a value [Math.random()] can return. *)
Definition random_in_range (x : ProcInput) : Prop :=
  match x with
  | Rejected _ u | TimerFired u => (0 <= u)%Q /\ (u < 1)%Q
  | _ => True
  end.

(** The handler's promise is rejected with [e] and [retry] resubscribes as
    long as it may: the inputs of the inner observable, one value of
    [Math.random()] for each. *)
Definition rejections (e : Error) (us : list Q) : list ProcInput :=
  match us with
  | [] => []
  | u :: rest => Rejected e u :: map TimerFired rest
  end.


(** The entry [addToDeleteBatch] builds for a message. *)
Definition entry_of (m : Message) : option Entry :=
  match MessageId m, ReceiptHandle m with
  | Some id, Some rh =>
      if truthy (Some id) && truthy (Some rh)
      then Some {| Id := id; entry_ReceiptHandle := rh |} else None
  | _, _ => None
  end.

(** The batches handed to the transport, in order. *)
Definition sent_batches (log : list Event) : list (list Entry) :=
  flat_map (fun ev => match ev with EvDeleteBatch b => [b] | _ => [] end) log.

(** No batch-delete call of the script fails. *)
Definition no_failure (script : list BatcherInput) : bool :=
  forallb (fun i => match i with BatchDone _ false => false | _ => true end) script.

End SQSManager.

Unset Implicit Arguments.

(** * Sample values *)

Definition sample_options : Manager.Options :=
  {| Manager.queueUrl := "https://sqs.eu-west-1.amazonaws.com/123456789012/mi-cola";
     Manager.opt_MaxNumberOfMessages := None;
     Manager.opt_WaitTimeSeconds := None;
     Manager.opt_VisibilityTimeout := None;
     Manager.opt_heartbeatInterval := None;
     Manager.opt_timeoutTemporaryError := None;
     Manager.onErrorReceivingMessage := true;
     Manager.onErrorVisibilityTimeout := true;
     Manager.onErrorProccessMessage := true;
     Manager.onErrorConfiguration := true;
     Manager.onErrorTemporary := true |}.

Definition msg_a : Message :=
  {| MessageId := Some "a"%string; ReceiptHandle := Some "rh-a"%string;
     Body := Some "{}"%string |}.

Definition msg_b : Message :=
  {| MessageId := Some "b"%string; ReceiptHandle := Some "rh-b"%string;
     Body := Some "{}"%string |}.

(** A message without receipt handle. *)
Definition msg_no_handle : Message :=
  {| MessageId := Some "c"%string; ReceiptHandle := None; Body := Some "{}"%string |}.

Definition err_queue_missing : Error :=
  {| Code := Some "AWS.SimpleQueueService.NonExistentQueue"%string; __type := None;
     message := "The specified queue does not exist."%string |}.

Definition err_throttled : Error :=
  {| Code := Some "RequestThrottled"%string; __type := None;
     message := "Rate exceeded"%string |}.

Definition err_handler : Error :=
  {| Code := None; __type := None; message := "Mensaje invalido"%string |}.

(** * Invariants, and the inputs of the examples *)

(** What the log and the state of a lifecycle agree on: a settled lifecycle
    has no interval, and a delete that no clearInterval followed means the
    lifecycle is suspended on that delete. *)
Definition proc_log_agree (p : Manager.Proc) (log : list Manager.Event) : Prop :=
  (Manager.phase p = Manager.Settled -> Manager.armed p = false) /\
  (fold_left Manager.pending_monitor log false = true ->
   Manager.phase p = Manager.Deleting).

(** The log tells whether the extender runs, and no hand-off to the delete
    buffer happened while it did. *)
Definition inner_log_agree (p : SQSManager.Proc) (log : list SQSManager.Event) : Prop :=
  fold_left SQSManager.ack_monitor log (false, true) = (SQSManager.extender p, true).

(** Once settled, a lifecycle sends no delete and reports no processing
    error, whatever the environment delivers next. *)
Definition quiet_settled (p : Manager.Proc) (log : list Manager.Event) : Prop :=
  Manager.phase p = Manager.Settled /\
  Manager.count Manager.is_delete log = 0 /\
  Manager.count Manager.is_onErrorProccessMessage log = 0.

(** With the interval cleared and no extension call in flight, a lifecycle
    sends no further extension and reports no further visibility error. *)
Definition quiet_heartbeat (p : Manager.Proc) (log : list Manager.Event) : Prop :=
  Manager.armed p = false /\ Manager.inflight p = 0 /\
  Manager.count Manager.is_extend log = 0 /\
  Manager.count Manager.is_onErrorVisibilityTimeout log = 0.

(** While the engine is not running and start() is not called, no receive
    call is sent. *)
Definition halted (n : nat) (e : Manager.Engine) : Prop :=
  Manager.running e = false /\ Manager.count Manager.is_receive (Manager.log e) = n.

(** No receive call is in flight, the engine is not running, and the
    configuration callback was called [m] times. *)
Definition quiescent (m : nat) (e : Manager.Engine) : Prop :=
  Manager.running e = false /\
  Forall (fun pc => pc <> Manager.AwaitReceive) (Manager.loops e) /\
  Manager.count Manager.is_onErrorConfiguration (Manager.log e) = m.

(** What one temporary failure appends to the log: the two callbacks, the
    fixed delay, and the next receive call. *)
Definition temporary_failure_events (o : Manager.Options) (err : Error)
  : list Manager.Event :=
  opt_call (Manager.onErrorReceivingMessage o) (Manager.EvOnErrorReceivingMessage err)
  ++ opt_call (Manager.onErrorTemporary o) (Manager.EvOnErrorTemporary err)
  ++ [Manager.EvSleep (Manager.timeoutTemporaryError o); Manager.EvReceive].

(** [s'] polls exactly when [s] does and has sent as many receive calls. *)
Definition same_polling (s s' : SQSManager.State) : Prop :=
  SQSManager.polling s' = SQSManager.polling s /\
  SQSManager.count SQSManager.is_receive (SQSManager.log s')
  = SQSManager.count SQSManager.is_receive (SQSManager.log s).

(** A batch handed to the transport has between 1 and 10 entries. *)
Definition batch_ok (batch : list SQSManager.Entry) : Prop :=
  1 <= List.length batch <= 10.

(** The script of the counterexample: ten messages fill the buffer and the
    batch is sent; the call fails; an eleventh message arrives; the second
    call fails too. *)
Definition eleven_entries : list SQSManager.BatcherInput :=
  repeat (SQSManager.Add msg_a) 10
  ++ [SQSManager.BatchDone 0 false; SQSManager.Add msg_b; SQSManager.BatchDone 0 false].

(** A lifecycle either belongs to a message with a receipt handle, or it
    returned at line 110 and nothing of it is left. *)
Definition proc_ok (p : Manager.Proc) : Prop :=
  truthy (ReceiptHandle (Manager.msg p)) = true \/
  (Manager.phase p = Manager.Settled /\ Manager.armed p = false /\ Manager.inflight p = 0).

(** An event that concerns a message concerns one with a receipt handle. *)
Definition event_ok (ev : Manager.Event) : Prop :=
  forall m, Manager.event_message ev = Some m -> truthy (ReceiptHandle m) = true.

Definition handles_ok (e : Manager.Engine) : Prop :=
  Forall (fun lp => proc_ok (snd lp)) (Manager.procs e) /\ Forall event_ok (Manager.log e).

(** The inner observable of a message without receipt handle has no
    extender, and its handler was called. *)
Definition no_extender (m : Message) (p : SQSManager.Proc) (log : list SQSManager.Event)
  : Prop :=
  SQSManager.extender p = false /\
  SQSManager.count SQSManager.is_heartbeat log = 0 /\
  In (SQSManager.EvHandler m) log.

(** The calls of the failing run: start(), stop(), start() again while the
    first loop still awaits its receive call, stop(); then the receive call of
    the second loop returns [msg_a], whose handler starts, and the receive
    call of the first loop returns nothing. *)
Definition restart_race : list Manager.Input :=
  [Manager.CallStart; Manager.CallStop; Manager.CallStart; Manager.CallStop;
   Manager.ReceiveDone 1 (inr (Some [msg_a]));
   Manager.ReceiveDone 0 (inr None)].

(** With one loop: every lifecycle belongs to it; unless the loop awaits its
    batch, all lifecycles have settled; and once a shutdown promise is
    resolved the loop has returned. *)
Definition single_ok (e : Manager.Engine) : Prop :=
  Forall (fun lp => fst lp = 0) (Manager.procs e) /\
  (nth_error (Manager.loops e) 0 <> Some Manager.AwaitBatch ->
   Forall (fun lp => Manager.is_settled (snd lp) = true) (Manager.procs e)) /\
  (Manager.resolved e <> [] -> Manager.loops e = [Manager.Returned]).

(** The loop of a single-loop engine is suspended in its own stop() on the
    shutdown promise, the engine is not running, and nothing has resolved a
    promise. *)
Definition suspended_in_stop (e : Manager.Engine) : Prop :=
  Manager.loops e = [Manager.AwaitStop (Some 0)] /\
  Manager.resolved e = [] /\ Manager.running e = false.

(** The pipeline on one message whose handler rejects, with the defaults. *)
Definition exhausted_run : list SQSManager.Input :=
  [SQSManager.ReceiveDone (inr (Some [msg_a]));
   SQSManager.ProcIn 0 (SQSManager.Rejected err_handler (1 # 2)%Q);
   SQSManager.ProcIn 0 (SQSManager.TimerFired (1 # 2)%Q);
   SQSManager.ProcIn 0 (SQSManager.TimerFired (1 # 2)%Q);
   SQSManager.ProcIn 0 (SQSManager.TimerFired (1 # 2)%Q);
   SQSManager.ProcIn 0 (SQSManager.TimerFired (1 # 2)%Q);
   SQSManager.ProcIn 0 (SQSManager.TimerFired (1 # 2)%Q)].

(** * Further predicates on logs and scripts *)

Definition is_handler_call (ev : Manager.Event) : bool :=
  match ev with Manager.EvHandler _ => true | _ => false end.

Definition is_setInterval (ev : Manager.Event) : bool :=
  match ev with Manager.EvSetInterval _ _ => true | _ => false end.

(** The script delivers a fulfilled handler promise. *)
Definition handler_resolves (script : list Manager.ProcInput) : bool :=
  existsb (fun i => match i with Manager.HandlerDone None => true | _ => false end) script.

(** What [processMessageWithVisibilityHeartbeat] does for one message before
    it awaits the handler. *)
Definition first_events (o : Manager.Options) (m : Message) : list Manager.Event :=
  if truthy (ReceiptHandle m)
  then [Manager.EvSetInterval m (Manager.heartbeatInterval o * 1000); Manager.EvHandler m]
  else [].

(** How many events of each kind the log of one lifecycle may hold, by the
    phase of the lifecycle. *)
Definition lifecycle_counts (p : Manager.Proc) (log : list Manager.Event) : Prop :=
  Manager.count is_handler_call log = 1 /\
  Manager.count is_setInterval log = 1 /\
  match Manager.phase p with
  | Manager.Handling =>
      Manager.count Manager.is_delete log = 0 /\
      Manager.count Manager.is_onErrorProccessMessage log = 0
  | Manager.Deleting =>
      Manager.count Manager.is_delete log = 1 /\
      Manager.count Manager.is_onErrorProccessMessage log = 0
  | Manager.Settled =>
      Manager.count Manager.is_delete log <= 1 /\
      Manager.count Manager.is_onErrorProccessMessage log <= 1
  end.

(** A started engine that received [msg_a], whose handler has resolved, and
    on which stop() was called while the delete is awaited. *)
Definition draining_engine : Manager.Engine :=
  match Manager.run sample_options Manager.init
          [Manager.CallStart; Manager.ReceiveDone 0 (inr (Some [msg_a])); Manager.CallStop;
           Manager.ProcIn 0 (Manager.HandlerDone None)] with
  | Some e => e
  | None => Manager.init
  end.

(** One cycle of the loop on two messages: the handler of [msg_b] rejects,
    [msg_a] is handled and deleted. *)
Definition two_message_cycle : list Manager.Input :=
  [Manager.CallStart; Manager.ReceiveDone 0 (inr (Some [msg_a; msg_b]));
   Manager.ProcIn 1 (Manager.HandlerDone (Some err_handler));
   Manager.ProcIn 0 (Manager.HandlerDone None);
   Manager.ProcIn 0 (Manager.DeleteDone None)].

(** The entries the delete buffer answers for: those of the batch calls in
    flight and those waiting in [deleteBuffer]. *)
Definition held (b : SQSManager.Batcher) : list SQSManager.Entry :=
  List.concat (SQSManager.sending b) ++ SQSManager.deleteBuffer b.

(** The entries the [addToDeleteBatch] calls of a script push. *)
Definition added (script : list SQSManager.BatcherInput) : list SQSManager.Entry :=
  flat_map (fun i => match i with
                     | SQSManager.Add m =>
                         match SQSManager.entry_of m with Some en => [en] | None => [] end
                     | _ => []
                     end) script.

(** No batch-delete call of the script succeeds. *)
Definition no_success (script : list SQSManager.BatcherInput) : bool :=
  forallb (fun i => match i with SQSManager.BatchDone _ true => false | _ => true end) script.

(** The batch that an input acknowledges: the one of the call in flight
    that it reports as succeeded. *)
Definition acked_by (b : SQSManager.Batcher) (i : SQSManager.BatcherInput)
  : list (list SQSManager.Entry) :=
  match i with
  | SQSManager.BatchDone k true =>
      match nth_error (SQSManager.sending b) k with
      | Some batch => [batch]
      | None => []
      end
  | _ => []
  end.

(** The batches of the calls that succeed while a script runs from [b]. *)
Fixpoint acked_batches (b : SQSManager.Batcher) (script : list SQSManager.BatcherInput)
  : list (list SQSManager.Entry) :=
  match script with
  | [] => []
  | i :: rest =>
      match SQSManager.step_batcher b i with
      | Some (b', _) => acked_by b i ++ acked_batches b' rest
      | None => []
      end
  end.

Definition is_handler_started (ev : SQSManager.Event) : bool :=
  match ev with SQSManager.EvHandler _ => true | _ => false end.

Definition is_retry_timer (ev : SQSManager.Event) : bool :=
  match ev with SQSManager.EvRetryTimer _ _ _ => true | _ => false end.

Definition is_hand_off (ev : SQSManager.Event) : bool :=
  match ev with SQSManager.EvAddToDeleteBatch _ => true | _ => false end.

(** What the log of one inner observable holds, by its state: one handler
    call, as many retry timers as the counter of [retry] tells, and one
    hand-off to the delete buffer exactly when it has finalized. *)
Definition inner_counts (c : SQSManager.Params) (p : SQSManager.Proc)
  (log : list SQSManager.Event) : Prop :=
  SQSManager.count is_handler_started log = 1 /\
  SQSManager.count is_retry_timer log = SQSManager.soFar p /\
  (Z.of_nat (SQSManager.soFar p) <= Z.max 0 (SQSManager.maxRetries c))%Z /\
  SQSManager.count is_hand_off log
  = match SQSManager.phase p with SQSManager.Finalized => 1 | _ => 0 end.

(** Twelve entries waiting in the buffer, as after two failed calls. *)
Definition twelve_waiting : SQSManager.Batcher :=
  {| SQSManager.deleteBuffer :=
       repeat {| SQSManager.Id := "a"%string;
                 SQSManager.entry_ReceiptHandle := "rh-a"%string |} 12;
     SQSManager.sending := [] |}.

(** Events only an open stream produces: receive calls, emissions, the
    subscription of an inner observable, the error of the stream and its
    teardown. *)
Definition is_stream_event (ev : SQSManager.Event) : bool :=
  match ev with
  | SQSManager.EvReceive | SQSManager.EvEmit _ | SQSManager.EvHandler _
  | SQSManager.EvSetInterval _ _ | SQSManager.EvStreamError _
  | SQSManager.EvClearDeleteInterval => true
  | _ => false
  end.

(** [s'] is closed, has logged no event of the stream since [s] and has
    subscribed no inner observable. *)
Definition silent (s s' : SQSManager.State) : Prop :=
  SQSManager.closed s' = true /\
  SQSManager.count is_stream_event (SQSManager.log s')
  = SQSManager.count is_stream_event (SQSManager.log s) /\
  List.length (SQSManager.procs s') = List.length (SQSManager.procs s).

(** The inner observable is subscribed and has not finalized. *)
Definition in_progress (p : SQSManager.Proc) : bool :=
  match SQSManager.phase p with SQSManager.Finalized => false | _ => true end.

(** The counter of [mergeMap] while the stream is open: [active] counts the
    inner observables in progress, never exceeds [concurrency], and a message
    waits in the buffer only when no slot is free. *)
Definition merge_ok (c : SQSManager.Params) (s : SQSManager.State) : Prop :=
  SQSManager.closed s = false ->
  List.length (filter in_progress (SQSManager.procs s)) = SQSManager.active s /\
  (Z.of_nat (SQSManager.active s) <= Z.max 0 (SQSManager.concurrency c))%Z /\
  (SQSManager.buffer s <> [] ->
   (SQSManager.concurrency c <= Z.of_nat (SQSManager.active s))%Z).


(** [processMessage] called with [concurrency = 2]. *)
Definition two_slots : SQSManager.Params :=
  {| SQSManager.handler_throws := fun _ => None;
     SQSManager.concurrency := 2; SQSManager.maxRetries := 5;
     SQSManager.baseDelay := 1000; SQSManager.visibilityTimeout := 30;
     SQSManager.visibilityInterval := 15000 |}.

(** Three messages arrive; the handler of the first resolves. *)
Definition three_received : list SQSManager.Input :=
  [SQSManager.ReceiveDone (inr (Some [msg_a; msg_b; msg_no_handle]));
   SQSManager.ProcIn 0 SQSManager.Resolved].

(** The stream after [msg_a] was received and the caller unsubscribed while
    its handler runs and the next receive call is in flight. *)
Definition unsubscribed_early : SQSManager.State :=
  match SQSManager.run SQSManager.default_params
          (SQSManager.processMessage SQSManager.constructed)
          [SQSManager.ReceiveDone (inr (Some [msg_a])); SQSManager.Unsubscribe] with
  | Some s => s
  | None => SQSManager.constructed
  end.

(** A closed stream has cleared the interval of the constructor. *)
Definition interval_cleared (s : SQSManager.State) : Prop :=
  SQSManager.closed s = true -> SQSManager.deleteInterval s = false.

Definition is_delete_batch (ev : SQSManager.Event) : bool :=
  match ev with SQSManager.EvDeleteBatch _ => true | _ => false end.

(** [msg_a] is received and the caller unsubscribes while its handler runs. *)
Definition unsubscribe_while_handling : list SQSManager.Input :=
  [SQSManager.ReceiveDone (inr (Some [msg_a])); SQSManager.Unsubscribe].

(** The milliseconds the retry timers of a log wait in total. *)
Definition waited (log : list SQSManager.Event) : Z :=
  fold_right (fun ev acc => match ev with
                            | SQSManager.EvRetryTimer _ _ jitter => (jitter + acc)%Z
                            | _ => acc
                            end) 0%Z log.

(** What [total_backoff] bounds, by the state of the inner observable. *)
Definition backoff_bounded (c : SQSManager.Params) (p : SQSManager.Proc)
  (log : list SQSManager.Event) : Prop :=
  (0 <= waited log <= SQSManager.baseDelay c * (2 ^ (Z.of_nat (SQSManager.soFar p) + 1) - 2))%Z
  /\ (Z.of_nat (SQSManager.soFar p) <= Z.max 0 (SQSManager.maxRetries c))%Z.




(** An extension call of the script fails. *)
Definition extension_fails (script : list Manager.ProcInput) : bool :=
  existsb (fun i => match i with Manager.ExtendDone (Some _) => true | _ => false end) script.

(** [processMessage] with the defaults and a handler that throws when it is
    called with message [b]. *)
Definition throwing_params : SQSManager.Params :=
  {| SQSManager.handler_throws :=
       fun m => match MessageId m with
                | Some id => if String.eqb id "b" then Some err_handler else None
                | None => None
                end;
     SQSManager.concurrency := 10; SQSManager.maxRetries := 5;
     SQSManager.baseDelay := 1000; SQSManager.visibilityTimeout := 30;
     SQSManager.visibilityInterval := 15000 |}.

(** * Properties of one [Manager] lifecycle *)

(** The phase [Settled] is final: no outcome of the handler or of the delete
    call is awaited any more. *)
Lemma settled_is_final :
  forall o p r,
    Manager.phase p = Manager.Settled ->
    Manager.step_proc o p (Manager.HandlerDone r) = None /\
    Manager.step_proc o p (Manager.DeleteDone r) = None.
Proof. intros o p r H. unfold Manager.step_proc. rewrite H. split; reflexivity. Qed.

Section ProcInvariant.
Variable o : Manager.Options.
Variable I : Manager.Proc -> list Manager.Event -> Prop.
Hypothesis I_step :
  forall p log i p' evs,
    I p log -> Manager.step_proc o p i = Some (p', evs) -> I p' (log ++ evs).

(** An invariant of the steps holds at the end of every script. *)
Lemma run_proc_invariant :
  forall script p log p' log',
    I p log -> Manager.run_proc o p log script = Some (p', log') -> I p' log'.
Proof.
  induction script as [|i rest IH]; simpl; intros p log p' log' HI Hrun.
  - inversion Hrun; subst; exact HI.
  - destruct (Manager.step_proc o p i) as [[p1 evs]|] eqn:Hs; [|discriminate].
    eapply IH; [|exact Hrun]. eapply I_step; eauto.
Qed.
End ProcInvariant.

(** Case analysis of one step of a lifecycle. *)
Ltac proc_step H :=
  unfold Manager.step_proc, Manager.extendVisibility, Manager.extendVisibility_catch,
    Manager.catch_block, Manager.finally_block, Manager.deleteMessage,
    Manager.heartbeatTimer, opt_call in H;
  repeat match type of H with
         | context [match ?x with _ => _ end] => destruct x eqn:?; simpl in H
         end;
  try discriminate; inversion H; subst; clear H; simpl in *.

Lemma proc_log_agree_step :
  forall o p log i p' evs,
    proc_log_agree p log -> Manager.step_proc o p i = Some (p', evs) ->
    proc_log_agree p' (log ++ evs).
Proof.
  intros o p log i p' evs [Ha Hb] Hs. unfold proc_log_agree.
  rewrite fold_left_app.
  destruct (fold_left Manager.pending_monitor log false) eqn:Hpend;
    [specialize (Hb eq_refl)|clear Hb];
    proc_step Hs; repeat rewrite app_nil_r; simpl; split; intros;
    try congruence; try (apply Ha; congruence); intuition congruence.
Qed.

Lemma proc_log_agree_dispatch :
  forall o m,
    proc_log_agree (fst (Manager.processMessageWithVisibilityHeartbeat o m))
                   (snd (Manager.processMessageWithVisibilityHeartbeat o m)).
Proof.
  intros o m. unfold Manager.processMessageWithVisibilityHeartbeat, proc_log_agree.
  destruct (negb (truthy (ReceiptHandle m))); simpl; split; intros; congruence.
Qed.

(** Strategy A, every script: when the lifecycle has settled the heartbeat
    interval is cleared, and every delete that was sent is followed by a
    clearInterval. *)
Lemma manager_heartbeat_cleared_when_settled :
  forall o m script p log,
    Manager.lifecycle o m script = Some (p, log) ->
    Manager.phase p = Manager.Settled ->
    Manager.armed p = false /\ Manager.heartbeat_cleared_after_ack log = true.
Proof.
  intros o m script p log Hrun Hset. unfold Manager.lifecycle in Hrun.
  pose proof (proc_log_agree_dispatch o m) as H0.
  destruct (Manager.processMessageWithVisibilityHeartbeat o m) as [p0 evs0]; simpl in H0.
  assert (HI : proc_log_agree p log).
  { eapply run_proc_invariant with (I := proc_log_agree); eauto.
    intros; eapply proc_log_agree_step; eauto. }
  destruct HI as [Ha Hb]. split; [auto|].
  unfold Manager.heartbeat_cleared_after_ack.
  destruct (fold_left Manager.pending_monitor log false); [|reflexivity].
  specialize (Hb eq_refl). congruence.
Qed.

(** The message of a lifecycle never changes. *)
Lemma step_proc_msg :
  forall o p i p' evs,
    Manager.step_proc o p i = Some (p', evs) -> Manager.msg p' = Manager.msg p.
Proof. intros o p i p' evs H. proc_step H; reflexivity. Qed.

Lemma run_proc_msg :
  forall o script p log p' log',
    Manager.run_proc o p log script = Some (p', log') -> Manager.msg p' = Manager.msg p.
Proof.
  intros o script p log p' log' H.
  eapply run_proc_invariant with (I := fun q _ => Manager.msg q = Manager.msg p) in H; eauto.
  intros q l i q' evs Hq Hs. simpl. rewrite (step_proc_msg _ _ _ _ _ Hs). exact Hq.
Qed.

Lemma run_proc_app :
  forall o s1 s2 p log,
    Manager.run_proc o p log (s1 ++ s2)
    = match Manager.run_proc o p log s1 with
      | Some (p1, log1) => Manager.run_proc o p1 log1 s2
      | None => None
      end.
Proof.
  intros o s1 s2. induction s1 as [|i rest IH]; intros p log; simpl; [reflexivity|].
  destruct (Manager.step_proc o p i) as [[p1 evs]|]; [apply IH|reflexivity].
Qed.

(** A lifecycle that was dispatched belongs to its message. *)
Lemma lifecycle_msg :
  forall o m script p log,
    Manager.lifecycle o m script = Some (p, log) -> Manager.msg p = m.
Proof.
  intros o m script p log H. unfold Manager.lifecycle in H.
  destruct (Manager.processMessageWithVisibilityHeartbeat o m) as [p0 evs0] eqn:Hd.
  apply run_proc_msg in H. rewrite H.
  unfold Manager.processMessageWithVisibilityHeartbeat in Hd.
  destruct (negb (truthy (ReceiptHandle m))); inversion Hd; reflexivity.
Qed.

(** The last input of a script, taken apart from the rest. *)
Lemma lifecycle_last :
  forall o m script i p log,
    Manager.lifecycle o m (script ++ [i]) = Some (p, log) ->
    exists p0 log0 evs,
      Manager.lifecycle o m script = Some (p0, log0) /\
      Manager.msg p0 = m /\
      Manager.step_proc o p0 i = Some (p, evs) /\ log = log0 ++ evs.
Proof.
  intros o m script i p log H.
  pose proof (lifecycle_msg o m script) as Hm.
  unfold Manager.lifecycle in *.
  destruct (Manager.processMessageWithVisibilityHeartbeat o m) as [p00 evs0].
  rewrite run_proc_app in H.
  destruct (Manager.run_proc o p00 evs0 script) as [[p0 log0]|]; [|discriminate].
  simpl in H. destruct (Manager.step_proc o p0 i) as [[p1 evs]|] eqn:Hs; [|discriminate].
  inversion H; subst. exists p0, log0, evs.
  split; [reflexivity|]. split; [eapply Hm; reflexivity|]. split; [exact Hs|reflexivity].
Qed.

(** Until the lifecycle settles, only a failed extension call clears the
    interval. *)
Lemma armed_while_no_extension_fails :
  forall o script p log p' log',
    Manager.run_proc o p log script = Some (p', log') ->
    (Manager.phase p <> Manager.Settled -> Manager.armed p = true) ->
    extension_fails script = false ->
    Manager.phase p' <> Manager.Settled -> Manager.armed p' = true.
Proof.
  intros o script. induction script as [|i rest IH]; simpl; intros p log p' log' Hrun Hp Hf.
  - inversion Hrun; subst. exact Hp.
  - destruct (Manager.step_proc o p i) as [[p1 evs]|] eqn:Hs; [|discriminate].
    apply orb_false_iff in Hf. destruct Hf as [Hi Hf].
    eapply IH; [exact Hrun| |exact Hf].
    clear - Hs Hp Hi. proc_step Hs; intros; try congruence; try discriminate;
      apply Hp; congruence.
Qed.

(** Strategy A: the step in which the handler resolves sends the delete and
    nothing else, and leaves the interval as it was: set, unless an extension
    call has failed. *)
Lemma manager_delete_sent_with_heartbeat_set :
  forall o m script p log,
    Manager.lifecycle o m (script ++ [Manager.HandlerDone None]) = Some (p, log) ->
    Manager.phase p = Manager.Deleting /\
    (extension_fails script = false -> Manager.armed p = true) /\
    exists p0 log0,
      Manager.lifecycle o m script = Some (p0, log0) /\
      Manager.armed p = Manager.armed p0 /\
      log = log0 ++ [Manager.EvDelete m].
Proof.
  intros o m script p log H.
  destruct (lifecycle_last o m script _ p log H) as (p0 & log0 & evs & H0 & Hm & Hs & Hlog).
  assert (Hstep : Manager.phase p = Manager.Deleting /\ Manager.armed p = Manager.armed p0 /\
                  evs = [Manager.EvDelete m] /\ Manager.phase p0 = Manager.Handling).
  { clear - Hs Hm. proc_step Hs. auto. }
  destruct Hstep as (A & B & C & D). subst evs.
  split; [exact A|]. split; [|exists p0, log0; auto].
  intros Hf. rewrite B. unfold Manager.lifecycle in H0.
  destruct (Manager.processMessageWithVisibilityHeartbeat o m) as [p00 evs0] eqn:Hd.
  eapply armed_while_no_extension_fails; [exact H0| |exact Hf|congruence].
  unfold Manager.processMessageWithVisibilityHeartbeat in Hd.
  destruct (negb (truthy (ReceiptHandle m))); inversion Hd; subst; simpl; congruence.
Qed.

(** Strategy A: a handler that fails is reported and the [finally] block
    clears the interval; no delete is sent. *)
Lemma manager_handler_failure_clears_heartbeat :
  forall o m script e p log,
    Manager.lifecycle o m (script ++ [Manager.HandlerDone (Some e)]) = Some (p, log) ->
    Manager.phase p = Manager.Settled /\ Manager.armed p = false /\
    exists p0 log0,
      Manager.lifecycle o m script = Some (p0, log0) /\
      log = log0 ++ opt_call (Manager.onErrorProccessMessage o)
                      (Manager.EvOnErrorProccessMessage m e)
                 ++ [Manager.EvClearInterval m].
Proof.
  intros o m script e p log H.
  destruct (lifecycle_last o m script _ p log H) as (p0 & log0 & evs & H0 & Hm & Hs & Hlog).
  assert (Hstep : Manager.phase p = Manager.Settled /\ Manager.armed p = false /\
                  evs = opt_call (Manager.onErrorProccessMessage o)
                          (Manager.EvOnErrorProccessMessage m e)
                        ++ [Manager.EvClearInterval m]).
  { clear - Hs Hm. unfold opt_call. proc_step Hs; auto. }
  destruct Hstep as (A & B & C). subst evs. repeat split; auto. exists p0, log0. auto.
Qed.

(** Strategy A: when the delete call settles, the [finally] block clears
    the interval (after the error callback, when the delete failed). *)
Lemma manager_heartbeat_cleared_after_delete :
  forall o m script r p log,
    Manager.lifecycle o m (script ++ [Manager.DeleteDone r]) = Some (p, log) ->
    Manager.phase p = Manager.Settled /\ Manager.armed p = false /\
    exists p0 log0,
      Manager.lifecycle o m script = Some (p0, log0) /\
      Manager.phase p0 = Manager.Deleting /\
      log = log0 ++ match r with
                    | Some e => opt_call (Manager.onErrorProccessMessage o)
                                  (Manager.EvOnErrorProccessMessage m e)
                    | None => []
                    end
                 ++ [Manager.EvClearInterval m].
Proof.
  intros o m script r p log H.
  destruct (lifecycle_last o m script _ p log H) as (p0 & log0 & evs & H0 & Hm & Hs & Hlog).
  assert (Hstep : Manager.phase p = Manager.Settled /\ Manager.armed p = false /\
                  Manager.phase p0 = Manager.Deleting /\
                  evs = match r with
                        | Some e => opt_call (Manager.onErrorProccessMessage o)
                                      (Manager.EvOnErrorProccessMessage m e)
                        | None => []
                        end ++ [Manager.EvClearInterval m]).
  { clear - Hs Hm. unfold opt_call. proc_step Hs; auto. }
  destruct Hstep as (A & B & C & D). subst evs. repeat split; auto. exists p0, log0. auto.
Qed.

(** * Properties of one inner observable of [SQSManager] *)

Section InnerInvariant.
Variable c : SQSManager.Params.
Variable I : SQSManager.Proc -> list SQSManager.Event -> Prop.
Hypothesis I_step :
  forall p log i p' evs,
    I p log -> SQSManager.step_inner c p i = Some (p', evs) -> I p' (log ++ evs).

Lemma run_inner_invariant :
  forall script p log p' log',
    I p log -> SQSManager.run_inner c p log script = Some (p', log') -> I p' log'.
Proof.
  induction script as [|i rest IH]; simpl; intros p log p' log' HI Hrun.
  - inversion Hrun; subst; exact HI.
  - destruct (SQSManager.step_inner c p i) as [[p1 evs]|] eqn:Hs; [|discriminate].
    eapply IH; [|exact Hrun]. eapply I_step; eauto.
Qed.
End InnerInvariant.

Ltac inner_step H :=
  unfold SQSManager.step_inner, SQSManager.retry_error, SQSManager.finalize_callback,
    SQSManager.stopVisibilityExtender in H;
  repeat match type of H with
         | context [match ?x with _ => _ end] => destruct x eqn:?; simpl in H
         end;
  try discriminate; inversion H; subst; clear H; simpl in *.

Lemma inner_log_agree_step :
  forall c p log i p' evs,
    inner_log_agree p log -> SQSManager.step_inner c p i = Some (p', evs) ->
    inner_log_agree p' (log ++ evs).
Proof.
  intros c p log i p' evs HI Hs. unfold inner_log_agree in *.
  rewrite fold_left_app, HI.
  inner_step Hs; try reflexivity; try congruence.
Qed.

Lemma inner_log_agree_subscribe :
  forall c m,
    inner_log_agree (fst (SQSManager.subscribe_inner c m))
                    (snd (SQSManager.subscribe_inner c m)).
Proof.
  intros c m. unfold SQSManager.subscribe_inner, SQSManager.startVisibilityExtender,
    inner_log_agree.
  destruct (negb (truthy (ReceiptHandle m))), (SQSManager.handler_throws c m); reflexivity.
Qed.

(** Strategy B, every script: each hand-off to [addToDeleteBatch] happens
    with the extender's interval cleared. *)
Lemma sqsmanager_heartbeat_stopped_before_ack :
  forall c m script p log,
    SQSManager.run_inner c (fst (SQSManager.subscribe_inner c m))
      (snd (SQSManager.subscribe_inner c m)) script = Some (p, log) ->
    SQSManager.heartbeat_stopped_before_ack log = true.
Proof.
  intros c m script p log Hrun.
  assert (HI : inner_log_agree p log).
  { eapply run_inner_invariant with (I := inner_log_agree); eauto.
    - intros; eapply inner_log_agree_step; eauto.
    - apply inner_log_agree_subscribe. }
  unfold SQSManager.heartbeat_stopped_before_ack. rewrite HI. reflexivity.
Qed.

(** * C1: heartbeat stopped before the ack *)

(** C1, as stated, fails in Strategy A: when the handler of [msg_a]
    resolves, [Manager] sends the delete (line 138) while the heartbeat
    interval is still set; [clearInterval] runs in the [finally] block. *)
Lemma C1_counterexample :
  ~ (forall o m script p log,
        Manager.lifecycle o m script = Some (p, log) ->
        Manager.heartbeat_stopped_before_ack log = true).
Proof.
  intros H.
  specialize (H sample_options msg_a
                [Manager.HandlerDone None; Manager.DeleteDone None] _ _ eq_refl).
  vm_compute in H. discriminate.
Qed.

(** C1 amended.  Strategy B: on every path of an inner observable the
    extender's interval is cleared before the message is handed to
    [addToDeleteBatch].  Strategy A: the heartbeat is not stopped before the
    delete.  The step in which the handler resolves sends the delete and
    nothing else and leaves the interval as it was, which is set unless an
    extension call has failed.  The interval is cleared by the [finally]
    block: when the handler fails, in which case no delete is sent, and when
    the delete call settles.  When the lifecycle has settled the interval is
    cleared and every delete that was sent is followed by a clearInterval. *)
Theorem C1_heartbeat_stop_and_ack_order :
  (forall c m script p log,
      SQSManager.run_inner c (fst (SQSManager.subscribe_inner c m))
        (snd (SQSManager.subscribe_inner c m)) script = Some (p, log) ->
      SQSManager.heartbeat_stopped_before_ack log = true) /\
  (forall o m script p log,
      Manager.lifecycle o m (script ++ [Manager.HandlerDone None]) = Some (p, log) ->
      Manager.phase p = Manager.Deleting /\
      (extension_fails script = false -> Manager.armed p = true) /\
      exists p0 log0,
        Manager.lifecycle o m script = Some (p0, log0) /\
        Manager.armed p = Manager.armed p0 /\
        log = log0 ++ [Manager.EvDelete m]) /\
  (forall o m script e p log,
      Manager.lifecycle o m (script ++ [Manager.HandlerDone (Some e)]) = Some (p, log) ->
      Manager.phase p = Manager.Settled /\ Manager.armed p = false /\
      exists p0 log0,
        Manager.lifecycle o m script = Some (p0, log0) /\
        log = log0 ++ opt_call (Manager.onErrorProccessMessage o)
                        (Manager.EvOnErrorProccessMessage m e)
                   ++ [Manager.EvClearInterval m]) /\
  (forall o m script r p log,
      Manager.lifecycle o m (script ++ [Manager.DeleteDone r]) = Some (p, log) ->
      Manager.phase p = Manager.Settled /\ Manager.armed p = false /\
      exists p0 log0,
        Manager.lifecycle o m script = Some (p0, log0) /\
        Manager.phase p0 = Manager.Deleting /\
        log = log0 ++ match r with
                      | Some e => opt_call (Manager.onErrorProccessMessage o)
                                    (Manager.EvOnErrorProccessMessage m e)
                      | None => []
                      end
                   ++ [Manager.EvClearInterval m]) /\
  (forall o m script p log,
      Manager.lifecycle o m script = Some (p, log) ->
      Manager.phase p = Manager.Settled ->
      Manager.armed p = false /\ Manager.heartbeat_cleared_after_ack log = true).
Proof.
  split; [|split; [|split; [|split]]].
  - apply sqsmanager_heartbeat_stopped_before_ack.
  - apply manager_delete_sent_with_heartbeat_set.
  - apply manager_handler_failure_clears_heartbeat.
  - apply manager_heartbeat_cleared_after_delete.
  - apply manager_heartbeat_cleared_when_settled.
Qed.

(** C1 amended at [msg_a].  Strategy B: the handler resolves after one
    heartbeat.  Strategy A: the handler resolves after one heartbeat and the
    delete is sent with the interval set; then the delete succeeds. *)
Lemma C1_witness :
  (exists p log,
      SQSManager.run_inner SQSManager.default_params
        (fst (SQSManager.subscribe_inner SQSManager.default_params msg_a))
        (snd (SQSManager.subscribe_inner SQSManager.default_params msg_a))
        [SQSManager.Tick; SQSManager.ExtendDone None; SQSManager.Resolved] = Some (p, log)
      /\ log = [SQSManager.EvSetInterval msg_a 15000; SQSManager.EvHandler msg_a;
                SQSManager.EvExtend msg_a 30; SQSManager.EvNext msg_a;
                SQSManager.EvComplete msg_a; SQSManager.EvClearInterval msg_a;
                SQSManager.EvAddToDeleteBatch msg_a]
      /\ SQSManager.heartbeat_stopped_before_ack log = true) /\
  (exists p log,
      Manager.lifecycle sample_options msg_a
        ([Manager.Tick; Manager.ExtendDone None] ++ [Manager.HandlerDone None])
      = Some (p, log)
      /\ log = [Manager.EvSetInterval msg_a 15000; Manager.EvHandler msg_a;
                Manager.EvExtend msg_a 30; Manager.EvDelete msg_a]
      /\ Manager.armed p = true) /\
  (exists p log,
      Manager.lifecycle sample_options msg_a
        [Manager.HandlerDone None; Manager.DeleteDone None] = Some (p, log)
      /\ log = [Manager.EvSetInterval msg_a 15000; Manager.EvHandler msg_a;
                Manager.EvDelete msg_a; Manager.EvClearInterval msg_a]
      /\ Manager.armed p = false
      /\ Manager.heartbeat_cleared_after_ack log = true).
Proof.
  split; [|split].
  - eexists; eexists. split; [reflexivity|]. split; [reflexivity|].
    eapply (proj1 C1_heartbeat_stop_and_ack_order SQSManager.default_params msg_a
              [SQSManager.Tick; SQSManager.ExtendDone None; SQSManager.Resolved]).
    reflexivity.
  - eexists; eexists. split; [reflexivity|]. split; [reflexivity|].
    eapply (proj1 (proj2 C1_heartbeat_stop_and_ack_order) sample_options msg_a
              [Manager.Tick; Manager.ExtendDone None]);
      reflexivity.
  - eexists; eexists. split; [reflexivity|]. split; [reflexivity|].
    eapply (proj2 (proj2 (proj2 (proj2 C1_heartbeat_stop_and_ack_order))) sample_options
              msg_a [Manager.HandlerDone None; Manager.DeleteDone None]);
      reflexivity.
Defined.

(** * Strategy A after an input: what cannot happen any more *)

Lemma manager_count_app :
  forall f l1 l2,
    Manager.count f (l1 ++ l2) = Manager.count f l1 + Manager.count f l2.
Proof.
  intros. unfold Manager.count. rewrite filter_app, length_app. reflexivity.
Qed.

Lemma quiet_settled_step :
  forall o p log i p' evs,
    quiet_settled p log -> Manager.step_proc o p i = Some (p', evs) ->
    quiet_settled p' (log ++ evs).
Proof.
  intros o p log i p' evs (Hs & Hd & Hc) Hstep. unfold quiet_settled.
  rewrite !manager_count_app, Hd, Hc.
  proc_step Hstep; try congruence; repeat split; auto.
Qed.

Lemma quiet_heartbeat_step :
  forall o p log i p' evs,
    quiet_heartbeat p log -> Manager.step_proc o p i = Some (p', evs) ->
    quiet_heartbeat p' (log ++ evs).
Proof.
  intros o p log i p' evs (Ha & Hi & He & Hv) Hstep. unfold quiet_heartbeat.
  rewrite !manager_count_app, He, Hv.
  proc_step Hstep; try congruence; repeat split; auto.
Qed.

(** * C10: a failed delete goes to the processing-error callback *)

(** C10.  Strategy A: when the handler resolves the delete is sent; when
    that delete fails, the catch block calls [onErrorProccessMessage] with the
    message and the delete's error, exactly as it does for an error of the
    handler, the lifecycle settles, and no second delete is ever sent. *)
Theorem C10_delete_failure_reported :
  forall o p e p1 evs,
    Manager.phase p = Manager.Deleting ->
    Manager.step_proc o p (Manager.DeleteDone (Some e)) = Some (p1, evs) ->
    evs = opt_call (Manager.onErrorProccessMessage o)
            (Manager.EvOnErrorProccessMessage (Manager.msg p) e)
          ++ [Manager.EvClearInterval (Manager.msg p)]
    /\ Manager.phase p1 = Manager.Settled
    /\ (forall p0, Manager.phase p0 = Manager.Handling ->
          Manager.msg p0 = Manager.msg p ->
          (exists q, Manager.step_proc o p0 (Manager.HandlerDone None)
                     = Some (q, [Manager.EvDelete (Manager.msg p)])
                     /\ Manager.phase q = Manager.Deleting) /\
          (exists q, Manager.step_proc o p0 (Manager.HandlerDone (Some e)) = Some (q, evs)))
    /\ (forall script p2 log2,
          Manager.run_proc o p1 [] script = Some (p2, log2) ->
          Manager.count Manager.is_delete log2 = 0 /\
          Manager.count Manager.is_onErrorProccessMessage log2 = 0).
Proof.
  intros o p e p1 evs Hph Hstep.
  unfold Manager.step_proc in Hstep. rewrite Hph in Hstep.
  unfold Manager.catch_block, Manager.finally_block, Manager.heartbeatTimer in Hstep.
  rewrite Hph in Hstep. inversion Hstep; subst; clear Hstep. simpl.
  split; [reflexivity|]. split; [reflexivity|]. split.
  - intros p0 Hp0 Hm. unfold Manager.step_proc. rewrite Hp0. split.
    + unfold Manager.deleteMessage. eexists; split; [rewrite Hm; reflexivity|reflexivity].
    + unfold Manager.catch_block, Manager.finally_block, Manager.heartbeatTimer.
      rewrite Hp0, Hm. eexists; reflexivity.
  - intros script p2 log2 Hrun.
    eapply run_proc_invariant with (I := quiet_settled) in Hrun.
    + destruct Hrun as (_ & Hd & Hc); auto.
    + intros; eapply quiet_settled_step; eauto.
    + repeat split.
Qed.

(** C10 at [msg_a]: the handler resolves, the delete fails with
    [err_throttled]. *)
Lemma C10_witness :
  exists p1 evs,
    Manager.step_proc sample_options
      {| Manager.msg := msg_a; Manager.phase := Manager.Deleting;
         Manager.armed := true; Manager.inflight := 0 |}
      (Manager.DeleteDone (Some err_throttled)) = Some (p1, evs)
    /\ evs = [Manager.EvOnErrorProccessMessage msg_a err_throttled;
              Manager.EvClearInterval msg_a]
    /\ Manager.phase p1 = Manager.Settled.
Proof.
  eexists; eexists. split; [reflexivity|].
  pose proof (@C10_delete_failure_reported sample_options
                {| Manager.msg := msg_a; Manager.phase := Manager.Deleting;
                   Manager.armed := true; Manager.inflight := 0 |}
                err_throttled _ _ eq_refl eq_refl) as H.
  destruct H as (H1 & H2 & _). split; [exact H1|exact H2].
Defined.

(** * C5: a failed lease extension *)

(** C5, as stated, fails in Strategy B: the extender of [SQSManager] only
    writes the failure to the console (line 189).  Its interval stays set, so
    the next tick sends the extension again, and the class has no
    visibility-error callback to call. *)
Lemma C5_counterexample :
  ~ (forall c p err p1 evs,
        SQSManager.step_inner c p (SQSManager.ExtendDone (Some err)) = Some (p1, evs) ->
        SQSManager.extender p1 = false).
Proof.
  intros H.
  specialize (H SQSManager.default_params
                {| SQSManager.msg := msg_a; SQSManager.phase := SQSManager.Pending;
                   SQSManager.extender := true; SQSManager.inflight := 1;
                   SQSManager.soFar := 0 |}
                err_throttled _ _ eq_refl).
  discriminate H.
Qed.

(** The same on a whole run: after the failed extension the next tick sends
    a second one. *)
Example sqsmanager_extension_sent_again :
  exists p log,
    SQSManager.run_inner SQSManager.default_params
      (fst (SQSManager.subscribe_inner SQSManager.default_params msg_a))
      (snd (SQSManager.subscribe_inner SQSManager.default_params msg_a))
      [SQSManager.Tick; SQSManager.ExtendDone (Some err_throttled); SQSManager.Tick]
    = Some (p, log)
    /\ log = [SQSManager.EvSetInterval msg_a 15000; SQSManager.EvHandler msg_a;
              SQSManager.EvExtend msg_a 30; SQSManager.EvExtend msg_a 30]
    /\ SQSManager.extender p = true.
Proof. eexists; eexists; repeat split; reflexivity. Qed.

(** C5 amended.  Strategy A, an extension call fails while the handler
    runs: the interval is cleared and [onErrorVisibilityTimeout] is called
    once for that failed call; no tick can follow; the handler's outcome is
    still awaited and, when it resolves, the delete is sent; and when no
    other extension call is in flight, no further extension is sent and the
    callback is not called again.  Strategy B: a settled extension call,
    failed or not, changes neither the interval nor the inner observable, and
    emits nothing. *)
Theorem C5_extension_failure :
  (forall o p err p1 evs,
      Manager.phase p = Manager.Handling ->
      Manager.step_proc o p (Manager.ExtendDone (Some err)) = Some (p1, evs) ->
      evs = Manager.EvClearInterval (Manager.msg p)
            :: opt_call (Manager.onErrorVisibilityTimeout o)
                 (Manager.EvOnErrorVisibilityTimeout (Manager.msg p) err)
      /\ Manager.armed p1 = false
      /\ Manager.phase p1 = Manager.Handling
      /\ Manager.step_proc o p1 Manager.Tick = None
      /\ (exists q, Manager.step_proc o p1 (Manager.HandlerDone None)
                    = Some (q, [Manager.EvDelete (Manager.msg p)]))
      /\ (Manager.inflight p1 = 0 ->
          forall script p2 log2,
            Manager.run_proc o p1 [] script = Some (p2, log2) ->
            Manager.count Manager.is_extend log2 = 0 /\
            Manager.count Manager.is_onErrorVisibilityTimeout log2 = 0)) /\
  (forall c p r p1 evs,
      SQSManager.step_inner c p (SQSManager.ExtendDone r) = Some (p1, evs) ->
      evs = [] /\ SQSManager.extender p1 = SQSManager.extender p
      /\ SQSManager.phase p1 = SQSManager.phase p).
Proof.
  split.
  - intros o p err p1 evs Hph Hstep.
    unfold Manager.step_proc in Hstep.
    destruct (Manager.inflight p) as [|n] eqn:Hin; [discriminate|].
    unfold Manager.extendVisibility_catch, Manager.heartbeatTimer in Hstep.
    simpl in Hstep. rewrite Hph in Hstep. inversion Hstep; subst; clear Hstep. simpl.
    repeat split.
    + eexists; reflexivity.
    + eapply run_proc_invariant with (I := quiet_heartbeat) in H0.
      * destruct H0 as (_ & _ & He & _); exact He.
      * intros; eapply quiet_heartbeat_step; eauto.
      * repeat split; auto.
    + eapply run_proc_invariant with (I := quiet_heartbeat) in H0.
      * destruct H0 as (_ & _ & _ & Hv); exact Hv.
      * intros; eapply quiet_heartbeat_step; eauto.
      * repeat split; auto.
  - intros c p r p1 evs Hstep. inner_step Hstep. repeat split.
Qed.

(** C5 at [msg_a] in Strategy A: one extension call in flight fails with
    [err_throttled] while the handler runs. *)
Lemma C5_witness :
  exists p1 evs,
    Manager.step_proc sample_options
      {| Manager.msg := msg_a; Manager.phase := Manager.Handling;
         Manager.armed := true; Manager.inflight := 1 |}
      (Manager.ExtendDone (Some err_throttled)) = Some (p1, evs)
    /\ evs = [Manager.EvClearInterval msg_a;
              Manager.EvOnErrorVisibilityTimeout msg_a err_throttled]
    /\ Manager.armed p1 = false
    /\ Manager.phase p1 = Manager.Handling.
Proof.
  eexists; eexists. split; [reflexivity|].
  pose proof (proj1 C5_extension_failure sample_options
                {| Manager.msg := msg_a; Manager.phase := Manager.Handling;
                   Manager.armed := true; Manager.inflight := 1 |}
                err_throttled _ _ eq_refl eq_refl) as H.
  destruct H as (H1 & H2 & H3 & _). repeat split; assumption.
Defined.

(** * The engine of [Manager]: what a step changes *)

Lemma loop_facts :
  forall l e,
    Manager.running (Manager.loop l e) = Manager.running e /\
    Manager.procs (Manager.loop l e) = Manager.procs e /\
    Manager.stops (Manager.loop l e) = Manager.stops e /\
    Manager.log (Manager.loop l e)
    = Manager.log e ++ (if Manager.running e then [Manager.EvReceive] else []) /\
    Manager.loops (Manager.loop l e)
    = upd_nth l (if Manager.running e then Manager.AwaitReceive else Manager.Returned)
        (Manager.loops e).
Proof.
  intros l e. unfold Manager.loop, Manager.receiveMessage, Manager.call_resolveShutdown.
  destruct (Manager.running e) eqn:Hr; [simpl; auto|].
  destruct (Manager.resolveShutdown e); simpl; rewrite app_nil_r; auto.
Qed.

Lemma after_batch_facts :
  forall l e,
    Manager.running (Manager.after_batch l e) = Manager.running e /\
    Manager.procs (Manager.after_batch l e) = Manager.procs e /\
    Manager.stops (Manager.after_batch l e) = Manager.stops e /\
    Manager.log (Manager.after_batch l e)
    = Manager.log e
      ++ (if Manager.batch_settled l (Manager.procs e) && Manager.running e
          then [Manager.EvReceive] else []) /\
    Manager.loops (Manager.after_batch l e)
    = upd_nth l
        (if Manager.batch_settled l (Manager.procs e)
         then (if Manager.running e then Manager.AwaitReceive else Manager.Returned)
         else Manager.AwaitBatch)
        (Manager.loops e).
Proof.
  intros l e. unfold Manager.after_batch.
  destruct (Manager.batch_settled l (Manager.procs e)); simpl.
  - apply loop_facts.
  - rewrite app_nil_r. auto.
Qed.

(** The events of a dispatch are the first events of the lifecycles it
    starts: setInterval and the call of the handler. *)
Lemma dispatch_counts :
  forall o l ms f,
    (forall m z, f (Manager.EvSetInterval m z) = false) ->
    (forall m, f (Manager.EvHandler m) = false) ->
    Manager.count f (snd (Manager.dispatch o l ms)) = 0.
Proof.
  intros o l ms f Hs Hh. induction ms as [|m rest IH]; simpl; [reflexivity|].
  unfold Manager.processMessageWithVisibilityHeartbeat.
  destruct (Manager.dispatch o l rest) as [ps evs]; simpl in *.
  destruct (negb (truthy (ReceiptHandle m))); simpl.
  - exact IH.
  - unfold Manager.count in *. simpl. rewrite Hs, Hh. exact IH.
Qed.

(** The events of one step of a lifecycle are no receive calls and no
    callbacks of the receive loop. *)
Lemma step_proc_counts :
  forall o p x p' evs,
    Manager.step_proc o p x = Some (p', evs) ->
    Manager.count Manager.is_receive evs = 0 /\
    Manager.count Manager.is_onErrorConfiguration evs = 0.
Proof. intros o p x p' evs H. proc_step H; split; reflexivity. Qed.

Section EngineInvariant.
Variable o : Manager.Options.
Variable I : Manager.Engine -> Prop.
Hypothesis I_step :
  forall e i e',
    I e -> i <> Manager.CallStart -> Manager.step o e i = Some e' -> I e'.

(** An invariant of the steps other than start() holds at the end of every
    script in which the user does not call start(). *)
Lemma run_invariant_no_start :
  forall script e e',
    Manager.no_start script = true -> I e -> Manager.run o e script = Some e' -> I e'.
Proof.
  induction script as [|i rest IH]; simpl; intros e e' Hns HI Hrun.
  - inversion Hrun; subst; exact HI.
  - destruct (Manager.step o e i) as [e1|] eqn:Hs; [|discriminate].
    apply andb_prop in Hns. destruct Hns as [Hi Hrest].
    eapply IH; [exact Hrest| |exact Hrun].
    eapply I_step; eauto. intros ->. discriminate.
Qed.
End EngineInvariant.

(** Unfolding one step of the engine into its cases. *)
Ltac engine_step H :=
  unfold Manager.step, Manager.receive_try, Manager.receive_catch,
    Manager.stop_in_receiveMessage, Manager.stop, Manager.start in H;
  repeat match type of H with
         | context [match ?x with _ => _ end] => destruct x eqn:?; simpl in H
         end;
  try discriminate; inversion H; subst; clear H.

(** Rewriting the fields of the states that [loop] and [after_batch] return. *)
Ltac engine_fields :=
  repeat match goal with
         | |- context [Manager.after_batch ?l ?e] =>
             let F1 := fresh in let F2 := fresh in let F3 := fresh in
             let F4 := fresh in let F5 := fresh in
             destruct (after_batch_facts l e) as (F1 & F2 & F3 & F4 & F5);
             progress (rewrite ?F1, ?F2, ?F3, ?F4, ?F5); clear F1 F2 F3 F4 F5
         | |- context [Manager.loop ?l ?e] =>
             let F1 := fresh in let F2 := fresh in let F3 := fresh in
             let F4 := fresh in let F5 := fresh in
             destruct (loop_facts l e) as (F1 & F2 & F3 & F4 & F5);
             progress (rewrite ?F1, ?F2, ?F3, ?F4, ?F5); clear F1 F2 F3 F4 F5
         end;
  simpl.

Lemma halted_step :
  forall o n e i e',
    halted n e -> i <> Manager.CallStart -> Manager.step o e i = Some e' -> halted n e'.
Proof.
  intros o n e i e' [Hr Hn] Hi Hs. unfold halted.
  engine_step Hs; try congruence; engine_fields;
    repeat rewrite Hr; repeat rewrite andb_false_r; simpl;
    repeat rewrite manager_count_app; unfold opt_call;
    repeat match goal with
           | |- context [if ?b then _ else _] => destruct b
           end; simpl; repeat rewrite Nat.add_0_r; auto.
  all: try match goal with
       | Hd : Manager.dispatch ?o' ?l' ?ms = (_, ?evs) |- _ =>
           let C := fresh in
           pose proof (dispatch_counts o' l' ms Manager.is_receive
                         (fun _ _ => eq_refl) (fun _ => eq_refl)) as C;
           rewrite Hd in C; simpl in C
       end.
  all: try match goal with
       | Hp : Manager.step_proc _ _ _ = Some _ |- _ =>
           apply step_proc_counts in Hp; destruct Hp as [Hp _]
       end.
  all: split; auto; try lia.
Qed.

Lemma Forall_upd_nth :
  forall (A : Type) (P : A -> Prop) n x l,
    Forall P l -> P x -> Forall P (upd_nth n x l).
Proof.
  intros A P n x l Hl Hx. revert n.
  induction Hl as [|h t Hh Ht IH]; intros [|n]; simpl; auto.
Qed.

Lemma Forall_upd_nth_others :
  forall (A : Type) (P : A -> Prop) l n x,
    (forall k y, k <> n -> nth_error l k = Some y -> P y) -> P x ->
    Forall P (upd_nth n x l).
Proof.
  intros A P l. induction l as [|h t IH]; intros n x Hl Hx; simpl.
  - destruct n; constructor.
  - destruct n as [|n].
    + constructor; [exact Hx|].
      apply Forall_forall. intros y Hy. apply In_nth_error in Hy.
      destruct Hy as [k Hk]. apply (Hl (S k) y); [discriminate|exact Hk].
    + constructor.
      * apply (Hl 0 h); [discriminate|reflexivity].
      * apply IH; [|exact Hx]. intros k y Hk Hy.
        apply (Hl (S k) y); [congruence|exact Hy].
Qed.

Lemma Forall_nth_error :
  forall (A : Type) (P : A -> Prop) l n x,
    Forall P l -> nth_error l n = Some x -> P x.
Proof.
  intros A P l n x Hl Hn. rewrite Forall_forall in Hl.
  apply Hl. eapply nth_error_In; eauto.
Qed.

Lemma quiescent_step :
  forall o m e i e',
    quiescent m e -> i <> Manager.CallStart -> Manager.step o e i = Some e' ->
    quiescent m e'.
Proof.
  intros o m e i e' (Hr & Hl & Hm) Hi Hs. unfold quiescent.
  engine_step Hs; try congruence;
    try match goal with
        | Hn : nth_error (Manager.loops e) _ = Some Manager.AwaitReceive |- _ =>
            exfalso; apply (@Forall_nth_error _ _ _ _ _ Hl Hn); reflexivity
        end;
    engine_fields; repeat rewrite Hr; repeat rewrite andb_false_r; simpl;
    repeat rewrite manager_count_app; simpl; repeat rewrite Nat.add_0_r.
  all: try match goal with
       | Hp : Manager.step_proc _ _ _ = Some _ |- _ =>
           apply step_proc_counts in Hp; destruct Hp as [_ Hp]; rewrite Hp
       end.
  all: repeat split; auto; try lia.
  all: apply Forall_upd_nth; auto; try discriminate;
    destruct (Manager.batch_settled _ _); discriminate.
Qed.

(** * C2: a configuration error of the receive call *)

(** C2.  A receive call of loop [l] fails with a configuration error (the
    queue does not exist, or the credentials are invalid) and
    [onErrorConfiguration] was supplied.  Then the callback is called once,
    [running] is false, and in every continuation in which the user does not
    call start() the engine stays stopped and sends no receive call; when no
    other receive call was in flight the callback is never called again.  A
    stop() of the user after that returns at once. *)
Theorem C2_configuration_error_stops :
  forall o e l err e1 script e2,
    Manager.onErrorConfiguration o = true ->
    Manager.is_configuration_error err = true ->
    Manager.step o e (Manager.ReceiveDone l (inl err)) = Some e1 ->
    Manager.no_start script = true ->
    Manager.run o e1 script = Some e2 ->
    Manager.count Manager.is_onErrorConfiguration (Manager.log e1)
    = S (Manager.count Manager.is_onErrorConfiguration (Manager.log e))
    /\ Manager.running e1 = false
    /\ Manager.running e2 = false
    /\ Manager.count Manager.is_receive (Manager.log e2)
       = Manager.count Manager.is_receive (Manager.log e)
    /\ Manager.stop e2 = Manager.add_stop None e2
    /\ ((forall l' pc, l' <> l -> nth_error (Manager.loops e) l' = Some pc ->
         pc <> Manager.AwaitReceive) ->
        Manager.count Manager.is_onErrorConfiguration (Manager.log e2)
        = S (Manager.count Manager.is_onErrorConfiguration (Manager.log e))).
Proof.
  intros o e l err e1 script e2 Hcb Hcfg Hstep Hns Hrun.
  unfold Manager.step in Hstep.
  destruct (nth_error (Manager.loops e) l) as [[| | | |]|] eqn:Hl; try discriminate.
  inversion Hstep; subst; clear Hstep.
  unfold Manager.is_configuration_error in Hcfg.
  assert (H1 : Manager.count Manager.is_onErrorConfiguration
                 (Manager.log (Manager.receive_catch o l err e))
               = S (Manager.count Manager.is_onErrorConfiguration (Manager.log e))
               /\ Manager.running (Manager.receive_catch o l err e) = false
               /\ Manager.count Manager.is_receive
                    (Manager.log (Manager.receive_catch o l err e))
                  = Manager.count Manager.is_receive (Manager.log e)
               /\ exists pc, pc <> Manager.AwaitReceive /\
                    Manager.loops (Manager.receive_catch o l err e)
                    = upd_nth l pc (Manager.loops e)).
  { unfold Manager.receive_catch, Manager.stop_in_receiveMessage.
    rewrite Hcfg, Hcb. simpl.
    destruct (Manager.running e) eqn:Hr; simpl.
    - repeat rewrite manager_count_app. unfold opt_call.
      destruct (Manager.onErrorReceivingMessage o); simpl;
        (split; [cbn; lia|]); (split; [reflexivity|]); (split; [cbn; lia|]);
        eexists; (split; [|reflexivity]); discriminate.
    - engine_fields. rewrite Hr. repeat rewrite manager_count_app. unfold opt_call.
      destruct (Manager.onErrorReceivingMessage o); simpl;
        (split; [cbn; lia|]); (split; [reflexivity|]); (split; [cbn; lia|]);
        eexists; (split; [|reflexivity]); discriminate. }
  destruct H1 as (Hc1 & Hr1 & Hn1 & pc & Hpc & Hloops).
  assert (Hh : halted (Manager.count Manager.is_receive (Manager.log e)) e2).
  { eapply run_invariant_no_start with (I := halted _); eauto.
    - intros; eapply halted_step; eauto.
    - split; assumption. }
  destruct Hh as [Hr2 Hn2].
  repeat split; auto.
  - unfold Manager.stop. rewrite Hr2. reflexivity.
  - intros Hothers.
    assert (Hq : quiescent (S (Manager.count Manager.is_onErrorConfiguration
                                 (Manager.log e))) e2).
    { eapply run_invariant_no_start with (I := quiescent _); eauto.
      - intros; eapply quiescent_step; eauto.
      - repeat split; auto. rewrite Hloops.
        apply Forall_upd_nth_others; auto. }
    destruct Hq as (_ & _ & Hq). exact Hq.
Qed.

(** C2 at a freshly started engine: its first receive call fails with
    [err_queue_missing]; then the user calls stop(). *)
Lemma C2_witness :
  exists e1 e2,
    Manager.step sample_options (Manager.start Manager.init)
      (Manager.ReceiveDone 0 (inl err_queue_missing)) = Some e1
    /\ Manager.run sample_options e1 [Manager.CallStop] = Some e2
    /\ Manager.running e2 = false
    /\ Manager.count Manager.is_receive (Manager.log e2) = 1
    /\ Manager.count Manager.is_onErrorConfiguration (Manager.log e2) = 1.
Proof.
  eexists; eexists. split; [reflexivity|]. split; [reflexivity|].
  pose proof (@C2_configuration_error_stops sample_options (Manager.start Manager.init)
                0 err_queue_missing _ [Manager.CallStop] _
                eq_refl eq_refl eq_refl eq_refl eq_refl) as H.
  destruct H as (_ & _ & H3 & H4 & _ & H6).
  split; [exact H3|]. split; [exact H4|].
  apply H6. intros [|k] pc Hk Hn; [congruence|].
  destruct k; discriminate Hn.
Defined.

(** * C4: temporary errors of the receive call *)

Lemma nth_error_upd_nth_same :
  forall (A : Type) (l : list A) n x y,
    nth_error l n = Some y -> nth_error (upd_nth n x l) n = Some x.
Proof.
  intros A l. induction l as [|h t IH]; intros [|n] x y H; simpl in *;
    try discriminate; eauto.
Qed.

Lemma temporary_failure_once :
  forall o e l err,
    Manager.running e = true ->
    nth_error (Manager.loops e) l = Some Manager.AwaitReceive ->
    Manager.is_configuration_error err = false ->
    exists e2,
      Manager.run o e [Manager.ReceiveDone l (inl err); Manager.TimeoutFired l] = Some e2
      /\ Manager.running e2 = true
      /\ nth_error (Manager.loops e2) l = Some Manager.AwaitReceive
      /\ Manager.log e2 = Manager.log e ++ temporary_failure_events o err.
Proof.
  intros o e l err Hr Hl Hc. unfold Manager.is_configuration_error in Hc.
  simpl. rewrite Hl. unfold Manager.receive_catch. rewrite Hc. simpl. rewrite Hr.
  simpl. rewrite (nth_error_upd_nth_same _ _ _ _ _ Hl).
  eexists. split; [reflexivity|].
  engine_fields. rewrite Hr. simpl.
  split; [reflexivity|]. split.
  - eapply nth_error_upd_nth_same.
    eapply nth_error_upd_nth_same; eauto.
  - unfold temporary_failure_events. repeat rewrite <- app_assoc. reflexivity.
Qed.

Lemma run_app :
  forall o s1 s2 e e1,
    Manager.run o e s1 = Some e1 ->
    Manager.run o e (s1 ++ s2) = Manager.run o e1 s2.
Proof.
  intros o s1. induction s1 as [|i rest IH]; simpl; intros s2 e e1 H.
  - inversion H; reflexivity.
  - destruct (Manager.step o e i); [eauto|discriminate].
Qed.

(** Strategy A: any number of temporary failures in a row leaves the engine
    running with its next receive call sent. *)
Lemma manager_temporary_failures :
  forall o l errs e,
    Manager.running e = true ->
    nth_error (Manager.loops e) l = Some Manager.AwaitReceive ->
    forallb (fun err => negb (Manager.is_configuration_error err)) errs = true ->
    exists e',
      Manager.run o e (Manager.temporary_failures l errs) = Some e'
      /\ Manager.running e' = true
      /\ nth_error (Manager.loops e') l = Some Manager.AwaitReceive
      /\ Manager.log e' = Manager.log e ++ flat_map (temporary_failure_events o) errs.
Proof.
  intros o l errs. induction errs as [|err rest IH]; intros e Hr Hl Hall.
  - exists e. simpl. rewrite app_nil_r. auto.
  - simpl in Hall. apply andb_prop in Hall. destruct Hall as [Herr Hrest].
    apply negb_true_iff in Herr.
    destruct (temporary_failure_once o e l err Hr Hl Herr) as (e2 & Hrun & Hr2 & Hl2 & Hlog2).
    destruct (IH e2 Hr2 Hl2 Hrest) as (e' & Hrun' & Hr' & Hl' & Hlog').
    exists e'. split.
    + change (Manager.temporary_failures l (err :: rest))
        with ([Manager.ReceiveDone l (inl err); Manager.TimeoutFired l]
              ++ Manager.temporary_failures l rest).
      rewrite (run_app _ _ _ _ _ Hrun). exact Hrun'.
    + repeat split; auto. rewrite Hlog', Hlog2. simpl.
      rewrite <- app_assoc. reflexivity.
Qed.

(** * The pipeline of [SQSManager]: only [poll] sends a receive call *)

Lemma sqs_count_app :
  forall f l1 l2,
    SQSManager.count f (l1 ++ l2) = SQSManager.count f l1 + SQSManager.count f l2.
Proof.
  intros. unfold SQSManager.count. rewrite filter_app, length_app. reflexivity.
Qed.

Lemma same_polling_refl : forall s, same_polling s s.
Proof. split; reflexivity. Qed.

Lemma same_polling_trans :
  forall s1 s2 s3, same_polling s1 s2 -> same_polling s2 s3 -> same_polling s1 s3.
Proof. intros s1 s2 s3 [A B] [C D]. split; congruence. Qed.

Lemma flushBatchDelete_events :
  forall b, SQSManager.count SQSManager.is_receive (snd (SQSManager.flushBatchDelete b)) = 0.
Proof.
  intros b. unfold SQSManager.flushBatchDelete.
  destruct (SQSManager.deleteBuffer b); reflexivity.
Qed.

Lemma addToDeleteBatch_events :
  forall m b,
    SQSManager.count SQSManager.is_receive (snd (SQSManager.addToDeleteBatch m b)) = 0.
Proof.
  intros m b. unfold SQSManager.addToDeleteBatch.
  destruct (MessageId m); [|reflexivity]. destruct (ReceiptHandle m); [|reflexivity].
  destruct (negb _ || negb _); [reflexivity|].
  destruct (10 <=? _); [apply flushBatchDelete_events|reflexivity].
Qed.

Lemma with_batcher_same_polling :
  forall f s,
    (forall b, SQSManager.count SQSManager.is_receive (snd (f b)) = 0) ->
    same_polling s (SQSManager.with_batcher f s).
Proof.
  intros f s Hf. unfold SQSManager.with_batcher, same_polling.
  specialize (Hf (SQSManager.batcher s)).
  destruct (f (SQSManager.batcher s)) as [b evs]. simpl in *.
  rewrite sqs_count_app, Hf. split; [reflexivity|lia].
Qed.

Lemma stream_error_same_polling :
  forall e s, same_polling s (SQSManager.stream_error e s).
Proof.
  intros e s. unfold SQSManager.stream_error, SQSManager.close_stream.
  destruct (SQSManager.closed s) eqn:Hc; [apply same_polling_refl|].
  simpl. rewrite Hc. unfold SQSManager.teardown.
  eapply same_polling_trans; [|apply with_batcher_same_polling, flushBatchDelete_events].
  split; simpl; [reflexivity|]. rewrite !sqs_count_app. cbn. lia.
Qed.

Lemma close_stream_same_polling :
  forall s, same_polling s (SQSManager.close_stream s).
Proof.
  intros s. unfold SQSManager.close_stream.
  destruct (SQSManager.closed s); [apply same_polling_refl|].
  unfold SQSManager.teardown.
  eapply same_polling_trans; [|apply with_batcher_same_polling, flushBatchDelete_events].
  split; simpl; [reflexivity|]. rewrite !sqs_count_app. cbn. lia.
Qed.

Lemma doInnerSub_same_polling :
  forall c m s, same_polling s (SQSManager.doInnerSub c m s).
Proof.
  intros c m s. unfold SQSManager.doInnerSub, SQSManager.subscribe_inner,
    SQSManager.startVisibilityExtender.
  destruct (negb (truthy (ReceiptHandle m))), (SQSManager.handler_throws c m);
    cbn [SQSManager.phase];
    try (eapply same_polling_trans; [|apply stream_error_same_polling]);
    split; simpl; try reflexivity; rewrite sqs_count_app; cbn; lia.
Qed.

Lemma drain_same_polling :
  forall c buf s, same_polling s (SQSManager.drain c buf s).
Proof.
  intros c buf. induction buf as [|m rest IH]; intros s; simpl.
  - split; reflexivity.
  - destruct (Z.of_nat (SQSManager.active s) <? SQSManager.concurrency c)%Z.
    + eapply same_polling_trans; [apply doInnerSub_same_polling|apply IH].
    + split; reflexivity.
Qed.

Lemma perform_same_polling :
  forall c s ev,
    SQSManager.is_receive ev = false -> same_polling s (SQSManager.perform c s ev).
Proof.
  intros c s ev Hev.
  assert (H1 : same_polling s (SQSManager.add_log [ev] s)).
  { split; simpl; [reflexivity|]. rewrite sqs_count_app. unfold SQSManager.count.
    simpl. rewrite Hev. simpl. lia. }
  unfold SQSManager.perform.
  destruct ev; try exact H1; eapply same_polling_trans; try exact H1.
  - unfold SQSManager.inner_complete.
    destruct (SQSManager.closed _); [apply same_polling_refl|].
    eapply same_polling_trans; [|apply drain_same_polling]. split; reflexivity.
  - apply stream_error_same_polling.
  - apply with_batcher_same_polling. intros b. apply addToDeleteBatch_events.
Qed.

Lemma fold_perform_same_polling :
  forall c evs s,
    Forall (fun ev => SQSManager.is_receive ev = false) evs ->
    same_polling s (fold_left (SQSManager.perform c) evs s).
Proof.
  intros c evs. induction evs as [|ev rest IH]; intros s H; simpl.
  - apply same_polling_refl.
  - inversion H as [|? ? Hev Hrest]; subst.
    eapply same_polling_trans; [apply perform_same_polling; exact Hev|apply IH; exact Hrest].
Qed.

Lemma step_inner_no_receive :
  forall c p x p' evs,
    SQSManager.step_inner c p x = Some (p', evs) ->
    Forall (fun ev => SQSManager.is_receive ev = false) evs.
Proof.
  intros c p x p' evs H. inner_step H; repeat constructor.
Qed.

(** Once [poll] has returned, no step sends a receive call. *)
Lemma not_polling_step :
  forall c s i s',
    SQSManager.polling s = false -> SQSManager.step c s i = Some s' ->
    same_polling s s'.
Proof.
  intros c s i s' Hp Hs. destruct i; simpl in Hs.
  - rewrite Hp in Hs. discriminate.
  - destruct (nth_error (SQSManager.procs s) i) as [p|]; [|discriminate].
    destruct (SQSManager.step_inner c p x) as [[p' evs]|] eqn:Hi; [|discriminate].
    inversion Hs; subst; clear Hs.
    eapply same_polling_trans;
      [|apply fold_perform_same_polling; eapply step_inner_no_receive; eauto].
    split; reflexivity.
  - destruct (SQSManager.deleteInterval s); [|discriminate].
    inversion Hs; subst. apply with_batcher_same_polling, flushBatchDelete_events.
  - destruct (SQSManager.batch_settles k ok (SQSManager.batcher s)); [|discriminate].
    inversion Hs; subst. split; reflexivity.
  - inversion Hs; subst. apply close_stream_same_polling.
Qed.

Lemma not_polling_run :
  forall c script s s',
    SQSManager.polling s = false -> SQSManager.run c s script = Some s' ->
    same_polling s s'.
Proof.
  intros c script. induction script as [|i rest IH]; simpl; intros s s' Hp Hrun.
  - inversion Hrun; subst. apply same_polling_refl.
  - destruct (SQSManager.step c s i) as [s1|] eqn:Hs; [|discriminate].
    pose proof (not_polling_step c s i s1 Hp Hs) as H1.
    eapply same_polling_trans; [exact H1|].
    apply IH; [|exact Hrun]. destruct H1 as [H1 _]. congruence.
Qed.

Lemma close_stream_closed :
  forall s, SQSManager.closed (SQSManager.close_stream s) = true.
Proof.
  intros s. unfold SQSManager.close_stream.
  destruct (SQSManager.closed s) eqn:Hc; [exact Hc|].
  unfold SQSManager.teardown, SQSManager.with_batcher.
  destruct (SQSManager.flushBatchDelete _); reflexivity.
Qed.

Lemma stream_error_closed :
  forall e s, SQSManager.closed (SQSManager.stream_error e s) = true.
Proof.
  intros e s. unfold SQSManager.stream_error.
  destruct (SQSManager.closed s) eqn:Hc; [exact Hc|apply close_stream_closed].
Qed.

(** C4, as stated, fails in Strategy B: [listen] catches every failure of
    the receive call in the same way (lines 51-55): the error is sent to the
    subscriber, [isListening] is set to false and [poll] returns.  A throttled
    receive call ends the polling. *)
Lemma C4_counterexample :
  ~ (forall c s err s1,
        Manager.is_configuration_error err = false ->
        SQSManager.isListening s = true ->
        SQSManager.step c s (SQSManager.ReceiveDone (inl err)) = Some s1 ->
        SQSManager.isListening s1 = true).
Proof.
  intros H.
  specialize (H SQSManager.default_params (SQSManager.listen SQSManager.constructed)
                err_throttled _ eq_refl eq_refl eq_refl).
  discriminate H.
Qed.

(** C4 amended.  Strategy A, while the engine is running: each receive
    failure that is not a configuration error calls the receive-error and the
    temporary-error callbacks, waits [timeoutTemporaryError] and sends the
    next receive call, for any number of failures in a row.  Strategy B:
    every receive failure ends the polling.  On an open stream the error is
    sent to the subscriber as the error of the stream, which is then torn
    down: the flush interval is cleared and the buffer flushed once; a
    subscriber that is already closed receives nothing.  In both cases
    [isListening] is false, the stream is closed, and no receive call
    follows. *)
Theorem C4_temporary_receive_errors :
  (forall o l errs e,
      Manager.running e = true ->
      nth_error (Manager.loops e) l = Some Manager.AwaitReceive ->
      forallb (fun err => negb (Manager.is_configuration_error err)) errs = true ->
      exists e',
        Manager.run o e (Manager.temporary_failures l errs) = Some e'
        /\ Manager.running e' = true
        /\ nth_error (Manager.loops e') l = Some Manager.AwaitReceive
        /\ Manager.log e' = Manager.log e ++ flat_map (temporary_failure_events o) errs) /\
  (forall c s err s1,
      SQSManager.step c s (SQSManager.ReceiveDone (inl err)) = Some s1 ->
      SQSManager.isListening s1 = false /\ SQSManager.polling s1 = false /\
      SQSManager.closed s1 = true /\
      (SQSManager.closed s = false ->
       SQSManager.deleteInterval s1 = false /\
       SQSManager.log s1
       = SQSManager.log s
         ++ [SQSManager.EvStreamError err; SQSManager.EvClearDeleteInterval]
         ++ snd (SQSManager.flushBatchDelete (SQSManager.batcher s))) /\
      (SQSManager.closed s = true -> SQSManager.log s1 = SQSManager.log s) /\
      forall script s2,
        SQSManager.run c s1 script = Some s2 ->
        SQSManager.polling s2 = false /\
        SQSManager.count SQSManager.is_receive (SQSManager.log s2)
        = SQSManager.count SQSManager.is_receive (SQSManager.log s)).
Proof.
  split.
  - apply manager_temporary_failures.
  - intros c s err s1 Hs. simpl in Hs.
    destruct (SQSManager.polling s); [|discriminate].
    inversion Hs; subst; clear Hs. simpl.
    split; [reflexivity|]. split; [reflexivity|].
    split; [apply stream_error_closed|]. split; [|split].
    + intros Hc. unfold SQSManager.stream_error, SQSManager.close_stream.
      cbn [SQSManager.closed SQSManager.add_log]. rewrite Hc.
      unfold SQSManager.teardown, SQSManager.with_batcher.
      cbn -[SQSManager.flushBatchDelete].
      destruct (SQSManager.flushBatchDelete (SQSManager.batcher s)) as [b evs].
      cbn. rewrite <- ?app_assoc. cbn. split; reflexivity.
    + intros Hc. unfold SQSManager.stream_error. rewrite Hc. reflexivity.
    + intros script s2 Hrun.
      apply not_polling_run in Hrun; [|reflexivity].
      destruct Hrun as [Hp Hc]. simpl in Hp, Hc. split; [exact Hp|].
      rewrite Hc. apply (stream_error_same_polling err s).
Qed.

(** C4 amended.  Strategy A: three throttled receive calls in a row at a
    freshly started engine.  Strategy B: one throttled receive call at a
    stream that was just subscribed. *)
Lemma C4_witness :
  (exists e',
      Manager.run sample_options (Manager.start Manager.init)
        (Manager.temporary_failures 0 [err_throttled; err_throttled; err_throttled])
      = Some e'
      /\ Manager.running e' = true
      /\ Manager.count Manager.is_onErrorTemporary (Manager.log e') = 3
      /\ Manager.count Manager.is_receive (Manager.log e') = 4) /\
  (exists s1,
      SQSManager.step SQSManager.default_params
        (SQSManager.processMessage SQSManager.constructed)
        (SQSManager.ReceiveDone (inl err_throttled)) = Some s1
      /\ SQSManager.closed s1 = true
      /\ SQSManager.log s1
         = [SQSManager.EvReceive; SQSManager.EvStreamError err_throttled;
            SQSManager.EvClearDeleteInterval]).
Proof.
  split.
  - destruct (proj1 C4_temporary_receive_errors sample_options 0
                [err_throttled; err_throttled; err_throttled]
                (Manager.start Manager.init) eq_refl eq_refl eq_refl)
      as (e' & Hrun & Hr & _ & Hlog).
    exists e'. split; [exact Hrun|]. split; [exact Hr|].
    rewrite Hlog. split; reflexivity.
  - destruct (SQSManager.step SQSManager.default_params
                (SQSManager.processMessage SQSManager.constructed)
                (SQSManager.ReceiveDone (inl err_throttled))) as [s1|] eqn:Hs;
      [|vm_compute in Hs; discriminate].
    exists s1. split; [reflexivity|].
    destruct (proj2 C4_temporary_receive_errors SQSManager.default_params
                (SQSManager.processMessage SQSManager.constructed) err_throttled s1 Hs)
      as (_ & _ & Hc & Hopen & _).
    split; [exact Hc|]. destruct (Hopen eq_refl) as [_ Hlog]. rewrite Hlog. reflexivity.
Defined.

(** * C3: the delay before a retry *)

(** The jitter lies in the half-open interval below the backoff. *)
Lemma retry_delay_range :
  forall baseDelay retryCount u,
    (0 < baseDelay)%Z -> (0 <= u)%Q -> (u < 1)%Q ->
    (0 <= SQSManager.retry_delay baseDelay retryCount u
     < baseDelay * 2 ^ Z.of_nat retryCount)%Z.
Proof.
  intros b k u Hb Hu0 Hu1. unfold SQSManager.retry_delay.
  set (B := (b * 2 ^ Z.of_nat k)%Z).
  assert (HB : (0 < B)%Z) by (unfold B; apply Z.mul_pos_pos; [lia|apply Z.pow_pos_nonneg; lia]).
  assert (HBq : (inject_Z 0 < inject_Z B)%Q) by (rewrite <- Zlt_Qlt; exact HB).
  split.
  - change 0%Z with (Qfloor 0). apply Qfloor_resp_le.
    apply Qmult_le_0_compat; [exact Hu0|apply Qlt_le_weak; exact HBq].
  - rewrite Zlt_Qlt.
    eapply Qle_lt_trans; [apply Qfloor_le|].
    setoid_replace (inject_Z B) with (1 * inject_Z B)%Q at 2 by ring.
    apply Qmult_lt_compat_r; assumption.
Qed.




(** * C6: the hand-off to the delete buffer *)




Lemma flushBatchDelete_nonempty :
  forall b,
    SQSManager.deleteBuffer b <> [] ->
    SQSManager.flushBatchDelete b
    = ({| SQSManager.deleteBuffer := skipn 10 (SQSManager.deleteBuffer b);
          SQSManager.sending := SQSManager.sending b
                                ++ [firstn 10 (SQSManager.deleteBuffer b)] |},
       [SQSManager.EvDeleteBatch (firstn 10 (SQSManager.deleteBuffer b))]).
Proof.
  intros b H. unfold SQSManager.flushBatchDelete.
  destruct (SQSManager.deleteBuffer b); [contradiction|reflexivity].
Qed.


Lemma fold_emit_closed :
  forall c ms s, SQSManager.closed s = true -> fold_left (SQSManager.emit c) ms s = s.
Proof.
  intros c ms. induction ms as [|m rest IH]; intros s Hc; simpl; [reflexivity|].
  unfold SQSManager.emit at 2. rewrite Hc. simpl. apply IH. exact Hc.
Qed.










(** * C8: the size of the delete buffer *)

Lemma sent_batches_app :
  forall l1 l2,
    SQSManager.sent_batches (l1 ++ l2)
    = SQSManager.sent_batches l1 ++ SQSManager.sent_batches l2.
Proof. intros. unfold SQSManager.sent_batches. apply flat_map_app. Qed.

Lemma flushBatchDelete_batches :
  forall b, Forall batch_ok (SQSManager.sent_batches (snd (SQSManager.flushBatchDelete b))).
Proof.
  intros b. destruct (SQSManager.deleteBuffer b) as [|h t] eqn:Hb.
  - unfold SQSManager.flushBatchDelete. rewrite Hb. constructor.
  - rewrite flushBatchDelete_nonempty by (rewrite Hb; discriminate).
    cbn [snd SQSManager.sent_batches flat_map app].
    constructor; [|constructor]. unfold batch_ok.
    rewrite length_firstn, Hb. cbn [List.length]. lia.
Qed.

Lemma addToDeleteBatch_batches :
  forall m b,
    Forall batch_ok (SQSManager.sent_batches (snd (SQSManager.addToDeleteBatch m b))).
Proof.
  intros m b. unfold SQSManager.addToDeleteBatch.
  destruct (MessageId m); [|constructor]. destruct (ReceiptHandle m); [|constructor].
  destruct (negb _ || negb _); [constructor|].
  match goal with |- context [10 <=? ?n] => destruct (10 <=? n) end;
    [apply flushBatchDelete_batches|constructor].
Qed.

Lemma step_batcher_batches :
  forall b i b' evs,
    SQSManager.step_batcher b i = Some (b', evs) ->
    Forall batch_ok (SQSManager.sent_batches evs).
Proof.
  intros b i b' evs H. destruct i; simpl in H.
  - replace evs with (snd (SQSManager.addToDeleteBatch m b))
      by (destruct (SQSManager.addToDeleteBatch m b); inversion H; reflexivity).
    apply addToDeleteBatch_batches.
  - replace evs with (snd (SQSManager.flushBatchDelete b))
      by (destruct (SQSManager.flushBatchDelete b); inversion H; reflexivity).
    apply flushBatchDelete_batches.
  - destruct (SQSManager.batch_settles k ok b); inversion H; subst. constructor.
Qed.

Lemma flushBatchDelete_short :
  forall b,
    List.length (SQSManager.deleteBuffer b) <= 10 ->
    List.length (SQSManager.deleteBuffer (fst (SQSManager.flushBatchDelete b))) < 10.
Proof.
  intros b H. destruct (SQSManager.deleteBuffer b) as [|h t] eqn:Hb.
  - unfold SQSManager.flushBatchDelete. rewrite Hb.
    cbn [fst]. rewrite Hb. cbn [List.length]. lia.
  - rewrite flushBatchDelete_nonempty by (rewrite Hb; discriminate).
    cbn [fst SQSManager.deleteBuffer]. rewrite length_skipn, Hb. lia.
Qed.

(** While no batch-delete call fails, the buffer holds fewer than 10 entries
    between two inputs. *)
Lemma step_batcher_short :
  forall b i b' evs,
    List.length (SQSManager.deleteBuffer b) < 10 ->
    match i with SQSManager.BatchDone _ false => False | _ => True end ->
    SQSManager.step_batcher b i = Some (b', evs) ->
    List.length (SQSManager.deleteBuffer b') < 10.
Proof.
  intros b i b' evs Hlen Hi H. destruct i; simpl in H.
  - replace b' with (fst (SQSManager.addToDeleteBatch m b))
      by (destruct (SQSManager.addToDeleteBatch m b); inversion H; reflexivity).
    unfold SQSManager.addToDeleteBatch.
    destruct (MessageId m); [|exact Hlen]. destruct (ReceiptHandle m); [|exact Hlen].
    destruct (negb _ || negb _); [exact Hlen|].
    match goal with |- context [10 <=? ?n] => destruct (10 <=? n) eqn:Hn end.
    + apply flushBatchDelete_short. simpl. rewrite length_app. simpl. lia.
    + apply Nat.leb_gt in Hn. exact Hn.
  - replace b' with (fst (SQSManager.flushBatchDelete b))
      by (destruct (SQSManager.flushBatchDelete b); inversion H; reflexivity).
    apply flushBatchDelete_short. lia.
  - unfold SQSManager.batch_settles in H.
    destruct (nth_error (SQSManager.sending b) k); [|discriminate].
    destruct ok; [|contradiction]. inversion H; subst. exact Hlen.
Qed.

Lemma run_batcher_bounds :
  forall script b log b' log',
    SQSManager.run_batcher b log script = Some (b', log') ->
    Forall batch_ok (SQSManager.sent_batches log) ->
    Forall batch_ok (SQSManager.sent_batches log') /\
    (SQSManager.no_failure script = true ->
     List.length (SQSManager.deleteBuffer b) < 10 ->
     List.length (SQSManager.deleteBuffer b') < 10).
Proof.
  induction script as [|i rest IH]; simpl; intros b log b' log' Hrun Hlog.
  - inversion Hrun; subst. auto.
  - destruct (SQSManager.step_batcher b i) as [[b1 evs]|] eqn:Hs; [|discriminate].
    destruct (IH b1 (log ++ evs) b' log' Hrun) as [H1 H2].
    + rewrite sent_batches_app. apply Forall_app. split; [exact Hlog|].
      eapply step_batcher_batches; eauto.
    + split; [exact H1|]. intros Hnf Hlen.
      apply andb_prop in Hnf. destruct Hnf as [Hi Hrest].
      apply H2; [exact Hrest|].
      eapply step_batcher_short; eauto.
      destruct i as [| |k [|]]; try exact I. discriminate.
Qed.

(** C8, as stated, fails: a failed flush puts its batch back (line 108), so
    the push of the next message makes the buffer hold 11 entries when the
    automatic flush is triggered, and 11 again after that flush has failed. *)
Lemma C8_counterexample :
  ~ (forall script b log,
        SQSManager.run_batcher SQSManager.empty_batcher [] script = Some (b, log) ->
        List.length (SQSManager.deleteBuffer b) <= 10).
Proof.
  intros H.
  destruct (SQSManager.run_batcher SQSManager.empty_batcher [] eleven_entries)
    as [[b log]|] eqn:Hrun; [|vm_compute in Hrun; discriminate].
  specialize (H eleven_entries b log Hrun).
  vm_compute in Hrun. inversion Hrun; subst; clear Hrun.
  simpl in H. lia.
Qed.

(** C8 amended.  Every batch handed to the transport has between 1 and 10
    entries, whatever happens.  As long as no batch-delete call has failed,
    the buffer holds fewer than 10 entries between two inputs, hence at most
    10 at the moment a push triggers the automatic flush.  (After a failed
    call the batch is put back in front of what was buffered meanwhile, and
    the buffer is not bounded by 10.) *)
Theorem C8_delete_buffer_bounds :
  forall script b log,
    SQSManager.run_batcher SQSManager.empty_batcher [] script = Some (b, log) ->
    Forall (fun batch => 1 <= List.length batch <= 10) (SQSManager.sent_batches log) /\
    (SQSManager.no_failure script = true ->
     List.length (SQSManager.deleteBuffer b) < 10 /\
     forall entry, List.length (SQSManager.deleteBuffer b ++ [entry]) <= 10).
Proof.
  intros script b log Hrun.
  destruct (run_batcher_bounds script SQSManager.empty_batcher [] b log Hrun) as [H1 H2].
  - constructor.
  - split; [exact H1|]. intros Hnf.
    assert (Hlen : List.length (SQSManager.deleteBuffer b) < 10).
    { apply H2; [exact Hnf|simpl; lia]. }
    split; [exact Hlen|]. intros entry. rewrite length_app. simpl. lia.
Qed.

(** C8 on three messages, flushed by the interval between the second and
    the third: one batch of two was sent and one entry waits in the buffer. *)
Lemma C8_witness :
  exists b log,
    SQSManager.run_batcher SQSManager.empty_batcher []
      [SQSManager.Add msg_a; SQSManager.Add msg_b; SQSManager.Flush;
       SQSManager.BatchDone 0 true; SQSManager.Add msg_a]
    = Some (b, log)
    /\ List.length (SQSManager.deleteBuffer b) = 1
    /\ Forall (fun batch => 1 <= List.length batch <= 10) (SQSManager.sent_batches log)
    /\ List.length (SQSManager.deleteBuffer b) < 10.
Proof.
  eexists; eexists. split; [reflexivity|]. split; [reflexivity|].
  match goal with
  | |- Forall _ (SQSManager.sent_batches ?log) /\ List.length (SQSManager.deleteBuffer ?b) < 10 =>
      destruct (C8_delete_buffer_bounds
                  [SQSManager.Add msg_a; SQSManager.Add msg_b; SQSManager.Flush;
                   SQSManager.BatchDone 0 true; SQSManager.Add msg_a]
                  b log eq_refl) as [H1 H2]
  end.
  split; [exact H1|]. destruct (H2 eq_refl) as [H3 _]. exact H3.
Defined.

(** * C9: messages without a receipt handle *)

Lemma handles_ok_same :
  forall e e',
    Manager.procs e' = Manager.procs e -> Manager.log e' = Manager.log e ->
    handles_ok e -> handles_ok e'.
Proof. intros e e' Hp Hl [H1 H2]. unfold handles_ok. rewrite Hp, Hl. auto. Qed.

Lemma handles_ok_add_log :
  forall evs e, Forall event_ok evs -> handles_ok e -> handles_ok (Manager.add_log evs e).
Proof.
  intros evs e Hevs [H1 H2]. split; simpl; [exact H1|].
  apply Forall_app. auto.
Qed.

Lemma handles_ok_loop : forall l e, handles_ok e -> handles_ok (Manager.loop l e).
Proof.
  intros l e [H1 H2]. destruct (loop_facts l e) as (_ & Hp & _ & Hl & _).
  unfold handles_ok. rewrite Hp, Hl. split; [exact H1|].
  apply Forall_app. split; [exact H2|].
  destruct (Manager.running e); repeat constructor. intros m Hm. discriminate.
Qed.

Lemma handles_ok_after_batch :
  forall l e, handles_ok e -> handles_ok (Manager.after_batch l e).
Proof.
  intros l e H. unfold Manager.after_batch.
  destruct (Manager.batch_settled l (Manager.procs e)).
  - apply handles_ok_loop. exact H.
  - eapply handles_ok_same; [| |exact H]; reflexivity.
Qed.

Lemma opt_call_engine_event :
  forall b ev, Manager.event_message ev = None -> Forall event_ok (opt_call b ev).
Proof.
  intros b ev H. destruct b; simpl; repeat constructor.
  intros m Hm. congruence.
Qed.

Lemma dispatch_ok :
  forall o l ms,
    Forall (fun lp => proc_ok (snd lp)) (fst (Manager.dispatch o l ms)) /\
    Forall event_ok (snd (Manager.dispatch o l ms)).
Proof.
  intros o l ms. induction ms as [|m rest [IH1 IH2]]; simpl; [split; constructor|].
  unfold Manager.processMessageWithVisibilityHeartbeat.
  destruct (Manager.dispatch o l rest) as [ps evs]. simpl in *.
  destruct (truthy (ReceiptHandle m)) eqn:Hm; simpl; split.
  - constructor; [left; exact Hm|exact IH1].
  - repeat constructor; try exact IH2; intros m' Hm'; inversion Hm'; subst; exact Hm.
  - constructor; [right; auto|exact IH1].
  - exact IH2.
Qed.

Lemma step_proc_ok :
  forall o p x p' evs,
    proc_ok p -> Manager.step_proc o p x = Some (p', evs) ->
    proc_ok p' /\ Forall event_ok evs.
Proof.
  intros o p x p' evs Hok Hs.
  assert (Hm : truthy (ReceiptHandle (Manager.msg p)) = true).
  { destruct Hok as [H|(Hph & Ha & Hi)]; [exact H|].
    exfalso. destruct x; simpl in Hs; rewrite ?Ha, ?Hi, ?Hph in Hs; discriminate. }
  split.
  - left. rewrite (step_proc_msg _ _ _ _ _ Hs). exact Hm.
  - proc_step Hs; repeat constructor; intros m' Hm'; inversion Hm'; subst; exact Hm.
Qed.

Lemma handles_ok_step :
  forall o e i e', handles_ok e -> Manager.step o e i = Some e' -> handles_ok e'.
Proof.
  intros o e i e' H Hs. destruct i; simpl in Hs.
  - inversion Hs; subst. unfold Manager.start.
    destruct (Manager.running e); [exact H|].
    apply handles_ok_loop. eapply handles_ok_same; [| |exact H]; reflexivity.
  - inversion Hs; subst. unfold Manager.stop.
    destruct (negb (Manager.running e)); eapply handles_ok_same; try exact H; reflexivity.
  - destruct (nth_error (Manager.loops e) l) as [[| | | |]|]; try discriminate.
    destruct r as [err|Messages]; inversion Hs; subst; clear Hs.
    + unfold Manager.receive_catch, Manager.stop_in_receiveMessage.
      assert (H1 : handles_ok
                     (Manager.add_log
                        (opt_call (Manager.onErrorReceivingMessage o)
                           (Manager.EvOnErrorReceivingMessage err)) e)).
      { apply handles_ok_add_log; [apply opt_call_engine_event; reflexivity|exact H]. }
      destruct (Manager.isQueueNonExistent err || Manager.isInvalidCredentials err).
      * assert (H2 : handles_ok
                       (Manager.add_log
                          (opt_call (Manager.onErrorConfiguration o)
                             (Manager.EvOnErrorConfiguration err))
                          (Manager.add_log
                             (opt_call (Manager.onErrorReceivingMessage o)
                                (Manager.EvOnErrorReceivingMessage err)) e))).
        { apply handles_ok_add_log; [apply opt_call_engine_event; reflexivity|exact H1]. }
        destruct (negb (Manager.running _)); [apply handles_ok_loop; exact H2|].
        eapply handles_ok_same; [| |exact H2]; reflexivity.
      * destruct (Manager.running _); [|apply handles_ok_loop; exact H1].
        eapply handles_ok_same;
          [| |apply (handles_ok_add_log
                       (opt_call (Manager.onErrorTemporary o) (Manager.EvOnErrorTemporary err)
                        ++ [Manager.EvSleep (Manager.timeoutTemporaryError o)])); [|exact H1]];
          try reflexivity.
        apply Forall_app. split; [apply opt_call_engine_event; reflexivity|].
        repeat constructor. intros m Hm. discriminate.
    + unfold Manager.receive_try.
      pose proof (dispatch_ok o l (match Messages with Some ms => ms | None => [] end))
        as [D1 D2].
      destruct (Manager.dispatch o l _) as [ps evs]. simpl in D1, D2.
      apply handles_ok_after_batch. apply handles_ok_add_log; [exact D2|].
      destruct H as [H1 H2]. split; simpl; [|exact H2].
      apply Forall_app. auto.
  - destruct (nth_error (Manager.procs e) i) as [[l p]|] eqn:Hn; [|discriminate].
    destruct (Manager.step_proc o p x) as [[p' evs]|] eqn:Hp; [|discriminate].
    destruct H as [H1 H2].
    pose proof (Forall_nth_error _ _ _ _ _ H1 Hn) as Hok. simpl in Hok.
    destruct (step_proc_ok o p x p' evs Hok Hp) as [Hok' Hevs].
    assert (H' : handles_ok
                   (Manager.add_log evs
                      (Manager.set_procs (upd_nth i (l, p') (Manager.procs e)) e))).
    { apply handles_ok_add_log; [exact Hevs|]. split; simpl; [|exact H2].
      apply Forall_upd_nth; [exact H1|exact Hok']. }
    destruct (nth_error (Manager.loops e) l) as [[| | | |]|];
      inversion Hs; subst; try exact H'.
    apply handles_ok_after_batch. exact H'.
  - destruct (nth_error (Manager.loops e) l) as [[| | | |]|]; try discriminate.
    inversion Hs; subst. apply handles_ok_loop. exact H.
  - destruct (nth_error (Manager.loops e) l) as [[| |[p|]| |]|]; try discriminate.
    + destruct (Manager.is_resolved e p); [|discriminate].
      inversion Hs; subst. apply handles_ok_loop. exact H.
    + inversion Hs; subst. apply handles_ok_loop. exact H.
Qed.

Lemma handles_ok_run :
  forall o script e0 e,
    handles_ok e0 -> Manager.run o e0 script = Some e -> handles_ok e.
Proof.
  intros o script. induction script as [|i rest IH]; simpl; intros e0 e H0 Hrun.
  - inversion Hrun; subst. exact H0.
  - destruct (Manager.step o e0 i) as [e1|] eqn:Hs; [|discriminate].
    eapply IH; [|exact Hrun]. eapply handles_ok_step; eauto.
Qed.

(** Strategy A, every run of the engine: no handler call, heartbeat, delete
    or callback concerns a message without a receipt handle. *)
Lemma manager_ignores_messages_without_handle :
  forall o script e,
    Manager.run o Manager.init script = Some e ->
    forall ev m,
      In ev (Manager.log e) -> Manager.event_message ev = Some m ->
      truthy (ReceiptHandle m) = true.
Proof.
  intros o script e Hrun.
  assert (H : handles_ok e).
  { eapply handles_ok_run; [|exact Hrun]. split; constructor. }
  destruct H as [_ H]. rewrite Forall_forall in H.
  intros ev m Hin Hm. exact (H ev Hin m Hm).
Qed.

Lemma no_extender_step :
  forall c m p log i p' evs,
    no_extender m p log -> SQSManager.step_inner c p i = Some (p', evs) ->
    no_extender m p' (log ++ evs).
Proof.
  intros c m p log i p' evs (He & Hc & Hh) Hs. unfold no_extender.
  rewrite sqs_count_app, Hc.
  assert (Hin : In (SQSManager.EvHandler m) (log ++ evs)) by (apply in_or_app; auto).
  inner_step Hs; try congruence; repeat split; auto.
Qed.

Lemma addToDeleteBatch_without_handle :
  forall m b,
    truthy (ReceiptHandle m) = false -> SQSManager.addToDeleteBatch m b = (b, []).
Proof.
  intros m b H. unfold SQSManager.addToDeleteBatch.
  destruct (MessageId m); [|reflexivity]. destruct (ReceiptHandle m); [|reflexivity].
  rewrite H. rewrite orb_true_r. reflexivity.
Qed.

(** C9, as stated, fails in Strategy B: [listen] hands every received
    message on, and the inner observable calls [handler(message)] whether or
    not the message has a receipt handle (line 141); only the extender and
    [addToDeleteBatch] test it. *)
Lemma C9_counterexample :
  ~ (forall c m script s,
        truthy (ReceiptHandle m) = false ->
        SQSManager.run c (SQSManager.processMessage SQSManager.constructed) script = Some s ->
        ~ In (SQSManager.EvHandler m) (SQSManager.log s)).
Proof.
  intros H.
  apply (H SQSManager.default_params msg_no_handle
           [SQSManager.ReceiveDone (inr (Some [msg_no_handle]))] _ eq_refl eq_refl).
  simpl. right. right. left. reflexivity.
Qed.

(** C9 amended.  Strategy A: in every run of the engine, no handler call,
    heartbeat, delete or callback concerns a message without a receipt
    handle; its lifecycle returns at once.  Strategy B: for such a message no
    extender is started and [addToDeleteBatch] neither buffers nor sends
    anything, but the handler is called. *)
Theorem C9_message_without_receipt_handle :
  (forall o script e,
      Manager.run o Manager.init script = Some e ->
      forall ev m,
        In ev (Manager.log e) -> Manager.event_message ev = Some m ->
        truthy (ReceiptHandle m) = true) /\
  (forall o m,
      truthy (ReceiptHandle m) = false ->
      Manager.processMessageWithVisibilityHeartbeat o m
      = ({| Manager.msg := m; Manager.phase := Manager.Settled;
            Manager.armed := false; Manager.inflight := 0 |}, [])) /\
  (forall c m,
      truthy (ReceiptHandle m) = false ->
      (forall b, SQSManager.addToDeleteBatch m b = (b, [])) /\
      (forall script p log,
          SQSManager.run_inner c (fst (SQSManager.subscribe_inner c m))
            (snd (SQSManager.subscribe_inner c m)) script = Some (p, log) ->
          SQSManager.count SQSManager.is_heartbeat log = 0 /\
          In (SQSManager.EvHandler m) log)).
Proof.
  split; [|split].
  - apply manager_ignores_messages_without_handle.
  - intros o m H. unfold Manager.processMessageWithVisibilityHeartbeat.
    rewrite H. reflexivity.
  - intros c m H. split.
    + intros b. apply addToDeleteBatch_without_handle. exact H.
    + intros script p log Hrun.
      eapply run_inner_invariant with (I := no_extender m) in Hrun.
      * destruct Hrun as (_ & Hc & Hh). auto.
      * intros; eapply no_extender_step; eauto.
      * unfold SQSManager.subscribe_inner, SQSManager.startVisibilityExtender.
        rewrite H. destruct (SQSManager.handler_throws c m); simpl; repeat split;
          left; reflexivity.
Qed.

(** C9 in Strategy A: a batch of [msg_no_handle] and [msg_a]; only [msg_a]
    is processed. *)
Lemma C9_witness :
  exists e,
    Manager.run sample_options Manager.init
      [Manager.CallStart; Manager.ReceiveDone 0 (inr (Some [msg_no_handle; msg_a]))]
    = Some e
    /\ Manager.log e = [Manager.EvReceive; Manager.EvSetInterval msg_a 15000;
                        Manager.EvHandler msg_a]
    /\ truthy (ReceiptHandle msg_a) = true.
Proof.
  eexists. split; [reflexivity|]. split; [reflexivity|].
  eapply (proj1 C9_message_without_receipt_handle sample_options
            [Manager.CallStart; Manager.ReceiveDone 0 (inr (Some [msg_no_handle; msg_a]))]
            _ eq_refl (Manager.EvHandler msg_a) msg_a).
  - simpl. right. right. left. reflexivity.
  - reflexivity.
Defined.

(** * C7: what stop() waits for *)

(** C7 at the failing input [restart_race].  The second stop() is called
    while [running] is true and awaits the shutdown promise of the second
    start() (promise 1).  The first loop, when its receive call returns,
    finds [running] false and calls [resolveShutdown], which by then resolves
    promise 1: the promise of the second stop() is fulfilled while the second
    loop still awaits its batch and the handler of [msg_a] runs. *)
Theorem C7_stop_resolves_during_processing :
  exists e p,
    Manager.run sample_options Manager.init restart_race = Some e
    /\ nth_error (Manager.stops e) 1 = Some (Some (Some 1))
    /\ Manager.stop_settled e (Some (Some 1)) = true
    /\ nth_error (Manager.loops e) 1 = Some Manager.AwaitBatch
    /\ nth_error (Manager.procs e) 0 = Some (1, p)
    /\ Manager.msg p = msg_a
    /\ Manager.phase p = Manager.Handling.
Proof.
  destruct (Manager.run sample_options Manager.init restart_race) as [e|] eqn:Hrun;
    vm_compute in Hrun; [|discriminate].
  inversion Hrun; subst; clear Hrun.
  eexists; eexists. split; [reflexivity|]. repeat split.
Qed.

(** The positive part: an engine with a single loop. *)

Lemma dispatch_length :
  forall o l ms, List.length (fst (Manager.dispatch o l ms)) = List.length ms.
Proof.
  intros o l ms. induction ms as [|m rest IH]; simpl; [reflexivity|].
  destruct (Manager.processMessageWithVisibilityHeartbeat o m) as [p evs].
  destruct (Manager.dispatch o l rest) as [ps evs']. simpl in *. congruence.
Qed.

Lemma dispatch_tags :
  forall o l ms, Forall (fun lp => fst lp = l) (fst (Manager.dispatch o l ms)).
Proof.
  intros o l ms. induction ms as [|m rest IH]; simpl; [constructor|].
  destruct (Manager.processMessageWithVisibilityHeartbeat o m) as [p evs].
  destruct (Manager.dispatch o l rest) as [ps evs']. simpl in *.
  constructor; [reflexivity|exact IH].
Qed.

Lemma loop_resolved :
  forall l e,
    Manager.running e = true ->
    Manager.resolved (Manager.loop l e) = Manager.resolved e.
Proof. intros l e H. unfold Manager.loop. rewrite H. reflexivity. Qed.

Lemma single_ok_loop :
  forall e pc,
    Manager.loops e = [pc] ->
    Forall (fun lp => fst lp = 0) (Manager.procs e) ->
    Forall (fun lp => Manager.is_settled (snd lp) = true) (Manager.procs e) ->
    Manager.resolved e = [] ->
    single_ok (Manager.loop 0 e).
Proof.
  intros e pc Hl Ht Hs Hr.
  destruct (loop_facts 0 e) as (_ & Hp & _ & _ & Hloops).
  unfold single_ok. rewrite Hp, Hloops, Hl.
  split; [exact Ht|]. split; [intros _; exact Hs|].
  destruct (Manager.running e) eqn:Hrun; simpl.
  - rewrite loop_resolved by exact Hrun. intros H. contradiction.
  - reflexivity.
Qed.

Lemma batch_settled_all :
  forall ps,
    Forall (fun lp => fst lp = 0) ps ->
    Manager.batch_settled 0 ps = true ->
    Forall (fun lp : nat * Manager.Proc => Manager.is_settled (snd lp) = true) ps.
Proof.
  intros ps Ht Hb. unfold Manager.batch_settled in Hb.
  rewrite forallb_forall in Hb. rewrite Forall_forall in *.
  intros lp Hin. specialize (Hb lp Hin). rewrite (Ht lp Hin) in Hb. exact Hb.
Qed.

Lemma single_ok_after_batch :
  forall e pc,
    Manager.loops e = [pc] ->
    Forall (fun lp => fst lp = 0) (Manager.procs e) ->
    Manager.resolved e = [] ->
    single_ok (Manager.after_batch 0 e).
Proof.
  intros e pc Hl Ht Hr. unfold Manager.after_batch.
  destruct (Manager.batch_settled 0 (Manager.procs e)) eqn:Hb.
  - eapply single_ok_loop; eauto. apply batch_settled_all; assumption.
  - unfold single_ok. simpl. rewrite Hl. simpl.
    split; [exact Ht|]. split; [intros H; exfalso; apply H; reflexivity|].
    intros H. contradiction.
Qed.

Lemma single_loop :
  forall (ls : list Manager.LoopPc) l pc,
    List.length ls <= 1 -> nth_error ls l = Some pc -> l = 0 /\ ls = [pc].
Proof.
  intros [|h [|h' t]] l pc Hlen Hn; simpl in Hlen; try lia.
  - destruct l; discriminate.
  - destruct l as [|l]; simpl in Hn; [inversion Hn; auto|destruct l; discriminate].
Qed.

Lemma step_proc_settled :
  forall o p x p' evs,
    Manager.is_settled p = true -> Manager.step_proc o p x = Some (p', evs) ->
    Manager.is_settled p' = true.
Proof.
  intros o p x p' evs H Hs. unfold Manager.is_settled in *.
  destruct (Manager.phase p) eqn:Hph; try discriminate.
  proc_step Hs; try congruence; rewrite ?Hph; reflexivity.
Qed.

Lemma loops_length_step :
  forall o e i e',
    Manager.step o e i = Some e' ->
    List.length (Manager.loops e) <= List.length (Manager.loops e').
Proof.
  assert (Hupd : forall (A : Type) n (x : A) l,
             List.length (upd_nth n x l) = List.length l).
  { intros A n x l. revert n. induction l as [|h t IH]; intros [|n]; simpl; auto. }
  intros o e i e' Hs.
  engine_step Hs; engine_fields; unfold Manager.set_loop; simpl;
    rewrite ?Hupd, ?length_app; simpl; lia.
Qed.

Lemma single_ok_step :
  forall o e i e',
    List.length (Manager.loops e') <= 1 ->
    single_ok e -> Manager.step o e i = Some e' -> single_ok e'.
Proof.
  intros o e i e' Hlen' Hok Hs.
  pose proof (loops_length_step o e i e' Hs) as Hmono.
  assert (Hlen : List.length (Manager.loops e) <= 1) by lia.
  destruct Hok as (Ht & Hset & Hres).
  destruct i; simpl in Hs.
  - inversion Hs; subst; clear Hs. unfold Manager.start in *.
    destruct (Manager.running e) eqn:Hrun; [repeat split; assumption|].
    destruct (loop_facts (List.length (Manager.loops e))
                {| Manager.running := true; Manager.shutdownPromise := Some (Manager.promises e);
                   Manager.resolveShutdown := Some (Manager.promises e);
                   Manager.resolved := Manager.resolved e;
                   Manager.promises := S (Manager.promises e);
                   Manager.loops := Manager.loops e ++ [Manager.Returned];
                   Manager.procs := Manager.procs e; Manager.stops := Manager.stops e;
                   Manager.log := Manager.log e |}) as (_ & _ & _ & _ & Hloops).
    rewrite Hloops in Hlen'. simpl in Hlen'.
    destruct (Manager.loops e) as [|pc t] eqn:Hl.
    + simpl. eapply single_ok_loop; simpl; eauto.
      * apply Hset. simpl. discriminate.
      * destruct (Manager.resolved e); [reflexivity|].
        assert (H : @nil Manager.LoopPc = [Manager.Returned]) by (apply Hres; discriminate).
        discriminate.
    + exfalso. simpl in Hlen'.
      assert (Hupd : forall n (x : Manager.LoopPc) l,
                 List.length (upd_nth n x l) = List.length l).
      { intros n x l. revert n. induction l as [|h t' IH]; intros [|n]; simpl; auto. }
      rewrite Hupd, length_app in Hlen'. simpl in Hlen'. lia.
  - inversion Hs; subst; clear Hs. unfold Manager.stop.
    destruct (negb (Manager.running e)); repeat split; assumption.
  - destruct (nth_error (Manager.loops e) l) as [pc|] eqn:Hn; [|discriminate].
    destruct (single_loop _ _ _ Hlen Hn) as [-> Hl].
    destruct pc; try discriminate.
    assert (Hr : Manager.resolved e = []).
    { destruct (Manager.resolved e); [reflexivity|].
      rewrite Hl in Hres. assert (H : [Manager.AwaitReceive] = [Manager.Returned])
        by (apply Hres; discriminate). discriminate. }
    assert (Hall : Forall (fun lp => Manager.is_settled (snd lp) = true) (Manager.procs e)).
    { apply Hset. rewrite Hl. simpl. discriminate. }
    destruct r as [err|Messages]; inversion Hs; subst; clear Hs.
    + unfold Manager.receive_catch, Manager.stop_in_receiveMessage.
      destruct (Manager.isQueueNonExistent err || Manager.isInvalidCredentials err).
      * simpl. destruct (Manager.running e) eqn:Hrun; simpl.
        -- unfold single_ok. simpl. rewrite Hl, Hr. simpl.
           split; [exact Ht|]. split; [intros _; exact Hall|]. intros H; contradiction.
        -- eapply single_ok_loop; simpl; eauto.
      * simpl. destruct (Manager.running e) eqn:Hrun; simpl.
        -- unfold single_ok. simpl. rewrite Hl, Hr. simpl.
           split; [exact Ht|]. split; [intros _; exact Hall|]. intros H; contradiction.
        -- eapply single_ok_loop; simpl; eauto.
    + unfold Manager.receive_try.
      pose proof (dispatch_tags o 0 (match Messages with Some ms => ms | None => [] end)) as D.
      destruct (Manager.dispatch o 0 _) as [ps evs]. simpl in D.
      eapply single_ok_after_batch; simpl; eauto.
      apply Forall_app. auto.
  - destruct (nth_error (Manager.procs e) i) as [[l p]|] eqn:Hn; [|discriminate].
    destruct (Manager.step_proc o p x) as [[p' evs]|] eqn:Hp; [|discriminate].
    pose proof (Forall_nth_error _ _ _ _ _ Ht Hn) as Hl0. simpl in Hl0. subst l.
    assert (Ht' : Forall (fun lp : nat * Manager.Proc => fst lp = 0)
                    (upd_nth i (0, p') (Manager.procs e))).
    { apply Forall_upd_nth; [exact Ht|reflexivity]. }
    destruct (nth_error (Manager.loops e) 0) as [pc|] eqn:Hn0.
    + destruct (single_loop _ _ _ Hlen Hn0) as [_ Hl].
      assert (Hr : Manager.resolved e = [] \/ pc = Manager.Returned).
      { destruct (Manager.resolved e); [left; reflexivity|right].
        rewrite Hl in Hres. assert (H : [pc] = [Manager.Returned])
          by (apply Hres; discriminate). inversion H; reflexivity. }
      assert (Hother : pc <> Manager.AwaitBatch ->
                single_ok (Manager.add_log evs
                             (Manager.set_procs (upd_nth i (0, p') (Manager.procs e)) e))).
      { intros Hpc. unfold single_ok. simpl. split; [exact Ht'|]. split; [|exact Hres].
        intros _. apply Forall_upd_nth.
        - apply Hset. congruence.
        - simpl. eapply step_proc_settled; [|exact Hp].
          assert (Hall : Forall (fun lp => Manager.is_settled (snd lp) = true) (Manager.procs e))
            by (apply Hset; congruence).
          exact (Forall_nth_error _ _ _ _ _ Hall Hn). }
      destruct pc; inversion Hs; subst; clear Hs; try (apply Hother; discriminate).
      destruct Hr as [Hr|Hr]; [|discriminate].
      eapply single_ok_after_batch; simpl; eauto.
    + inversion Hs; subst; clear Hs.
      unfold single_ok. simpl. split; [exact Ht'|]. split; [|exact Hres].
      intros _. apply Forall_upd_nth.
      * apply Hset. discriminate.
      * simpl. eapply step_proc_settled; [|exact Hp].
        assert (Hall : Forall (fun lp => Manager.is_settled (snd lp) = true) (Manager.procs e))
          by (apply Hset; discriminate).
        exact (Forall_nth_error _ _ _ _ _ Hall Hn).
  - destruct (nth_error (Manager.loops e) l) as [pc|] eqn:Hn; [|discriminate].
    destruct (single_loop _ _ _ Hlen Hn) as [-> Hl].
    destruct pc; try discriminate. inversion Hs; subst; clear Hs.
    eapply single_ok_loop; eauto.
    + apply Hset. rewrite Hl. simpl. discriminate.
    + destruct (Manager.resolved e); [reflexivity|].
      rewrite Hl in Hres. assert (H : [Manager.AwaitTimeout] = [Manager.Returned])
        by (apply Hres; discriminate). discriminate.
  - destruct (nth_error (Manager.loops e) l) as [pc|] eqn:Hn; [|discriminate].
    destruct (single_loop _ _ _ Hlen Hn) as [-> Hl].
    destruct pc as [| |q| |]; try discriminate.
    assert (Hr : Manager.resolved e = []).
    { destruct (Manager.resolved e); [reflexivity|].
      rewrite Hl in Hres. assert (H : [Manager.AwaitStop q] = [Manager.Returned])
        by (apply Hres; discriminate). discriminate. }
    assert (He' : e' = Manager.loop 0 e).
    { destruct q as [q|]; [|inversion Hs; reflexivity].
      destruct (Manager.is_resolved e q); inversion Hs; reflexivity. }
    subst e'. eapply single_ok_loop; eauto.
    apply Hset. rewrite Hl. simpl. discriminate.
Qed.

Lemma single_ok_run :
  forall o script e0 e,
    List.length (Manager.loops e) <= 1 ->
    single_ok e0 -> Manager.run o e0 script = Some e -> single_ok e.
Proof.
  intros o script. induction script as [|i rest IH]; simpl; intros e0 e Hlen H0 Hrun.
  - inversion Hrun; subst. exact H0.
  - destruct (Manager.step o e0 i) as [e1|] eqn:Hs; [|discriminate].
    eapply IH; [exact Hlen| |exact Hrun].
    eapply single_ok_step; [|exact H0|exact Hs].
    assert (Hmono : forall s a b,
               Manager.run o a s = Some b ->
               List.length (Manager.loops a) <= List.length (Manager.loops b)).
    { induction s as [|j s' IHs]; simpl; intros a b Hab.
      - inversion Hab; subst. lia.
      - destruct (Manager.step o a j) as [a1|] eqn:Ha; [|discriminate].
        pose proof (loops_length_step o a j a1 Ha). specialize (IHs a1 b Hab). lia. }
    specialize (Hmono rest e1 e Hrun). lia.
Qed.

(** Strategy A with a single loop (start() took effect at most once): a
    receive call that returns N messages starts N lifecycles; when the
    promise of a stop() that was called while running is fulfilled, the loop
    has returned and every lifecycle has settled; and a stop() called while
    the engine is not running returns at once and changes nothing else. *)
Lemma stop_waits_for_the_single_loop :
  forall o script e,
    Manager.run o Manager.init script = Some e ->
    List.length (Manager.loops e) <= 1 ->
    (forall l ms, List.length (fst (Manager.dispatch o l ms)) = List.length ms) /\
    (forall k p,
        nth_error (Manager.stops e) k = Some (Some (Some p)) ->
        Manager.is_resolved e p = true ->
        Manager.loops e = [Manager.Returned] /\
        Forall (fun lp => Manager.phase (snd lp) = Manager.Settled) (Manager.procs e)) /\
    (Manager.running e = false -> Manager.stop e = Manager.add_stop None e).
Proof.
  intros o script e Hrun Hlen. split; [intros; apply dispatch_length|].
  split; [|intros Hr; unfold Manager.stop; rewrite Hr; reflexivity].
  intros k p Hk Hp.
  assert (Hok : single_ok e).
  { eapply single_ok_run; [exact Hlen| |exact Hrun].
    unfold single_ok. simpl. split; [constructor|]. split; [constructor|].
    intros H; contradiction. }
  destruct Hok as (_ & Hset & Hres).
  assert (Hl : Manager.loops e = [Manager.Returned]).
  { apply Hres. unfold Manager.is_resolved in Hp.
    destruct (Manager.resolved e); [discriminate|discriminate]. }
  split; [exact Hl|].
  assert (Hall : Forall (fun lp => Manager.is_settled (snd lp) = true) (Manager.procs e)).
  { apply Hset. rewrite Hl. simpl. discriminate. }
  eapply Forall_impl; [|exact Hall]. intros [l q] H. simpl in *.
  unfold Manager.is_settled in H. destruct (Manager.phase q); congruence.
Qed.

(** * Remarks on the runs above *)

Lemma suspended_in_stop_step :
  forall o e i e',
    suspended_in_stop e -> i <> Manager.CallStart -> Manager.step o e i = Some e' ->
    suspended_in_stop e'.
Proof.
  intros o e i e' (Hl & Hr & Hrun) Hi Hs. unfold suspended_in_stop.
  destruct i; simpl in Hs; try congruence.
  - inversion Hs; subst. unfold Manager.stop. rewrite Hrun. simpl. auto.
  - rewrite Hl in Hs. destruct l as [|[|l]]; discriminate.
  - destruct (nth_error (Manager.procs e) i) as [[l p]|]; [|discriminate].
    destruct (Manager.step_proc o p x) as [[p' evs]|]; [|discriminate].
    rewrite Hl in Hs. destruct l as [|[|l]]; inversion Hs; subst; simpl; auto.
  - rewrite Hl in Hs. destruct l as [|[|l]]; discriminate.
  - rewrite Hl in Hs. destruct l as [|[|l]]; try discriminate.
    simpl in Hs. unfold Manager.is_resolved in Hs. rewrite Hr in Hs. discriminate.
Qed.

(** After a configuration error in a freshly started engine, [loop()] never
    returns and the shutdown promise is never resolved: the loop awaits, in
    the stop() it called itself, the promise that only its own return would
    resolve.  (A stop() of the user made afterwards does not wait for it: it
    returns at line 53.) *)
Remark configuration_error_suspends_the_loop :
  forall o err e1 script e2,
    Manager.is_configuration_error err = true ->
    Manager.step o (Manager.start Manager.init) (Manager.ReceiveDone 0 (inl err)) = Some e1 ->
    Manager.no_start script = true ->
    Manager.run o e1 script = Some e2 ->
    Manager.loops e2 = [Manager.AwaitStop (Some 0)] /\ Manager.resolved e2 = [].
Proof.
  intros o err e1 script e2 Hc Hs Hns Hrun.
  assert (H1 : suspended_in_stop e1).
  { simpl in Hs. inversion Hs; subst; clear Hs.
    unfold Manager.receive_catch. unfold Manager.is_configuration_error in Hc.
    rewrite Hc. unfold suspended_in_stop. simpl. auto. }
  eapply run_invariant_no_start with (I := suspended_in_stop) in Hrun; eauto.
  - destruct Hrun as (A & B & _). auto.
  - intros; eapply suspended_in_stop_step; eauto.
Qed.

(** With [baseDelay = 0] every backoff is 0 and the timer waits 0 ms: the
    delay is then not strictly below the backoff. *)
Example retry_delay_zero_base :
  forall k u, SQSManager.retry_delay 0 k u = 0%Z.
Proof.
  intros k u. unfold SQSManager.retry_delay. rewrite Z.mul_0_l.
  destruct u as [n d]. unfold Qfloor, Qmult, inject_Z. simpl.
  rewrite Z.mul_0_r. apply Z.div_0_l. lia.
Qed.

(** When the retries of [msg_a] are exhausted, the error first reaches the
    caller's stream, whose teardown clears the flush interval and flushes the
    buffer; only then does the finalizer hand [msg_a] to [addToDeleteBatch].
    Its entry waits in the buffer: no batch was sent, the flush interval is
    cleared and cannot fire, and the inner observable accepts no input. *)
Example exhausted_entry_waits_in_buffer :
  exists s,
    SQSManager.run SQSManager.default_params
      (SQSManager.processMessage SQSManager.constructed) exhausted_run = Some s
    /\ SQSManager.deleteBuffer (SQSManager.batcher s)
       = [{| SQSManager.Id := "a"; SQSManager.entry_ReceiptHandle := "rh-a" |}]
    /\ SQSManager.sent_batches (SQSManager.log s) = []
    /\ SQSManager.deleteInterval s = false
    /\ SQSManager.step SQSManager.default_params s SQSManager.IntervalFlush = None
    /\ (forall x, SQSManager.step SQSManager.default_params s (SQSManager.ProcIn 0 x) = None).
Proof.
  destruct (SQSManager.run SQSManager.default_params
              (SQSManager.processMessage SQSManager.constructed) exhausted_run)
    as [s|] eqn:Hrun;
    vm_compute in Hrun; [|discriminate].
  inversion Hrun; subst; clear Hrun.
  eexists. split; [reflexivity|]. repeat split.
  intros x. destruct x; reflexivity.
Qed.

(** * Further properties of [Manager] *)

(** ** The constructor (lines 23-42) *)

(** X1.  None of the numeric fields that the constructor fills with [x || d] is
    ever 0: a supplied 0 is replaced by the default, like a missing value.
    In particular long polling cannot be switched off with
    [WaitTimeSeconds: 0]. *)
Theorem constructor_fields_never_zero :
  forall o,
    Manager.MaxNumberOfMessages o <> 0%Z /\
    Manager.WaitTimeSeconds o <> 0%Z /\
    Manager.VisibilityTimeout o <> 0%Z /\
    Manager.timeoutTemporaryError o <> 0%Z /\
    (Manager.opt_WaitTimeSeconds o = Some 0%Z -> Manager.WaitTimeSeconds o = 20%Z).
Proof.
  intros o.
  unfold Manager.MaxNumberOfMessages, Manager.WaitTimeSeconds, Manager.VisibilityTimeout,
    Manager.timeoutTemporaryError, Manager.or_default.
  repeat split;
    try (intros H; rewrite H; reflexivity);
    match goal with
    | |- match ?x with _ => _ end <> _ => destruct x as [[| |]|]; discriminate
    end.
Qed.

(** X2.  When no heartbeat interval is supplied, or 0 is supplied, the
    interval is half the visibility timeout the engine uses, rounded down: 15
    for the default of 30.  It is positive and at most half the visibility
    timeout when that is at least 2 seconds, and it is 0 when the visibility
    timeout is 1. *)
Theorem default_heartbeat_is_half_the_visibility_timeout :
  forall o,
    Manager.opt_heartbeatInterval o = None \/ Manager.opt_heartbeatInterval o = Some 0%Z ->
    Manager.heartbeatInterval o = (Manager.VisibilityTimeout o / 2)%Z /\
    ((2 <= Manager.VisibilityTimeout o)%Z ->
     (0 < Manager.heartbeatInterval o)%Z /\
     (2 * Manager.heartbeatInterval o <= Manager.VisibilityTimeout o)%Z) /\
    (Manager.VisibilityTimeout o = 1%Z -> Manager.heartbeatInterval o = 0%Z).
Proof.
  intros o Hhb.
  assert (H : Manager.heartbeatInterval o = (Manager.VisibilityTimeout o / 2)%Z).
  { unfold Manager.heartbeatInterval, Manager.VisibilityTimeout, Manager.or_default.
    destruct Hhb as [Hhb|Hhb]; rewrite Hhb;
      destruct (Manager.opt_VisibilityTimeout o) as [[| |]|]; reflexivity. }
  split; [exact H|]. rewrite H. split.
  - intros Hv. split.
    + apply Z.div_str_pos. lia.
    + apply Z.mul_div_le. lia.
  - intros Hv. rewrite Hv. reflexivity.
Qed.

(** The heartbeat at [VisibilityTimeout: 45] and [heartbeatInterval: 0]: 22
    seconds. *)
Lemma default_heartbeat_witness :
  Manager.heartbeatInterval
    {| Manager.queueUrl := Manager.queueUrl sample_options;
       Manager.opt_MaxNumberOfMessages := None;
       Manager.opt_WaitTimeSeconds := None;
       Manager.opt_VisibilityTimeout := Some 45%Z;
       Manager.opt_heartbeatInterval := Some 0%Z;
       Manager.opt_timeoutTemporaryError := None;
       Manager.onErrorReceivingMessage := false;
       Manager.onErrorVisibilityTimeout := false;
       Manager.onErrorProccessMessage := false;
       Manager.onErrorConfiguration := false;
       Manager.onErrorTemporary := false |} = 22%Z.
Proof.
  destruct (default_heartbeat_is_half_the_visibility_timeout
              {| Manager.queueUrl := Manager.queueUrl sample_options;
                 Manager.opt_MaxNumberOfMessages := None;
                 Manager.opt_WaitTimeSeconds := None;
                 Manager.opt_VisibilityTimeout := Some 45%Z;
                 Manager.opt_heartbeatInterval := Some 0%Z;
                 Manager.opt_timeoutTemporaryError := None;
                 Manager.onErrorReceivingMessage := false;
                 Manager.onErrorVisibilityTimeout := false;
                 Manager.onErrorProccessMessage := false;
                 Manager.onErrorConfiguration := false;
                 Manager.onErrorTemporary := false |} (or_intror eq_refl)) as [H _].
  rewrite H. reflexivity.
Defined.

(** ** One lifecycle: how often things happen *)

Lemma lifecycle_counts_step :
  forall o p log i p' evs,
    lifecycle_counts p log -> Manager.step_proc o p i = Some (p', evs) ->
    lifecycle_counts p' (log ++ evs).
Proof.
  intros o p log i p' evs (Hh & Hs & Hph) Hstep. unfold lifecycle_counts.
  rewrite !manager_count_app, Hh, Hs.
  proc_step Hstep;
    try match goal with
        | |- context [Manager.phase ?q] => destruct (Manager.phase q) eqn:?
        end;
    cbn; repeat split; try lia; try (destruct Hph; lia).
Qed.

Lemma no_delete_without_resolution :
  forall o script p log p' log',
    handler_resolves script = false ->
    Manager.phase p <> Manager.Deleting ->
    Manager.count Manager.is_delete log = 0 ->
    Manager.run_proc o p log script = Some (p', log') ->
    Manager.count Manager.is_delete log' = 0.
Proof.
  intros o script. induction script as [|i rest IH]; simpl; intros p log p' log' Hr Hph Hc Hrun.
  - inversion Hrun; subst. exact Hc.
  - destruct (Manager.step_proc o p i) as [[p1 evs]|] eqn:Hs; [|discriminate].
    apply orb_false_iff in Hr. destruct Hr as [Hi Hrest].
    assert (H1 : Manager.phase p1 <> Manager.Deleting /\
                 Manager.count Manager.is_delete evs = 0).
    { proc_step Hs; try discriminate; split; try reflexivity; try congruence. }
    destruct H1 as [Hp1 He].
    eapply IH; [exact Hrest|exact Hp1| |exact Hrun].
    rewrite manager_count_app, Hc, He. reflexivity.
Qed.

(** X3.  Strategy A, a message with a receipt handle, every script: the handler
    is called exactly once and one heartbeat interval is set; at most one
    delete is sent and the processing-error callback is called at most once;
    and no delete is sent unless the handler's promise was fulfilled, so a
    message whose handler fails is left for redelivery. *)
Theorem lifecycle_handles_each_message_once :
  forall o m script p log,
    truthy (ReceiptHandle m) = true ->
    Manager.lifecycle o m script = Some (p, log) ->
    Manager.count is_handler_call log = 1 /\
    Manager.count is_setInterval log = 1 /\
    Manager.count Manager.is_delete log <= 1 /\
    Manager.count Manager.is_onErrorProccessMessage log <= 1 /\
    (handler_resolves script = false -> Manager.count Manager.is_delete log = 0).
Proof.
  intros o m script p log Hm Hrun. unfold Manager.lifecycle in Hrun.
  unfold Manager.processMessageWithVisibilityHeartbeat in Hrun.
  rewrite Hm in Hrun. simpl in Hrun.
  assert (HI : lifecycle_counts p log).
  { pose proof Hrun as Hrun'.
    eapply run_proc_invariant with (I := lifecycle_counts) in Hrun'.
    - exact Hrun'.
    - intros; eapply lifecycle_counts_step; eauto.
    - unfold lifecycle_counts. simpl. repeat split. }
  destruct HI as (Hh & Hs & Hph).
  split; [exact Hh|]. split; [exact Hs|].
  assert (Hb : Manager.count Manager.is_delete log <= 1 /\
               Manager.count Manager.is_onErrorProccessMessage log <= 1).
  { destruct (Manager.phase p); destruct Hph; lia. }
  destruct Hb as [Hd Hc]. split; [exact Hd|]. split; [exact Hc|].
  intros Hr. eapply no_delete_without_resolution; [exact Hr| | |exact Hrun].
  - simpl. discriminate.
  - reflexivity.
Qed.

(** [msg_a], whose handler is rejected after one heartbeat: no delete. *)
Lemma lifecycle_handles_each_message_once_witness :
  exists p log,
    Manager.lifecycle sample_options msg_a
      [Manager.Tick; Manager.ExtendDone None; Manager.HandlerDone (Some err_handler)]
    = Some (p, log)
    /\ Manager.count is_handler_call log = 1
    /\ Manager.count Manager.is_delete log = 0.
Proof.
  eexists; eexists. split; [reflexivity|].
  destruct (lifecycle_handles_each_message_once sample_options msg_a
              [Manager.Tick; Manager.ExtendDone None; Manager.HandlerDone (Some err_handler)]
              _ _ eq_refl eq_refl) as (H1 & _ & _ & _ & H5).
  split; [exact H1|]. apply H5. reflexivity.
Defined.

(** ** [start] and [stop] (lines 44-58) *)

(** X4.  start() on a running engine changes nothing, so start() twice is
    start() once; on an engine that is not running it sets [running], launches
    one loop and sends one receive call. *)
Theorem start_is_idempotent :
  forall e,
    Manager.start (Manager.start e) = Manager.start e /\
    Manager.running (Manager.start e) = true /\
    (Manager.running e = false ->
     Manager.log (Manager.start e) = Manager.log e ++ [Manager.EvReceive] /\
     List.length (Manager.loops (Manager.start e)) = S (List.length (Manager.loops e))).
Proof.
  intros e.
  assert (Hr : Manager.running (Manager.start e) = true).
  { unfold Manager.start. destruct (Manager.running e) eqn:He; [exact He|].
    destruct (loop_facts (List.length (Manager.loops e))
                {| Manager.running := true; Manager.shutdownPromise := Some (Manager.promises e);
                   Manager.resolveShutdown := Some (Manager.promises e);
                   Manager.resolved := Manager.resolved e;
                   Manager.promises := S (Manager.promises e);
                   Manager.loops := Manager.loops e ++ [Manager.Returned];
                   Manager.procs := Manager.procs e; Manager.stops := Manager.stops e;
                   Manager.log := Manager.log e |}) as (H & _).
    rewrite H. reflexivity. }
  split; [|split; [exact Hr|]].
  - unfold Manager.start at 1. rewrite Hr. reflexivity.
  - intros He. unfold Manager.start. rewrite He.
    unfold Manager.loop, Manager.receiveMessage, Manager.set_loop. simpl. split; [reflexivity|].
    assert (Hupd : forall n (x : Manager.LoopPc) l,
               List.length (upd_nth n x l) = List.length l).
    { intros n x l. revert n. induction l as [|h t IH]; intros [|n]; simpl; auto. }
    rewrite Hupd, length_app. simpl. lia.
Qed.

(** X5.  stop() called while the engine is running clears [running] and waits
    for the shutdown promise; a second stop() made while the first still
    waits finds [running] false and returns at once (line 53): its promise is
    fulfilled although the loop has not returned. *)
Theorem second_stop_does_not_wait :
  forall e q,
    Manager.running e = true ->
    Manager.shutdownPromise e = Some q ->
    Manager.is_resolved e q = false ->
    Manager.stops (Manager.stop (Manager.stop e))
    = Manager.stops e ++ [Some (Some q); None] /\
    Manager.stop_settled (Manager.stop (Manager.stop e)) (Some (Some q)) = false /\
    Manager.stop_settled (Manager.stop (Manager.stop e)) None = true /\
    Manager.loops (Manager.stop (Manager.stop e)) = Manager.loops e /\
    Manager.procs (Manager.stop (Manager.stop e)) = Manager.procs e /\
    Manager.log (Manager.stop (Manager.stop e)) = Manager.log e.
Proof.
  intros e q Hr Hq Hres. unfold Manager.stop. rewrite Hr. simpl.
  rewrite Hq, <- app_assoc. simpl. repeat split.
  unfold Manager.is_resolved in *. simpl. exact Hres.
Qed.

(** At a freshly started engine: stop() twice. *)
Lemma second_stop_does_not_wait_witness :
  Manager.stops (Manager.stop (Manager.stop (Manager.start Manager.init)))
  = [Some (Some 0); None]
  /\ Manager.loops (Manager.stop (Manager.stop (Manager.start Manager.init)))
     = [Manager.AwaitReceive].
Proof.
  destruct (second_stop_does_not_wait (Manager.start Manager.init) 0
              eq_refl eq_refl eq_refl) as (H1 & _ & _ & H4 & _).
  split; [exact H1|exact H4].
Defined.

(** ** Draining after stop() *)

(** X6.  After stop(), a step of a lifecycle whose loop awaits its batch: if it
    settles the last lifecycle of the batch, the loop returns, the shutdown
    promise is resolved and no receive call is sent; otherwise the loop keeps
    waiting and nothing is resolved. *)
Theorem loop_returns_when_the_batch_has_settled :
  forall o e i x e' l p,
    Manager.running e = false ->
    nth_error (Manager.procs e) i = Some (l, p) ->
    nth_error (Manager.loops e) l = Some Manager.AwaitBatch ->
    Manager.step o e (Manager.ProcIn i x) = Some e' ->
    Manager.count Manager.is_receive (Manager.log e')
    = Manager.count Manager.is_receive (Manager.log e) /\
    (Manager.batch_settled l (Manager.procs e') = true ->
     nth_error (Manager.loops e') l = Some Manager.Returned /\
     forall q, Manager.resolveShutdown e = Some q -> Manager.is_resolved e' q = true) /\
    (Manager.batch_settled l (Manager.procs e') = false ->
     nth_error (Manager.loops e') l = Some Manager.AwaitBatch /\
     Manager.resolved e' = Manager.resolved e).
Proof.
  intros o e i x e' l p Hr Hp Hl Hs. simpl in Hs. rewrite Hp in Hs.
  destruct (Manager.step_proc o p x) as [[p' evs]|] eqn:Hsp; [|discriminate].
  rewrite Hl in Hs. inversion Hs; subst; clear Hs.
  destruct (step_proc_counts o p x p' evs Hsp) as [Hc _].
  unfold Manager.after_batch. simpl.
  destruct (Manager.batch_settled l (upd_nth i (l, p') (Manager.procs e))) eqn:Hb.
  - unfold Manager.loop. simpl. rewrite Hr.
    unfold Manager.call_resolveShutdown, Manager.set_loop. simpl.
    destruct (Manager.resolveShutdown e) as [q0|] eqn:Hq; simpl;
      rewrite ?Hb, manager_count_app, Hc, Nat.add_0_r;
      (split; [reflexivity|]); (split; [|intros; discriminate]); intros _;
      (split; [eapply nth_error_upd_nth_same; eauto|]).
    + intros q Hq'. inversion Hq'; subst. unfold Manager.is_resolved. simpl.
      rewrite Nat.eqb_refl. reflexivity.
    + intros q Hq'. discriminate.
  - simpl. rewrite Hb, manager_count_app, Hc, Nat.add_0_r.
    split; [reflexivity|]. split; [intros; discriminate|]. intros _.
    split; [eapply nth_error_upd_nth_same; eauto|reflexivity].
Qed.

(** [draining_engine]: when the handler has resolved and the delete
    succeeds, the loop returns and the promise of stop() is fulfilled. *)
Lemma loop_returns_when_the_batch_has_settled_witness :
  exists e',
    Manager.step sample_options draining_engine (Manager.ProcIn 0 (Manager.DeleteDone None))
    = Some e'
    /\ nth_error (Manager.loops e') 0 = Some Manager.Returned
    /\ Manager.stop_settled e' (Some (Some 0)) = true.
Proof.
  eexists. split; [reflexivity|].
  destruct (loop_returns_when_the_batch_has_settled sample_options draining_engine
              0 (Manager.DeleteDone None) _ 0
              {| Manager.msg := msg_a; Manager.phase := Manager.Deleting;
                 Manager.armed := true; Manager.inflight := 0 |}
              eq_refl eq_refl eq_refl eq_refl)
    as (_ & H & _).
  destruct (H eq_refl) as [H1 H2]. split; [exact H1|].
  apply (H2 0). reflexivity.
Defined.

(** X7.  A receive call that fails after stop(): the failure is reported to
    [onErrorReceivingMessage] (and to [onErrorConfiguration] when it is a
    configuration error), but [onErrorTemporary] is not called and no delay is
    waited: the loop returns at once, resolves the shutdown promise and sends
    no receive call. *)
Theorem receive_failing_after_stop_ends_the_loop :
  forall o e l err e',
    Manager.running e = false ->
    Manager.step o e (Manager.ReceiveDone l (inl err)) = Some e' ->
    nth_error (Manager.loops e') l = Some Manager.Returned /\
    (forall q, Manager.resolveShutdown e = Some q -> Manager.is_resolved e' q = true) /\
    Manager.log e'
    = Manager.log e
      ++ opt_call (Manager.onErrorReceivingMessage o) (Manager.EvOnErrorReceivingMessage err)
      ++ (if Manager.is_configuration_error err
          then opt_call (Manager.onErrorConfiguration o) (Manager.EvOnErrorConfiguration err)
          else []).
Proof.
  intros o e l err e' Hr Hs. simpl in Hs.
  destruct (nth_error (Manager.loops e) l) as [pc|] eqn:Hl; [|discriminate].
  destruct pc; try discriminate.
  assert (Hloop : forall e0,
             Manager.running e0 = false ->
             Manager.loops e0 = Manager.loops e ->
             Manager.resolveShutdown e0 = Manager.resolveShutdown e ->
             nth_error (Manager.loops (Manager.loop l e0)) l = Some Manager.Returned /\
             (forall q, Manager.resolveShutdown e = Some q ->
                        Manager.is_resolved (Manager.loop l e0) q = true) /\
             Manager.log (Manager.loop l e0) = Manager.log e0).
  { intros e0 H0 Hl0 Hq0. unfold Manager.loop. rewrite H0.
    unfold Manager.call_resolveShutdown, Manager.set_loop. rewrite Hq0.
    destruct (Manager.resolveShutdown e) as [q0|]; simpl; rewrite Hl0;
      (split; [eapply nth_error_upd_nth_same; eauto|]); (split; [|reflexivity]).
    - intros q Hq. inversion Hq; subst. unfold Manager.is_resolved. simpl.
      rewrite Nat.eqb_refl. reflexivity.
    - intros q Hq. discriminate. }
  inversion Hs; subst; clear Hs.
  unfold Manager.receive_catch, Manager.stop_in_receiveMessage,
    Manager.is_configuration_error.
  destruct (Manager.isQueueNonExistent err || Manager.isInvalidCredentials err); simpl;
    rewrite Hr; simpl.
  - match goal with
    | |- context [Manager.loop l ?e0] =>
        destruct (Hloop e0 Hr eq_refl eq_refl) as (A & B & C)
    end.
    rewrite C. simpl. rewrite <- app_assoc. auto.
  - match goal with
    | |- context [Manager.loop l ?e0] =>
        destruct (Hloop e0 Hr eq_refl eq_refl) as (A & B & C)
    end.
    rewrite C. simpl. rewrite app_nil_r. auto.
Qed.

Lemma receive_failing_after_stop_witness :
  exists e',
    Manager.step sample_options (Manager.stop (Manager.start Manager.init))
      (Manager.ReceiveDone 0 (inl err_throttled)) = Some e'
    /\ nth_error (Manager.loops e') 0 = Some Manager.Returned
    /\ Manager.is_resolved e' 0 = true.
Proof.
  eexists. split; [reflexivity|].
  destruct (receive_failing_after_stop_ends_the_loop sample_options
              (Manager.stop (Manager.start Manager.init)) 0 err_throttled _
              eq_refl eq_refl) as (H1 & H2 & _).
  split; [exact H1|]. apply H2. reflexivity.
Defined.

(** X8.  With start() called once, the message cycles are serial: whenever the
    loop has a receive call in flight, every lifecycle started so far has
    returned, so a batch is requested only after [Promise.allSettled] of the
    previous one. *)
Theorem receive_only_after_the_batch_has_settled :
  forall o script e,
    Manager.run o Manager.init script = Some e ->
    List.length (Manager.loops e) <= 1 ->
    nth_error (Manager.loops e) 0 = Some Manager.AwaitReceive ->
    Forall (fun lp => Manager.is_settled (snd lp) = true) (Manager.procs e).
Proof.
  intros o script e Hrun Hlen Hl.
  assert (H0 : single_ok Manager.init).
  { repeat split; simpl; try constructor. intros H. contradiction. }
  destruct (single_ok_run o script Manager.init e Hlen H0 Hrun) as (_ & Hset & _).
  apply Hset. rewrite Hl. discriminate.
Qed.

Lemma receive_only_after_the_batch_has_settled_witness :
  exists e,
    Manager.run sample_options Manager.init two_message_cycle = Some e
    /\ Forall (fun lp => Manager.is_settled (snd lp) = true) (Manager.procs e).
Proof.
  destruct (Manager.run sample_options Manager.init two_message_cycle) as [e|] eqn:Hrun;
    [|vm_compute in Hrun; discriminate].
  exists e. split; [reflexivity|].
  apply (receive_only_after_the_batch_has_settled sample_options two_message_cycle e Hrun);
    vm_compute in Hrun; inversion Hrun; subst; [simpl; lia|reflexivity].
Defined.

Lemma dispatch_first_events :
  forall o l ms,
    snd (Manager.dispatch o l ms) = flat_map (first_events o) ms /\
    map (fun lp => Manager.msg (snd lp)) (fst (Manager.dispatch o l ms)) = ms.
Proof.
  intros o l ms. induction ms as [|m rest [IH1 IH2]]; simpl; [split; reflexivity|].
  unfold Manager.processMessageWithVisibilityHeartbeat, first_events.
  destruct (Manager.dispatch o l rest) as [ps evs]. simpl in *.
  destruct (truthy (ReceiptHandle m)); simpl; rewrite IH1, IH2; split; reflexivity.
Qed.

Lemma dispatch_unsettled :
  forall o l ms,
    existsb (fun m => truthy (ReceiptHandle m)) ms = true ->
    forall ps, Manager.batch_settled l (ps ++ fst (Manager.dispatch o l ms)) = false.
Proof.
  intros o l ms H ps. unfold Manager.batch_settled. rewrite forallb_app.
  apply andb_false_iff. right.
  induction ms as [|m rest IH]; simpl in *; [discriminate|].
  unfold Manager.processMessageWithVisibilityHeartbeat.
  destruct (Manager.dispatch o l rest) as [qs evs]. simpl in *.
  destruct (truthy (ReceiptHandle m)) eqn:Hm; simpl.
  - rewrite Nat.eqb_refl. reflexivity.
  - rewrite IH by exact H. apply andb_false_r.
Qed.

(** X9.  A received batch is started as a whole: for every message with a receipt
    handle, in the order received, the heartbeat interval is set and the
    handler is called before anything is awaited; one lifecycle per message is
    added; and while one of them is unsettled the loop awaits the batch
    and sends no receive call. *)
Theorem batch_is_started_before_it_is_awaited :
  forall o e l ms e',
    existsb (fun m => truthy (ReceiptHandle m)) ms = true ->
    Manager.step o e (Manager.ReceiveDone l (inr (Some ms))) = Some e' ->
    Manager.log e' = Manager.log e ++ flat_map (first_events o) ms /\
    nth_error (Manager.loops e') l = Some Manager.AwaitBatch /\
    exists ps,
      Manager.procs e' = Manager.procs e ++ ps /\
      map (fun lp => Manager.msg (snd lp)) ps = ms /\
      Forall (fun lp => fst lp = l) ps.
Proof.
  intros o e l ms e' Hex Hs. simpl in Hs.
  destruct (nth_error (Manager.loops e) l) as [pc|] eqn:Hl; [|discriminate].
  destruct pc; try discriminate.
  inversion Hs; subst; clear Hs.
  unfold Manager.receive_try.
  pose proof (dispatch_first_events o l ms) as [D1 D2].
  pose proof (dispatch_tags o l ms) as D3.
  pose proof (dispatch_unsettled o l ms Hex (Manager.procs e)) as D4.
  destruct (Manager.dispatch o l ms) as [ps evs]. simpl in *.
  unfold Manager.after_batch. simpl. rewrite D4. simpl.
  split; [rewrite D1; reflexivity|].
  split; [eapply nth_error_upd_nth_same; eauto|].
  exists ps. auto.
Qed.

Lemma batch_is_started_before_it_is_awaited_witness :
  exists e',
    Manager.step sample_options (Manager.start Manager.init)
      (Manager.ReceiveDone 0 (inr (Some [msg_a; msg_no_handle; msg_b]))) = Some e'
    /\ nth_error (Manager.loops e') 0 = Some Manager.AwaitBatch.
Proof.
  destruct (Manager.step sample_options (Manager.start Manager.init)
              (Manager.ReceiveDone 0 (inr (Some [msg_a; msg_no_handle; msg_b]))))
    as [e'|] eqn:Hs; [|vm_compute in Hs; discriminate].
  exists e'. split; [reflexivity|].
  destruct (batch_is_started_before_it_is_awaited sample_options
              (Manager.start Manager.init) 0 [msg_a; msg_no_handle; msg_b] e'
              eq_refl Hs) as (_ & H & _).
  exact H.
Defined.

(** * The delete buffer of [SQSManager] *)

Lemma remove_nth_split :
  forall (A : Type) k (l : list A) x,
    nth_error l k = Some x ->
    exists pre post, l = pre ++ x :: post /\ SQSManager.remove_nth k l = pre ++ post.
Proof.
  intros A k. induction k as [|k IH]; intros [|h t] x H; simpl in H; try discriminate.
  - inversion H; subst. exists [], t. split; reflexivity.
  - destruct (IH t x H) as (pre & post & E1 & E2).
    exists (h :: pre), post. simpl. rewrite <- E1, E2. split; reflexivity.
Qed.

Lemma remove_nth_last :
  forall (A : Type) (l : list A) x, SQSManager.remove_nth (List.length l) (l ++ [x]) = l.
Proof.
  intros A l x. induction l as [|h t IH]; simpl; [reflexivity|]. rewrite IH. reflexivity.
Qed.

Lemma flushBatchDelete_held :
  forall b, held (fst (SQSManager.flushBatchDelete b)) = held b.
Proof.
  intros b. unfold SQSManager.flushBatchDelete, held.
  destruct (SQSManager.deleteBuffer b) as [|h t] eqn:Hb; cbn [fst]; [rewrite Hb; reflexivity|].
  cbn [SQSManager.sending SQSManager.deleteBuffer].
  rewrite concat_app. cbn [List.concat]. rewrite app_nil_r, <- app_assoc, firstn_skipn.
  reflexivity.
Qed.

Lemma addToDeleteBatch_held :
  forall m b,
    held (fst (SQSManager.addToDeleteBatch m b)) = held b ++ added [SQSManager.Add m].
Proof.
  intros m b. unfold SQSManager.addToDeleteBatch, added, SQSManager.entry_of.
  cbn [flat_map]. rewrite app_nil_r.
  destruct (MessageId m) as [id|]; [|cbn [fst]; rewrite app_nil_r; reflexivity].
  destruct (ReceiptHandle m) as [rh|]; [|cbn [fst]; rewrite app_nil_r; reflexivity].
  destruct (truthy (Some id)); cbn [negb orb andb];
    [|cbn [fst]; rewrite app_nil_r; reflexivity].
  destruct (truthy (Some rh)); cbn [negb orb andb];
    [|cbn [fst]; rewrite app_nil_r; reflexivity].
  match goal with |- context [10 <=? ?n] => destruct (10 <=? n) end;
    [rewrite flushBatchDelete_held|cbn [fst]];
    unfold held; cbn [SQSManager.sending SQSManager.deleteBuffer];
    rewrite app_assoc; reflexivity.
Qed.

Lemma step_batcher_held :
  forall b i b1 evs,
    SQSManager.step_batcher b i = Some (b1, evs) ->
    Permutation (held b ++ added [i]) (List.concat (acked_by b i) ++ held b1).
Proof.
  intros b i b1 evs H. destruct i as [m| |k ok]; simpl in H.
  - cbn [acked_by List.concat app]. rewrite <- addToDeleteBatch_held.
    destruct (SQSManager.addToDeleteBatch m b); inversion H; subst. reflexivity.
  - cbn [acked_by List.concat app added flat_map]. rewrite app_nil_r.
    rewrite <- (flushBatchDelete_held b).
    destruct (SQSManager.flushBatchDelete b); inversion H; subst. reflexivity.
  - unfold SQSManager.batch_settles in H. unfold acked_by.
    destruct (nth_error (SQSManager.sending b) k) as [batch|] eqn:Hk; [|discriminate].
    inversion H; subst; clear H.
    destruct (remove_nth_split _ k (SQSManager.sending b) batch Hk) as (pre & post & E1 & E2).
    cbn [added flat_map]. rewrite app_nil_r.
    unfold held. cbn [SQSManager.sending SQSManager.deleteBuffer]. rewrite E2, E1.
    rewrite !concat_app. cbn [List.concat].
    destruct ok; cbn [List.concat app].
    + rewrite app_nil_r, <- !app_assoc. apply Permutation_app_swap_app.
    + rewrite <- !app_assoc. apply Permutation_app_head.
      rewrite !app_assoc. apply Permutation_app_tail. apply Permutation_app_comm.
Qed.

(** A batch call in flight after a step was in flight before it, or the
    step sent it. *)
Lemma step_batcher_sending :
  forall b i b1 evs batch,
    SQSManager.step_batcher b i = Some (b1, evs) ->
    In batch (SQSManager.sending b1) ->
    In batch (SQSManager.sending b) \/ In batch (SQSManager.sent_batches evs).
Proof.
  assert (Hflush : forall b batch,
             In batch (SQSManager.sending (fst (SQSManager.flushBatchDelete b))) ->
             In batch (SQSManager.sending b)
             \/ In batch (SQSManager.sent_batches (snd (SQSManager.flushBatchDelete b)))).
  { intros b batch. unfold SQSManager.flushBatchDelete.
    destruct (SQSManager.deleteBuffer b); cbn; [auto|].
    intros H. apply in_app_or in H. destruct H as [H|[H|[]]]; auto. }
  intros b i b1 evs batch H Hin. destruct i as [m| |k ok]; simpl in H.
  - unfold SQSManager.addToDeleteBatch in H.
    destruct (MessageId m); [|inversion H; subst; auto].
    destruct (ReceiptHandle m); [|inversion H; subst; auto].
    destruct (negb _ || negb _); [inversion H; subst; auto|].
    match type of H with context [10 <=? ?n] => destruct (10 <=? n) end.
    + match type of H with
      | Some (SQSManager.flushBatchDelete ?b0) = _ =>
          specialize (Hflush b0 batch); destruct (SQSManager.flushBatchDelete b0)
      end.
      inversion H; subst. apply Hflush. exact Hin.
    + inversion H; subst. auto.
  - specialize (Hflush b batch). destruct (SQSManager.flushBatchDelete b).
    inversion H; subst. apply Hflush. exact Hin.
  - unfold SQSManager.batch_settles in H.
    destruct (nth_error (SQSManager.sending b) k) as [batch0|] eqn:Hk; [|discriminate].
    inversion H; subst; clear H. cbn [SQSManager.sending] in Hin.
    destruct (remove_nth_split _ k (SQSManager.sending b) batch0 Hk) as (pre & post & E1 & E2).
    rewrite E2 in Hin. rewrite E1. left.
    apply in_app_or in Hin. apply in_or_app. destruct Hin; [left|right; right]; assumption.
Qed.

Lemma run_batcher_log :
  forall script b log b' log',
    SQSManager.run_batcher b log script = Some (b', log') -> exists evs, log' = log ++ evs.
Proof.
  induction script as [|i rest IH]; intros b log b' log' Hrun; simpl in Hrun.
  - inversion Hrun; subst. exists []. rewrite app_nil_r. reflexivity.
  - destruct (SQSManager.step_batcher b i) as [[b1 evs]|]; [|discriminate].
    destruct (IH _ _ _ _ Hrun) as [evs' ->]. exists (evs ++ evs').
    rewrite app_assoc. reflexivity.
Qed.

(** X10.  The delete buffer neither loses nor duplicates an entry.  The
    entries held at the start (waiting or in a call in flight) and those
    pushed since are, up to order, those still held and those of the batch
    calls that were reported as succeeded; each of these batches was in
    flight at the start or was handed to the transport since; and while no
    call succeeds nothing leaves, whatever fails. *)
Theorem entries_leave_only_by_a_successful_call :
  forall script b log b' log',
    SQSManager.run_batcher b log script = Some (b', log') ->
    Permutation (held b ++ added script)
                (List.concat (acked_batches b script) ++ held b') /\
    Forall (fun batch => In batch (SQSManager.sending b)
                         \/ In batch (SQSManager.sent_batches log'))
           (acked_batches b script) /\
    (no_success script = true -> acked_batches b script = []).
Proof.
  induction script as [|i rest IH]; intros b log b' log' Hrun; simpl in Hrun.
  - inversion Hrun; subst. cbn [acked_batches List.concat app added flat_map].
    rewrite app_nil_r. split; [reflexivity|]. split; [constructor|reflexivity].
  - destruct (SQSManager.step_batcher b i) as [[b1 evs]|] eqn:Hs; [|discriminate].
    pose proof (step_batcher_held b i b1 evs Hs) as P1.
    destruct (IH b1 (log ++ evs) b' log' Hrun) as (P2 & S2 & N2).
    destruct (run_batcher_log _ _ _ _ _ Hrun) as [evs' Hlog].
    cbn [acked_batches]. rewrite Hs.
    split; [|split].
    + replace (added (i :: rest)) with (added [i] ++ added rest)
        by (unfold added; cbn [flat_map]; rewrite app_nil_r; reflexivity).
      rewrite concat_app.
      apply Permutation_trans
        with ((List.concat (acked_by b i) ++ held b1) ++ added rest).
      * rewrite (app_assoc (held b)). apply Permutation_app_tail. exact P1.
      * rewrite <- !app_assoc. apply Permutation_app_head. exact P2.
    + apply Forall_app. split.
      * unfold acked_by. destruct i as [m| |k [|]]; try constructor.
        destruct (nth_error (SQSManager.sending b) k) as [batch|] eqn:Hk;
          constructor; [|constructor].
        left. eapply nth_error_In. exact Hk.
      * eapply Forall_impl; [|exact S2]. intros batch [Hin|Hin]; [|right; exact Hin].
        destruct (step_batcher_sending b i b1 evs batch Hs Hin) as [H|H]; [left; exact H|].
        right. subst log'. rewrite !sent_batches_app.
        apply in_or_app. left. apply in_or_app. right. exact H.
    + intros Hn. unfold no_success in Hn. cbn [forallb] in Hn.
      apply andb_true_iff in Hn. destruct Hn as [Hn1 Hn2].
      rewrite (N2 Hn2), app_nil_r. unfold acked_by.
      destruct i as [m| |k [|]]; try reflexivity. discriminate.
Qed.

(** X10 at two messages: [msg_a] is flushed and its call succeeds while
    [msg_b] waits. *)
Lemma entries_leave_only_by_a_successful_call_witness :
  exists b' log',
    SQSManager.run_batcher SQSManager.empty_batcher []
      [SQSManager.Add msg_a; SQSManager.Add msg_no_handle; SQSManager.Flush;
       SQSManager.Add msg_b; SQSManager.BatchDone 0 true] = Some (b', log')
    /\ Permutation (added [SQSManager.Add msg_a; SQSManager.Add msg_b])
                   (added [SQSManager.Add msg_a] ++ held b').
Proof.
  destruct (SQSManager.run_batcher SQSManager.empty_batcher []
              [SQSManager.Add msg_a; SQSManager.Add msg_no_handle; SQSManager.Flush;
               SQSManager.Add msg_b; SQSManager.BatchDone 0 true])
    as [[b' log']|] eqn:Hrun; [|vm_compute in Hrun; discriminate].
  exists b', log'. split; [reflexivity|].
  destruct (entries_leave_only_by_a_successful_call _ _ _ _ _ Hrun) as (P & _ & _).
  exact P.
Defined.

(** X11.  A flush and the failure of its call undo each other: [unshift] puts the
    batch back in front, so the buffer is what it was, in the same order, and
    the entries are sent again by the next flush.  When the call succeeds the
    batch is gone and the rest of the buffer is kept. *)
Theorem failed_flush_restores_the_buffer :
  forall b,
    SQSManager.deleteBuffer b <> [] ->
    SQSManager.batch_settles (List.length (SQSManager.sending b)) false
      (fst (SQSManager.flushBatchDelete b)) = Some b /\
    SQSManager.batch_settles (List.length (SQSManager.sending b)) true
      (fst (SQSManager.flushBatchDelete b))
    = Some {| SQSManager.deleteBuffer := skipn 10 (SQSManager.deleteBuffer b);
              SQSManager.sending := SQSManager.sending b |} /\
    SQSManager.sent_batches (snd (SQSManager.flushBatchDelete b))
    = [firstn 10 (SQSManager.deleteBuffer b)].
Proof.
  intros b Hb. rewrite (flushBatchDelete_nonempty b Hb). cbn [fst snd].
  unfold SQSManager.batch_settles. cbn [SQSManager.sending SQSManager.deleteBuffer].
  rewrite nth_error_app2 by lia. rewrite Nat.sub_diag. cbn [nth_error].
  rewrite remove_nth_last, firstn_skipn.
  destruct b as [buf snd]. repeat split; reflexivity.
Qed.

Lemma failed_flush_restores_the_buffer_witness :
  SQSManager.batch_settles 0 false (fst (SQSManager.flushBatchDelete twelve_waiting))
  = Some twelve_waiting.
Proof.
  apply (failed_flush_restores_the_buffer twelve_waiting). discriminate.
Defined.

(** * One inner observable of [processMessage] *)

Lemma inner_counts_step :
  forall c p log i p' evs,
    inner_counts c p log ->
    SQSManager.step_inner c p i = Some (p', evs) ->
    inner_counts c p' (log ++ evs).
Proof.
  intros c p log i p' evs (H1 & H2 & H3 & H4) Hs. unfold inner_counts.
  rewrite !sqs_count_app.
  destruct i; simpl in Hs.
  - destruct (SQSManager.extender p); [|discriminate]. inversion Hs; subst.
    cbn. repeat split; lia.
  - destruct (SQSManager.inflight p); [discriminate|]. inversion Hs; subst.
    cbn. repeat split; lia.
  - destruct (SQSManager.phase p) eqn:Hph; try discriminate. inversion Hs; subst.
    unfold SQSManager.stopVisibilityExtender.
    destruct (SQSManager.extender p); cbn; repeat split; lia.
  - destruct (SQSManager.phase p) eqn:Hph; try discriminate.
    unfold SQSManager.retry_error in Hs.
    destruct (Z.of_nat (SQSManager.soFar p) <? SQSManager.maxRetries c)%Z eqn:Hlt.
    + apply Z.ltb_lt in Hlt. inversion Hs; subst. cbn. repeat split; lia.
    + inversion Hs; subst. unfold SQSManager.stopVisibilityExtender.
      destruct (SQSManager.extender p); cbn; repeat split; lia.
  - destruct (SQSManager.phase p) eqn:Hph; try discriminate.
    unfold SQSManager.retry_error in Hs.
    destruct (Z.of_nat (SQSManager.soFar p) <? SQSManager.maxRetries c)%Z eqn:Hlt.
    + apply Z.ltb_lt in Hlt. inversion Hs; subst. cbn. repeat split; lia.
    + inversion Hs; subst. unfold SQSManager.stopVisibilityExtender.
      destruct (SQSManager.extender p); cbn; repeat split; lia.
Qed.

(** X12.  However the handler's promise settles and however often [retry]
    resubscribes, the handler is called once for a message: a retry waits
    its timer and receives the same rejection again.  The log holds as many
    retry timers as the counter of [retry] tells, at most [maxRetries] (none
    when [maxRetries] is not positive), and the message is handed to
    [addToDeleteBatch] once, exactly when the inner observable has finalized. *)
Theorem handler_is_called_once_per_message :
  forall c m script p log,
    SQSManager.run_inner c (fst (SQSManager.subscribe_inner c m))
      (snd (SQSManager.subscribe_inner c m)) script = Some (p, log) ->
    SQSManager.count is_handler_started log = 1 /\
    SQSManager.count is_retry_timer log = SQSManager.soFar p /\
    (Z.of_nat (SQSManager.count is_retry_timer log) <= Z.max 0 (SQSManager.maxRetries c))%Z /\
    SQSManager.count is_hand_off log
    = match SQSManager.phase p with SQSManager.Finalized => 1 | _ => 0 end.
Proof.
  intros c m script p log Hrun.
  assert (H0 : inner_counts c (fst (SQSManager.subscribe_inner c m))
                 (snd (SQSManager.subscribe_inner c m))).
  { unfold SQSManager.subscribe_inner, SQSManager.startVisibilityExtender, inner_counts.
    destruct (negb (truthy (ReceiptHandle m))), (SQSManager.handler_throws c m);
      cbn; repeat split; lia. }
  pose proof Hrun as Hrun'.
  eapply run_inner_invariant with (I := inner_counts c) in Hrun'.
  - destruct Hrun' as (H1 & H2 & H3 & H4). rewrite H2. auto.
  - intros. eapply inner_counts_step; eauto.
  - exact H0.
Qed.

Lemma handler_is_called_once_per_message_witness :
  exists p log,
    SQSManager.run_inner SQSManager.default_params
      (fst (SQSManager.subscribe_inner SQSManager.default_params msg_a))
      (snd (SQSManager.subscribe_inner SQSManager.default_params msg_a))
      (SQSManager.rejections err_handler [(1 # 2)%Q; (1 # 3)%Q; (1 # 4)%Q]) = Some (p, log)
    /\ SQSManager.count is_handler_started log = 1
    /\ SQSManager.count is_retry_timer log = 3.
Proof.
  destruct (SQSManager.run_inner SQSManager.default_params
              (fst (SQSManager.subscribe_inner SQSManager.default_params msg_a))
              (snd (SQSManager.subscribe_inner SQSManager.default_params msg_a))
              (SQSManager.rejections err_handler [(1 # 2)%Q; (1 # 3)%Q; (1 # 4)%Q]))
    as [[p log]|] eqn:Hrun; [|vm_compute in Hrun; discriminate].
  exists p, log. split; [reflexivity|].
  destruct (handler_is_called_once_per_message _ _ _ _ _ Hrun) as (H1 & H2 & _).
  split; [exact H1|]. rewrite H2.
  vm_compute in Hrun. inversion Hrun; subst. reflexivity.
Defined.

(** * The pipeline of [SQSManager]: [listen] and [mergeMap] *)

Lemma length_upd_nth :
  forall (A : Type) n (x : A) l, List.length (upd_nth n x l) = List.length l.
Proof.
  intros A n x l. revert n. induction l as [|h t IH]; intros [|n]; simpl; auto.
Qed.

Lemma silent_refl : forall s, SQSManager.closed s = true -> silent s s.
Proof. intros s H. repeat split; auto. Qed.

Lemma silent_trans : forall s1 s2 s3, silent s1 s2 -> silent s2 s3 -> silent s1 s3.
Proof. intros s1 s2 s3 (A & B & C) (D & E & F). repeat split; congruence. Qed.

Lemma flushBatchDelete_no_stream_event :
  forall b, SQSManager.count is_stream_event (snd (SQSManager.flushBatchDelete b)) = 0.
Proof.
  intros b. unfold SQSManager.flushBatchDelete.
  destruct (SQSManager.deleteBuffer b); reflexivity.
Qed.

Lemma addToDeleteBatch_no_stream_event :
  forall m b, SQSManager.count is_stream_event (snd (SQSManager.addToDeleteBatch m b)) = 0.
Proof.
  intros m b. unfold SQSManager.addToDeleteBatch.
  destruct (MessageId m); [|reflexivity]. destruct (ReceiptHandle m); [|reflexivity].
  destruct (negb _ || negb _); [reflexivity|].
  match goal with |- context [10 <=? ?n] => destruct (10 <=? n) end;
    [apply flushBatchDelete_no_stream_event|reflexivity].
Qed.

Lemma with_batcher_silent :
  forall f s,
    SQSManager.closed s = true ->
    (forall b, SQSManager.count is_stream_event (snd (f b)) = 0) ->
    silent s (SQSManager.with_batcher f s).
Proof.
  intros f s Hc Hf. unfold SQSManager.with_batcher, silent.
  specialize (Hf (SQSManager.batcher s)).
  destruct (f (SQSManager.batcher s)) as [b evs]. simpl in *.
  rewrite sqs_count_app, Hf. repeat split; auto.
Qed.

Lemma perform_silent :
  forall c s ev,
    SQSManager.closed s = true -> is_stream_event ev = false ->
    silent s (SQSManager.perform c s ev).
Proof.
  intros c s ev Hc Hev.
  assert (H1 : silent s (SQSManager.add_log [ev] s)).
  { repeat split; simpl; auto. rewrite sqs_count_app. unfold SQSManager.count.
    simpl. rewrite Hev. simpl. lia. }
  unfold SQSManager.perform.
  destruct ev; try exact H1.
  - unfold SQSManager.inner_complete. simpl. rewrite Hc. exact H1.
  - unfold SQSManager.stream_error. simpl. rewrite Hc. exact H1.
  - eapply silent_trans; [exact H1|].
    apply with_batcher_silent; [exact Hc|apply addToDeleteBatch_no_stream_event].
Qed.

Lemma fold_perform_silent :
  forall c evs s,
    SQSManager.closed s = true ->
    Forall (fun ev => is_stream_event ev = false) evs ->
    silent s (fold_left (SQSManager.perform c) evs s).
Proof.
  intros c evs. induction evs as [|ev rest IH]; intros s Hc H; simpl.
  - apply silent_refl. exact Hc.
  - inversion H as [|? ? Hev Hrest]; subst.
    pose proof (perform_silent c s ev Hc Hev) as H1.
    eapply silent_trans; [exact H1|]. apply IH; [apply H1|exact Hrest].
Qed.

Lemma step_inner_no_stream_event :
  forall c p x p' evs,
    SQSManager.step_inner c p x = Some (p', evs) ->
    Forall (fun ev => is_stream_event ev = false) evs.
Proof.
  intros c p x p' evs H. inner_step H; repeat constructor.
Qed.

Lemma closed_step_is_silent :
  forall c s i s',
    SQSManager.closed s = true -> SQSManager.step c s i = Some s' -> silent s s'.
Proof.
  intros c s i s' Hc Hs. destruct i; simpl in Hs.
  - destruct (SQSManager.polling s); [|discriminate].
    destruct r as [err|Messages]; inversion Hs; subst; clear Hs.
    + unfold SQSManager.stream_error. rewrite Hc. repeat split; auto.
    + rewrite fold_emit_closed by exact Hc.
      unfold SQSManager.poll. rewrite Hc, andb_false_r. repeat split; auto.
  - destruct (nth_error (SQSManager.procs s) i) as [p|]; [|discriminate].
    destruct (SQSManager.step_inner c p x) as [[p' evs]|] eqn:Hi; [|discriminate].
    inversion Hs; subst; clear Hs.
    eapply silent_trans;
      [|apply fold_perform_silent;
        [exact Hc|eapply step_inner_no_stream_event; exact Hi]].
    repeat split; simpl; auto. apply length_upd_nth.
  - destruct (SQSManager.deleteInterval s); inversion Hs; subst.
    apply with_batcher_silent; [exact Hc|apply flushBatchDelete_no_stream_event].
  - destruct (SQSManager.batch_settles k ok (SQSManager.batcher s)); inversion Hs; subst.
    repeat split; auto.
  - inversion Hs; subst. unfold SQSManager.close_stream. rewrite Hc.
    apply silent_refl. exact Hc.
Qed.

(** X13.  Once the subscriber is closed, by an error or because the caller
    unsubscribed, the stream stays closed and does nothing more: whatever
    settles afterwards, no receive call is sent, no message is emitted, no
    handler is called, no extender is started, and neither the error nor the
    teardown happens a second time.  Handlers already called still settle and
    hand their message to the delete buffer. *)
Theorem closed_stream_is_silent :
  forall c script s s',
    SQSManager.closed s = true ->
    SQSManager.run c s script = Some s' ->
    SQSManager.closed s' = true /\
    SQSManager.count is_stream_event (SQSManager.log s')
    = SQSManager.count is_stream_event (SQSManager.log s) /\
    List.length (SQSManager.procs s') = List.length (SQSManager.procs s).
Proof.
  intros c script. induction script as [|i rest IH]; simpl; intros s s' Hc Hrun.
  - inversion Hrun; subst. auto.
  - destruct (SQSManager.step c s i) as [s1|] eqn:Hs; [|discriminate].
    pose proof (closed_step_is_silent c s i s1 Hc Hs) as H1.
    eapply (silent_trans s s1 s'); [exact H1|]. apply IH; [apply H1|exact Hrun].
Qed.

Lemma closed_stream_is_silent_witness :
  exists s',
    SQSManager.run SQSManager.default_params unsubscribed_early
      [SQSManager.ReceiveDone (inr (Some [msg_b])); SQSManager.ProcIn 0 SQSManager.Resolved]
    = Some s'
    /\ List.length (SQSManager.procs s') = 1.
Proof.
  destruct (SQSManager.run SQSManager.default_params unsubscribed_early
              [SQSManager.ReceiveDone (inr (Some [msg_b]));
               SQSManager.ProcIn 0 SQSManager.Resolved]) as [s'|] eqn:Hrun;
    [|vm_compute in Hrun; discriminate].
  exists s'. split; [reflexivity|].
  destruct (closed_stream_is_silent _ _ unsubscribed_early s' eq_refl Hrun) as (_ & _ & H).
  rewrite H. reflexivity.
Defined.

Lemma filter_upd_nth :
  forall (A : Type) (f : A -> bool) n (x y : A) l,
    nth_error l n = Some x ->
    List.length (filter f (upd_nth n y l)) + (if f x then 1 else 0)
    = List.length (filter f l) + (if f y then 1 else 0).
Proof.
  intros A f n x y l. revert n. induction l as [|h t IH]; intros [|n] H; simpl in *;
    try discriminate.
  - inversion H; subst. destruct (f x), (f y); simpl; lia.
  - specialize (IH n H). destruct (f h); simpl; lia.
Qed.

Lemma closed_merge_ok :
  forall c s, SQSManager.closed s = true -> merge_ok c s.
Proof. intros c s H H'. congruence. Qed.

Lemma doInnerSub_fields :
  forall c m s,
    SQSManager.handler_throws c m = None ->
    SQSManager.closed (SQSManager.doInnerSub c m s) = SQSManager.closed s /\
    SQSManager.active (SQSManager.doInnerSub c m s) = S (SQSManager.active s) /\
    SQSManager.buffer (SQSManager.doInnerSub c m s) = SQSManager.buffer s /\
    List.length (filter in_progress (SQSManager.procs (SQSManager.doInnerSub c m s)))
    = S (List.length (filter in_progress (SQSManager.procs s))) /\
    List.length (SQSManager.procs (SQSManager.doInnerSub c m s))
    = S (List.length (SQSManager.procs s)).
Proof.
  intros c m s Hm. unfold SQSManager.doInnerSub, SQSManager.subscribe_inner.
  destruct (SQSManager.startVisibilityExtender m (SQSManager.visibilityInterval c))
    as [t evs].
  rewrite Hm. simpl. rewrite filter_app, !length_app. simpl. repeat split; lia.
Qed.

(** A handler that throws closes the stream; a closed stream stays closed. *)
Lemma doInnerSub_closed :
  forall c m s,
    SQSManager.handler_throws c m <> None \/ SQSManager.closed s = true ->
    SQSManager.closed (SQSManager.doInnerSub c m s) = true.
Proof.
  intros c m s H. unfold SQSManager.doInnerSub, SQSManager.subscribe_inner.
  destruct (SQSManager.startVisibilityExtender m (SQSManager.visibilityInterval c))
    as [t evs].
  destruct (SQSManager.handler_throws c m) as [e|]; cbn [SQSManager.phase].
  - apply stream_error_closed.
  - destruct H as [H|H]; [contradiction|exact H].
Qed.

Lemma drain_closed :
  forall c buf s,
    SQSManager.closed s = true -> SQSManager.closed (SQSManager.drain c buf s) = true.
Proof.
  intros c buf. induction buf as [|m rest IH]; intros s Hc; simpl; [exact Hc|].
  destruct (Z.of_nat (SQSManager.active s) <? SQSManager.concurrency c)%Z; [|exact Hc].
  apply IH. apply doInnerSub_closed. right. exact Hc.
Qed.

(** [drain] fills the free slots: from a state whose counter is right it
    reaches one that satisfies [merge_ok]. *)
Lemma drain_merge_ok :
  forall c buf s,
    SQSManager.closed s = false ->
    List.length (filter in_progress (SQSManager.procs s)) = SQSManager.active s ->
    (Z.of_nat (SQSManager.active s) <= Z.max 0 (SQSManager.concurrency c))%Z ->
    merge_ok c (SQSManager.drain c buf s).
Proof.
  intros c buf. induction buf as [|m rest IH]; intros s Hc Hn Hb; simpl.
  - intros _. simpl. repeat split; auto. intros H. contradiction.
  - destruct (Z.of_nat (SQSManager.active s) <? SQSManager.concurrency c)%Z eqn:Hlt.
    + apply Z.ltb_lt in Hlt.
      destruct (SQSManager.handler_throws c m) as [e|] eqn:Hm.
      * apply closed_merge_ok, drain_closed, doInnerSub_closed.
        left. rewrite Hm. discriminate.
      * destruct (doInnerSub_fields c m s Hm) as (F1 & F2 & F3 & F4 & _).
        apply IH; [congruence|congruence|rewrite F2; lia].
    + apply Z.ltb_ge in Hlt. intros _. simpl. repeat split; auto.
Qed.

Lemma merge_ok_fields :
  forall c s s',
    SQSManager.closed s' = SQSManager.closed s ->
    SQSManager.active s' = SQSManager.active s ->
    SQSManager.buffer s' = SQSManager.buffer s ->
    List.length (filter in_progress (SQSManager.procs s'))
    = List.length (filter in_progress (SQSManager.procs s)) ->
    merge_ok c s -> merge_ok c s'.
Proof.
  intros c s s' H1 H2 H3 H4 H. unfold merge_ok in *. rewrite H1, H2, H3, H4. exact H.
Qed.

Lemma with_batcher_merge_ok :
  forall c f s, merge_ok c s -> merge_ok c (SQSManager.with_batcher f s).
Proof.
  intros c f s H. unfold SQSManager.with_batcher.
  destruct (f (SQSManager.batcher s)) as [b evs].
  eapply merge_ok_fields; [| | | |exact H]; reflexivity.
Qed.

(** Every event of an inner observable but its completion keeps [merge_ok]. *)
Lemma perform_merge_ok :
  forall c s ev,
    (forall m, ev <> SQSManager.EvComplete m) ->
    merge_ok c s -> merge_ok c (SQSManager.perform c s ev).
Proof.
  intros c s ev Hev H.
  assert (H1 : merge_ok c (SQSManager.add_log [ev] s))
    by (eapply merge_ok_fields; [| | | |exact H]; reflexivity).
  unfold SQSManager.perform. destruct ev; try exact H1.
  - exfalso. eapply Hev. reflexivity.
  - apply closed_merge_ok, stream_error_closed.
  - apply with_batcher_merge_ok. exact H1.
Qed.

Lemma fold_perform_merge_ok :
  forall c evs s,
    Forall (fun ev => forall m, ev <> SQSManager.EvComplete m) evs ->
    merge_ok c s -> merge_ok c (fold_left (SQSManager.perform c) evs s).
Proof.
  intros c evs. induction evs as [|ev rest IH]; intros s H Hs; simpl; [exact Hs|].
  inversion H; subst. apply IH; [assumption|]. apply perform_merge_ok; assumption.
Qed.

Lemma emit_merge_ok :
  forall c s m, merge_ok c s -> merge_ok c (SQSManager.emit c s m).
Proof.
  intros c s m H. unfold SQSManager.emit.
  destruct (SQSManager.closed s) eqn:Hc; simpl; [exact H|].
  destruct (H Hc) as (A & B & C).
  unfold SQSManager.outerNext. simpl.
  destruct (Z.of_nat (SQSManager.active s) <? SQSManager.concurrency c)%Z eqn:Hlt.
  - apply Z.ltb_lt in Hlt.
    destruct (SQSManager.handler_throws c m) as [e|] eqn:Hm.
    + apply closed_merge_ok, doInnerSub_closed. left. rewrite Hm. discriminate.
    + destruct (doInnerSub_fields c m (SQSManager.add_log [SQSManager.EvEmit m] s) Hm)
        as (F1 & F2 & F3 & F4 & _).
      intros _. rewrite F2, F3, F4. simpl. repeat split; try lia.
      intros Hb. specialize (C Hb). lia.
  - apply Z.ltb_ge in Hlt. intros _. simpl. repeat split; auto.
Qed.

Lemma fold_emit_merge_ok :
  forall c ms s, merge_ok c s -> merge_ok c (fold_left (SQSManager.emit c) ms s).
Proof.
  intros c ms. induction ms as [|m rest IH]; intros s H; simpl; [exact H|].
  apply IH. apply emit_merge_ok. exact H.
Qed.

(** Naming the two counts of [filter_upd_nth] before [in_progress] is
    computed on the two inner observables. *)
Ltac count_progress Hf :=
  match type of Hf with
  | ?a + _ = ?b + _ => set (n1 := a) in *; set (n0 := b) in *
  end;
  unfold in_progress in Hf; simpl in Hf.

Lemma step_merge_ok :
  forall c s i s',
    merge_ok c s -> SQSManager.step c s i = Some s' -> merge_ok c s'.
Proof.
  intros c s i s' H Hs. destruct i; simpl in Hs.
  - destruct (SQSManager.polling s); [|discriminate].
    destruct r as [err|Messages]; inversion Hs; subst; clear Hs.
    + apply closed_merge_ok. simpl. apply stream_error_closed.
    + pose proof (fold_emit_merge_ok c
                    (match Messages with Some ms => ms | None => [] end) s H) as H1.
      unfold SQSManager.poll.
      destruct (SQSManager.isListening _ && negb _);
        (eapply merge_ok_fields; [| | | |exact H1]; reflexivity).
  - destruct (nth_error (SQSManager.procs s) i) as [p|] eqn:Hn; [|discriminate].
    destruct (SQSManager.step_inner c p x) as [[p' evs]|] eqn:Hi; [|discriminate].
    inversion Hs; subst; clear Hs.
    destruct (SQSManager.closed s) eqn:Hc.
    { pose proof (fold_perform_silent c evs
                    (SQSManager.set_merge (SQSManager.active s) (SQSManager.buffer s)
                       (upd_nth i p' (SQSManager.procs s)) s) Hc
                    (step_inner_no_stream_event c p x p' evs Hi)) as (Hc' & _).
      apply closed_merge_ok. exact Hc'. }
    destruct (H Hc) as (A & B & C).
    pose proof (filter_upd_nth _ in_progress i p p' (SQSManager.procs s) Hn) as Hf.
    destruct x; simpl in Hi.
    + destruct (SQSManager.extender p); [|discriminate]. inversion Hi; subst.
      apply fold_perform_merge_ok; [repeat constructor; discriminate|].
      intros _. simpl. count_progress Hf.
      repeat split; auto. destruct (SQSManager.phase p); lia.
    + destruct (SQSManager.inflight p); [discriminate|]. inversion Hi; subst.
      simpl. intros _. simpl. count_progress Hf.
      repeat split; auto. destruct (SQSManager.phase p); lia.
    + destruct (SQSManager.phase p) eqn:Hph; try discriminate. inversion Hi; subst.
      cbn [fold_left].
      apply fold_perform_merge_ok.
      { unfold SQSManager.stopVisibilityExtender.
        destruct (SQSManager.extender p); repeat constructor; discriminate. }
      unfold SQSManager.perform at 1. unfold SQSManager.inner_complete.
      cbn [SQSManager.closed SQSManager.perform SQSManager.add_log SQSManager.set_merge].
      rewrite Hc.
      apply drain_merge_ok; simpl; [exact Hc| |lia].
      count_progress Hf. rewrite Hph in Hf. lia.
    + destruct (SQSManager.phase p) eqn:Hph; try discriminate.
      unfold SQSManager.retry_error in Hi.
      destruct (Z.of_nat (SQSManager.soFar p) <? SQSManager.maxRetries c)%Z.
      * inversion Hi; subst.
        apply fold_perform_merge_ok; [repeat constructor; discriminate|].
        intros _. simpl. count_progress Hf. rewrite Hph in Hf.
        repeat split; auto. lia.
      * inversion Hi; subst. cbn [fold_left].
        apply fold_perform_merge_ok.
        { unfold SQSManager.stopVisibilityExtender.
          destruct (SQSManager.extender p); repeat constructor; discriminate. }
        apply closed_merge_ok. unfold SQSManager.perform. apply stream_error_closed.
    + destruct (SQSManager.phase p) eqn:Hph; try discriminate.
      unfold SQSManager.retry_error in Hi.
      destruct (Z.of_nat (SQSManager.soFar p) <? SQSManager.maxRetries c)%Z.
      * inversion Hi; subst.
        apply fold_perform_merge_ok; [repeat constructor; discriminate|].
        intros _. simpl. count_progress Hf. rewrite Hph in Hf.
        repeat split; auto. lia.
      * inversion Hi; subst. cbn [fold_left].
        apply fold_perform_merge_ok.
        { unfold SQSManager.stopVisibilityExtender.
          destruct (SQSManager.extender p); repeat constructor; discriminate. }
        apply closed_merge_ok. unfold SQSManager.perform. apply stream_error_closed.
  - destruct (SQSManager.deleteInterval s); inversion Hs; subst.
    apply with_batcher_merge_ok. exact H.
  - destruct (SQSManager.batch_settles k ok (SQSManager.batcher s)); inversion Hs; subst.
    eapply merge_ok_fields; [| | | |exact H]; reflexivity.
  - inversion Hs; subst. apply closed_merge_ok, close_stream_closed.
Qed.

(** X14.  The [concurrency] argument of [processMessage] bounds the work in
    progress: while the stream is open, the messages whose handler was called
    and whose inner observable has not finalized (the handler is pending or a
    retry waits its timer) are as many as [mergeMap] counts, at most
    [concurrency] (none when it is not positive), and a received message
    waits in the buffer of [mergeMap] only while no slot is free. *)
Theorem concurrency_bounds_the_messages_in_progress :
  forall c script s,
    SQSManager.run c (SQSManager.processMessage SQSManager.constructed) script = Some s ->
    SQSManager.closed s = false ->
    (Z.of_nat (List.length (filter in_progress (SQSManager.procs s)))
     <= Z.max 0 (SQSManager.concurrency c))%Z /\
    List.length (filter in_progress (SQSManager.procs s)) = SQSManager.active s /\
    (SQSManager.buffer s <> [] ->
     (SQSManager.concurrency c
      <= Z.of_nat (List.length (filter in_progress (SQSManager.procs s))))%Z).
Proof.
  intros c script s Hrun Hc.
  assert (H0 : merge_ok c (SQSManager.processMessage SQSManager.constructed)).
  { intros _. simpl. repeat split; try lia. intros H. contradiction. }
  assert (Hall : forall script s0 s1,
             merge_ok c s0 -> SQSManager.run c s0 script = Some s1 -> merge_ok c s1).
  { clear. intros script. induction script as [|i rest IH]; simpl; intros s0 s1 H Hrun.
    - inversion Hrun; subst. exact H.
    - destruct (SQSManager.step c s0 i) as [s2|] eqn:Hs; [|discriminate].
      eapply IH; [|exact Hrun]. eapply step_merge_ok; eauto. }
  destruct (Hall script _ s H0 Hrun Hc) as (A & B & C).
  rewrite A. auto.
Qed.

Lemma concurrency_bounds_witness :
  exists s,
    SQSManager.run two_slots (SQSManager.processMessage SQSManager.constructed)
      three_received = Some s
    /\ List.length (filter in_progress (SQSManager.procs s)) = 2
    /\ SQSManager.buffer s = [].
Proof.
  destruct (SQSManager.run two_slots (SQSManager.processMessage SQSManager.constructed)
              three_received) as [s|] eqn:Hrun; [|vm_compute in Hrun; discriminate].
  exists s. split; [reflexivity|].
  assert (Hc : SQSManager.closed s = false)
    by (vm_compute in Hrun; inversion Hrun; subst; reflexivity).
  destruct (concurrency_bounds_the_messages_in_progress two_slots three_received s Hrun Hc)
    as (_ & H & _).
  rewrite H. vm_compute in Hrun. inversion Hrun; subst. split; reflexivity.
Defined.







(** A handler that throws for [msg_b]: the answer [msg_a; msg_b;
    msg_no_handle] is emitted up to [msg_b]; the exception closes the stream,
    whose teardown runs; [msg_no_handle] is not emitted, no receive call
    follows, and the extender of [msg_b] stays set: it still ticks. *)
Example throwing_handler_closes_the_stream :
  exists s s',
    SQSManager.step throwing_params (SQSManager.processMessage SQSManager.constructed)
      (SQSManager.ReceiveDone (inr (Some [msg_a; msg_b; msg_no_handle]))) = Some s
    /\ SQSManager.log s
       = [SQSManager.EvReceive;
          SQSManager.EvEmit msg_a; SQSManager.EvSetInterval msg_a 15000;
          SQSManager.EvHandler msg_a;
          SQSManager.EvEmit msg_b; SQSManager.EvSetInterval msg_b 15000;
          SQSManager.EvHandler msg_b; SQSManager.EvError msg_b err_handler;
          SQSManager.EvStreamError err_handler; SQSManager.EvClearDeleteInterval]
    /\ SQSManager.closed s = true /\ SQSManager.polling s = false
    /\ SQSManager.step throwing_params s (SQSManager.ProcIn 1 SQSManager.Tick) = Some s'
    /\ SQSManager.log s' = SQSManager.log s ++ [SQSManager.EvExtend msg_b 30]
    /\ SQSManager.step throwing_params s (SQSManager.ProcIn 1 SQSManager.Resolved) = None.
Proof.
  destruct (SQSManager.step throwing_params (SQSManager.processMessage SQSManager.constructed)
              (SQSManager.ReceiveDone (inr (Some [msg_a; msg_b; msg_no_handle]))))
    as [s|] eqn:Hs; vm_compute in Hs; [|discriminate].
  inversion Hs; subst; clear Hs.
  eexists. eexists. split; [reflexivity|]. split; [reflexivity|].
  split; [reflexivity|]. split; [reflexivity|]. split; [vm_compute; reflexivity|].
  split; reflexivity.
Qed.

(** ** After the teardown *)

Lemma with_batcher_gate :
  forall f s,
    SQSManager.closed (SQSManager.with_batcher f s) = SQSManager.closed s /\
    SQSManager.deleteInterval (SQSManager.with_batcher f s) = SQSManager.deleteInterval s.
Proof.
  intros f s. unfold SQSManager.with_batcher.
  destruct (f (SQSManager.batcher s)); split; reflexivity.
Qed.

Lemma close_stream_interval_cleared :
  forall s, interval_cleared s -> interval_cleared (SQSManager.close_stream s).
Proof.
  intros s H. unfold SQSManager.close_stream.
  destruct (SQSManager.closed s) eqn:Hc; [exact H|].
  intros _. unfold SQSManager.teardown.
  rewrite (proj2 (with_batcher_gate _ _)). reflexivity.
Qed.

Lemma stream_error_interval_cleared :
  forall e s, interval_cleared s -> interval_cleared (SQSManager.stream_error e s).
Proof.
  intros e s H. unfold SQSManager.stream_error.
  destruct (SQSManager.closed s) eqn:Hc; [exact H|].
  apply close_stream_interval_cleared. intros Hc'. simpl in Hc'. congruence.
Qed.

Lemma interval_cleared_gate :
  forall s s',
    SQSManager.closed s' = SQSManager.closed s ->
    SQSManager.deleteInterval s' = SQSManager.deleteInterval s ->
    interval_cleared s -> interval_cleared s'.
Proof. intros s s' A B H. unfold interval_cleared in *. rewrite A, B. exact H. Qed.

Lemma doInnerSub_interval_cleared :
  forall c m s, interval_cleared s -> interval_cleared (SQSManager.doInnerSub c m s).
Proof.
  intros c m s H. unfold SQSManager.doInnerSub.
  destruct (SQSManager.subscribe_inner c m) as [p evs].
  assert (H1 : interval_cleared
                 (SQSManager.add_log evs
                    (SQSManager.set_merge (S (SQSManager.active s)) (SQSManager.buffer s)
                       (SQSManager.procs s ++ [p]) s)))
    by (eapply interval_cleared_gate; [| |exact H]; reflexivity).
  destruct (SQSManager.phase p); try exact H1.
  apply stream_error_interval_cleared. exact H1.
Qed.

Lemma drain_interval_cleared :
  forall c buf s, interval_cleared s -> interval_cleared (SQSManager.drain c buf s).
Proof.
  intros c buf. induction buf as [|m rest IH]; intros s H; simpl.
  - eapply interval_cleared_gate; [| |exact H]; reflexivity.
  - destruct (Z.of_nat (SQSManager.active s) <? SQSManager.concurrency c)%Z.
    + apply IH, doInnerSub_interval_cleared. exact H.
    + eapply interval_cleared_gate; [| |exact H]; reflexivity.
Qed.

Lemma perform_interval_cleared :
  forall c s ev, interval_cleared s -> interval_cleared (SQSManager.perform c s ev).
Proof.
  intros c s ev H.
  assert (H1 : interval_cleared (SQSManager.add_log [ev] s))
    by (eapply interval_cleared_gate; [| |exact H]; reflexivity).
  unfold SQSManager.perform. destruct ev; try exact H1.
  - unfold SQSManager.inner_complete.
    destruct (SQSManager.closed (SQSManager.add_log _ s)) eqn:Hc; [exact H1|].
    apply drain_interval_cleared.
    eapply interval_cleared_gate; [| |exact H1]; reflexivity.
  - apply stream_error_interval_cleared. exact H1.
  - eapply interval_cleared_gate; [| |exact H1]; apply with_batcher_gate.
Qed.

Lemma emit_interval_cleared :
  forall c s m, interval_cleared s -> interval_cleared (SQSManager.emit c s m).
Proof.
  intros c s m H. unfold SQSManager.emit.
  destruct (negb (SQSManager.closed s)); [|exact H].
  unfold SQSManager.outerNext.
  destruct (Z.of_nat _ <? SQSManager.concurrency c)%Z.
  - apply doInnerSub_interval_cleared.
    eapply interval_cleared_gate; [| |exact H]; reflexivity.
  - eapply interval_cleared_gate; [| |exact H]; reflexivity.
Qed.

Lemma step_interval_cleared :
  forall c s i s',
    interval_cleared s -> SQSManager.step c s i = Some s' -> interval_cleared s'.
Proof.
  intros c s i s' H Hs. destruct i; simpl in Hs.
  - destruct (SQSManager.polling s); [|discriminate].
    destruct r as [err|Messages]; inversion Hs; subst; clear Hs.
    + eapply interval_cleared_gate;
        [| |apply (stream_error_interval_cleared err s H)]; reflexivity.
    + assert (H1 : forall ms s0, interval_cleared s0 ->
                                 interval_cleared (fold_left (SQSManager.emit c) ms s0)).
      { clear. intros ms. induction ms as [|m rest IH]; intros s0 H0; simpl; [exact H0|].
        apply IH. apply emit_interval_cleared. exact H0. }
      specialize (H1 (match Messages with Some ms => ms | None => [] end) s H).
      unfold SQSManager.poll.
      destruct (SQSManager.isListening _ && negb _);
        (eapply interval_cleared_gate; [| |exact H1]; reflexivity).
  - destruct (nth_error (SQSManager.procs s) i) as [p|]; [|discriminate].
    destruct (SQSManager.step_inner c p x) as [[p' evs]|]; [|discriminate].
    inversion Hs; subst; clear Hs.
    assert (H1 : forall evs s0, interval_cleared s0 ->
                                interval_cleared (fold_left (SQSManager.perform c) evs s0)).
    { clear. intros evs. induction evs as [|ev rest IH]; intros s0 H0; simpl; [exact H0|].
      apply IH. apply perform_interval_cleared. exact H0. }
    apply H1. eapply interval_cleared_gate; [| |exact H]; reflexivity.
  - destruct (SQSManager.deleteInterval s); inversion Hs; subst.
    eapply interval_cleared_gate; [| |exact H]; apply with_batcher_gate.
  - destruct (SQSManager.batch_settles k ok (SQSManager.batcher s)); inversion Hs; subst.
    eapply interval_cleared_gate; [| |exact H]; reflexivity.
  - inversion Hs; subst. apply close_stream_interval_cleared. exact H.
Qed.

Lemma run_interval_cleared :
  forall c script s s',
    interval_cleared s -> SQSManager.run c s script = Some s' -> interval_cleared s'.
Proof.
  intros c script. induction script as [|i rest IH]; simpl; intros s s' H Hrun.
  - inversion Hrun; subst. exact H.
  - destruct (SQSManager.step c s i) as [s1|] eqn:Hs; [|discriminate].
    eapply IH; [|exact Hrun]. eapply step_interval_cleared; eauto.
Qed.

Lemma addToDeleteBatch_below_ten :
  forall m b,
    List.length (SQSManager.deleteBuffer b) < 9 ->
    snd (SQSManager.addToDeleteBatch m b) = [] /\
    List.length (SQSManager.deleteBuffer (fst (SQSManager.addToDeleteBatch m b)))
    <= S (List.length (SQSManager.deleteBuffer b)).
Proof.
  intros m b Hb. unfold SQSManager.addToDeleteBatch.
  destruct (MessageId m); [|split; [reflexivity|simpl; lia]].
  destruct (ReceiptHandle m); [|split; [reflexivity|simpl; lia]].
  destruct (negb _ || negb _); [split; [reflexivity|simpl; lia]|].
  cbn [SQSManager.deleteBuffer]. rewrite length_app. cbn [List.length].
  destruct (10 <=? List.length (SQSManager.deleteBuffer b) + 1) eqn:Hle.
  - apply Nat.leb_le in Hle. lia.
  - split; [reflexivity|]. cbn [fst SQSManager.deleteBuffer]. rewrite length_app.
    cbn [List.length]. lia.
Qed.

(** On a closed stream an event of an inner observable sends no batch, as
    long as the buffer stays below ten. *)
Lemma perform_closed_sends_nothing :
  forall c s ev,
    SQSManager.closed s = true ->
    is_delete_batch ev = false ->
    List.length (SQSManager.deleteBuffer (SQSManager.batcher s))
    + SQSManager.count is_hand_off [ev] < 10 ->
    SQSManager.closed (SQSManager.perform c s ev) = true /\
    SQSManager.sent_batches (SQSManager.log (SQSManager.perform c s ev))
    = SQSManager.sent_batches (SQSManager.log s) /\
    List.length (SQSManager.deleteBuffer (SQSManager.batcher (SQSManager.perform c s ev)))
    <= List.length (SQSManager.deleteBuffer (SQSManager.batcher s))
       + SQSManager.count is_hand_off [ev].
Proof.
  intros c s ev Hc Hev Hb.
  assert (H1 : SQSManager.sent_batches (SQSManager.log (SQSManager.add_log [ev] s))
               = SQSManager.sent_batches (SQSManager.log s)).
  { simpl. rewrite sent_batches_app. destruct ev; try discriminate; simpl;
      apply app_nil_r. }
  unfold SQSManager.perform.
  destruct ev; try (repeat split; [exact Hc|exact H1|simpl; lia]); try discriminate.
  - unfold SQSManager.inner_complete. simpl. rewrite Hc.
    repeat split; [exact Hc|exact H1|simpl; lia].
  - unfold SQSManager.stream_error. simpl. rewrite Hc.
    repeat split; [exact Hc|exact H1|simpl; lia].
  - unfold SQSManager.with_batcher. cbn in Hb.
    destruct (addToDeleteBatch_below_ten m
                (SQSManager.batcher (SQSManager.add_log [SQSManager.EvAddToDeleteBatch m] s)))
      as [A A']; [simpl; lia|].
    destruct (SQSManager.addToDeleteBatch m _) as [b evs]. simpl in A, A'. subst evs.
    repeat split; [exact Hc| |cbn; lia].
    cbn [SQSManager.log SQSManager.add_log SQSManager.set_batcher].
    rewrite app_nil_r. exact H1.
Qed.

Lemma fold_perform_closed_sends_nothing :
  forall c evs s,
    SQSManager.closed s = true ->
    Forall (fun ev => is_delete_batch ev = false) evs ->
    List.length (SQSManager.deleteBuffer (SQSManager.batcher s))
    + SQSManager.count is_hand_off evs < 10 ->
    SQSManager.sent_batches (SQSManager.log (fold_left (SQSManager.perform c) evs s))
    = SQSManager.sent_batches (SQSManager.log s).
Proof.
  intros c evs. induction evs as [|ev rest IH]; intros s Hc Hev Hb; simpl; [reflexivity|].
  inversion Hev as [|? ? Hev1 Hev2]; subst.
  change (ev :: rest) with ([ev] ++ rest) in Hb. rewrite sqs_count_app in Hb.
  destruct (perform_closed_sends_nothing c s ev Hc Hev1) as (A & B & C); [lia|].
  rewrite IH; [exact B|exact A|exact Hev2|lia].
Qed.

Lemma step_closed_sends_nothing :
  forall c s i s',
    SQSManager.closed s = true ->
    SQSManager.deleteInterval s = false ->
    List.length (SQSManager.deleteBuffer (SQSManager.batcher s)) < 9 ->
    SQSManager.step c s i = Some s' ->
    SQSManager.sent_batches (SQSManager.log s') = SQSManager.sent_batches (SQSManager.log s).
Proof.
  intros c s i s' Hc Hd Hb Hs. destruct i; simpl in Hs.
  - destruct (SQSManager.polling s); [|discriminate].
    destruct r as [err|Messages]; inversion Hs; subst; clear Hs.
    + unfold SQSManager.stream_error. rewrite Hc. reflexivity.
    + rewrite fold_emit_closed by exact Hc.
      unfold SQSManager.poll. rewrite Hc, andb_false_r. reflexivity.
  - destruct (nth_error (SQSManager.procs s) i) as [p|]; [|discriminate].
    destruct (SQSManager.step_inner c p x) as [[p' evs]|] eqn:Hi; [|discriminate].
    inversion Hs; subst; clear Hs.
    rewrite fold_perform_closed_sends_nothing; [reflexivity|exact Hc| |].
    + clear - Hi. inner_step Hi; repeat constructor.
    + assert (Hone : SQSManager.count is_hand_off evs <= 1)
        by (clear - Hi; inner_step Hi; cbn; lia).
      simpl. lia.
  - rewrite Hd in Hs. discriminate.
  - destruct (SQSManager.batch_settles k ok (SQSManager.batcher s)); inversion Hs; subst.
    reflexivity.
  - inversion Hs; subst. unfold SQSManager.close_stream. rewrite Hc. reflexivity.
Qed.

(** X16.  The teardown clears the interval of the constructor and flushes once.
    From then on no periodic flush happens: a message whose handler settles
    after the stream was closed is pushed to the buffer, but no batch is sent
    for it while the buffer holds fewer than ten entries. *)
Theorem hand_off_after_teardown_is_not_flushed :
  forall c script s i s',
    SQSManager.run c (SQSManager.processMessage SQSManager.constructed) script = Some s ->
    SQSManager.closed s = true ->
    List.length (SQSManager.deleteBuffer (SQSManager.batcher s)) < 9 ->
    SQSManager.step c s i = Some s' ->
    SQSManager.step c s SQSManager.IntervalFlush = None /\
    SQSManager.sent_batches (SQSManager.log s') = SQSManager.sent_batches (SQSManager.log s).
Proof.
  intros c script s i s' Hrun Hc Hb Hs.
  assert (Hd : SQSManager.deleteInterval s = false).
  { eapply (run_interval_cleared c script); [|exact Hrun|exact Hc].
    intros H. discriminate. }
  split.
  - simpl. rewrite Hd. reflexivity.
  - eapply step_closed_sends_nothing; eauto.
Qed.

Lemma hand_off_after_teardown_witness :
  exists s s',
    SQSManager.run SQSManager.default_params
      (SQSManager.processMessage SQSManager.constructed) unsubscribe_while_handling = Some s
    /\ SQSManager.step SQSManager.default_params s (SQSManager.ProcIn 0 SQSManager.Resolved)
       = Some s'
    /\ SQSManager.sent_batches (SQSManager.log s') = []
    /\ held (SQSManager.batcher s') <> [].
Proof.
  destruct (SQSManager.run SQSManager.default_params
              (SQSManager.processMessage SQSManager.constructed) unsubscribe_while_handling)
    as [s|] eqn:Hrun; [|vm_compute in Hrun; discriminate].
  destruct (SQSManager.step SQSManager.default_params s
              (SQSManager.ProcIn 0 SQSManager.Resolved))
    as [s'|] eqn:Hs; [|vm_compute in Hrun; inversion Hrun; subst; vm_compute in Hs; discriminate].
  exists s, s'. split; [reflexivity|]. split; [exact Hs|].
  assert (Hc : SQSManager.closed s = true)
    by (vm_compute in Hrun; inversion Hrun; subst; reflexivity).
  assert (Hb : List.length (SQSManager.deleteBuffer (SQSManager.batcher s)) < 9)
    by (vm_compute in Hrun; inversion Hrun; subst; simpl; lia).
  destruct (hand_off_after_teardown_is_not_flushed _ _ s _ s' Hrun Hc Hb Hs) as [_ H].
  split.
  - rewrite H. vm_compute in Hrun. inversion Hrun; subst. reflexivity.
  - vm_compute in Hrun. inversion Hrun; subst. vm_compute in Hs. inversion Hs; subst.
    discriminate.
Defined.

(** ** The time spent in backoff *)

Lemma waited_app : forall l1 l2, waited (l1 ++ l2) = (waited l1 + waited l2)%Z.
Proof.
  intros l1 l2. induction l1 as [|ev rest IH]; simpl; [reflexivity|].
  destruct ev; rewrite ?IH; lia.
Qed.

Lemma backoff_bounded_step :
  forall c p log x p' evs,
    (0 < SQSManager.baseDelay c)%Z ->
    SQSManager.random_in_range x ->
    backoff_bounded c p log ->
    SQSManager.step_inner c p x = Some (p', evs) ->
    backoff_bounded c p' (log ++ evs).
Proof.
  intros c p log x p' evs Hbase Hx [Hw Hk] Hs. unfold backoff_bounded.
  rewrite waited_app.
  assert (Hretry : forall e u,
             (0 <= u)%Q /\ (u < 1)%Q ->
             SQSManager.retry_error c p e u = (p', evs) ->
             (0 <= waited log + waited evs
              <= SQSManager.baseDelay c * (2 ^ (Z.of_nat (SQSManager.soFar p') + 1) - 2))%Z
             /\ (Z.of_nat (SQSManager.soFar p') <= Z.max 0 (SQSManager.maxRetries c))%Z).
  { intros e u [Hu0 Hu1] Hr. unfold SQSManager.retry_error in Hr.
    destruct (Z.of_nat (SQSManager.soFar p) <? SQSManager.maxRetries c)%Z eqn:Hlt.
    - apply Z.ltb_lt in Hlt. inversion Hr; subst; clear Hr.
      cbn [SQSManager.soFar waited fold_right].
      pose proof (retry_delay_range (SQSManager.baseDelay c) (S (SQSManager.soFar p)) u
                    Hbase Hu0 Hu1) as Hd.
      replace (Z.of_nat (S (SQSManager.soFar p)))
        with (Z.of_nat (SQSManager.soFar p) + 1)%Z in * by lia.
      rewrite (Z.pow_add_r 2 (Z.of_nat (SQSManager.soFar p) + 1) 1) by lia.
      change (2 ^ 1)%Z with 2%Z.
      set (P := (2 ^ (Z.of_nat (SQSManager.soFar p) + 1))%Z) in *.
      split; [nia|lia].
    - inversion Hr; subst; clear Hr. unfold SQSManager.stopVisibilityExtender.
      destruct (SQSManager.extender p); cbn; split; (lia || exact Hk). }
  destruct x; simpl in Hs.
  - destruct (SQSManager.extender p); [|discriminate]. inversion Hs; subst.
    cbn. split; [lia|exact Hk].
  - destruct (SQSManager.inflight p); [discriminate|]. inversion Hs; subst.
    cbn. split; [lia|exact Hk].
  - destruct (SQSManager.phase p); try discriminate. inversion Hs; subst.
    unfold SQSManager.stopVisibilityExtender.
    destruct (SQSManager.extender p); cbn; split; (lia || exact Hk).
  - destruct (SQSManager.phase p); try discriminate. inversion Hs as [Hr].
    eapply Hretry; [exact Hx|exact Hr].
  - destruct (SQSManager.phase p); try discriminate. inversion Hs as [Hr].
    eapply Hretry; [exact Hx|exact Hr].
Qed.

(** X17.  The retry timers of one message wait at most
    [baseDelay * (2 ^ (retries + 1) - 2)] milliseconds in total, hence at most
    [baseDelay * (2 ^ (maxRetries + 1) - 2)] before the message is handed to
    the delete buffer: 62 seconds with the defaults. *)
Theorem total_backoff_is_bounded :
  forall c m script p log,
    (0 < SQSManager.baseDelay c)%Z ->
    Forall SQSManager.random_in_range script ->
    SQSManager.run_inner c (fst (SQSManager.subscribe_inner c m))
      (snd (SQSManager.subscribe_inner c m)) script = Some (p, log) ->
    (0 <= waited log
     <= SQSManager.baseDelay c * (2 ^ (Z.of_nat (SQSManager.soFar p) + 1) - 2))%Z /\
    ((0 <= SQSManager.maxRetries c)%Z ->
     (waited log <= SQSManager.baseDelay c * (2 ^ (SQSManager.maxRetries c + 1) - 2))%Z).
Proof.
  intros c m script p log Hbase Hscript Hrun.
  assert (H0 : backoff_bounded c (fst (SQSManager.subscribe_inner c m))
                 (snd (SQSManager.subscribe_inner c m))).
  { unfold SQSManager.subscribe_inner, SQSManager.startVisibilityExtender, backoff_bounded.
    destruct (negb (truthy (ReceiptHandle m))), (SQSManager.handler_throws c m);
      cbn; split; lia. }
  assert (Hall : forall script p0 log0,
             Forall SQSManager.random_in_range script ->
             backoff_bounded c p0 log0 ->
             SQSManager.run_inner c p0 log0 script = Some (p, log) ->
             backoff_bounded c p log).
  { clear - Hbase. intros script. induction script as [|x rest IH];
      intros p0 log0 Hf H0 Hrun; simpl in Hrun.
    - inversion Hrun; subst. exact H0.
    - inversion Hf; subst.
      destruct (SQSManager.step_inner c p0 x) as [[p1 evs]|] eqn:Hs; [|discriminate].
      eapply IH; [assumption| |exact Hrun].
      eapply backoff_bounded_step; eauto. }
  destruct (Hall script _ _ Hscript H0 Hrun) as [Hw Hk].
  split; [exact Hw|]. intros Hmax.
  assert (Hpow : (2 ^ (Z.of_nat (SQSManager.soFar p) + 1)
                  <= 2 ^ (SQSManager.maxRetries c + 1))%Z)
    by (apply Z.pow_le_mono_r; lia).
  nia.
Qed.

Lemma total_backoff_witness :
  exists p log,
    SQSManager.run_inner SQSManager.default_params
      (fst (SQSManager.subscribe_inner SQSManager.default_params msg_a))
      (snd (SQSManager.subscribe_inner SQSManager.default_params msg_a))
      (SQSManager.rejections err_handler [(1 # 2)%Q; (1 # 3)%Q; (1 # 4)%Q]) = Some (p, log)
    /\ (waited log <= 62000)%Z.
Proof.
  destruct (SQSManager.run_inner SQSManager.default_params
              (fst (SQSManager.subscribe_inner SQSManager.default_params msg_a))
              (snd (SQSManager.subscribe_inner SQSManager.default_params msg_a))
              (SQSManager.rejections err_handler [(1 # 2)%Q; (1 # 3)%Q; (1 # 4)%Q]))
    as [[p log]|] eqn:Hrun; [|vm_compute in Hrun; discriminate].
  exists p, log. split; [reflexivity|].
  assert (Hscript : Forall SQSManager.random_in_range
                      (SQSManager.rejections err_handler [(1 # 2)%Q; (1 # 3)%Q; (1 # 4)%Q])).
  { repeat constructor; unfold Qle, Qlt; simpl; lia. }
  destruct (total_backoff_is_bounded SQSManager.default_params msg_a _ p log
              eq_refl Hscript Hrun) as [_ H].
  apply H. discriminate.
Defined.
